(** * ssci-tourism-analyzer: trend analysis and text normalisation

    A shallow embedding of [src/modules/analyzer.py] (class [TrendAnalyzer])
    and [src/modules/text_processor.py] (class [TextProcessor]), with the
    properties of the keyword tables, the burst detector, the co-occurrence
    network, the greedy topic clusterer, the gap miner and the normaliser.

    Conventions of the embedding.
    - Python [int] is [Z]; a Python [float] is the rational it denotes
      ([Q], kept in lowest terms), extended with the two infinities.  A
      quotient of two counts is taken exactly: for counts below 2^26, far
      beyond any corpus, rounding to a double changes none of the
      comparisons made on it.
    - Python [str] is [string]; the model covers ASCII text (characters
      below 128), on which [str.lower], [str.split] and the [re] classes
      [\w], [\b] are as written here.
    - A [Counter], a [dict] and a [defaultdict] are association lists in
      insertion order, since iteration order and [most_common] tie-breaking
      are observable.
    - The iteration order of a Python [set] of strings depends on the hash
      seed; it is a parameter ([SetOrder]) of every function that iterates
      over a set, and the theorems hold for each such order.
    - A record dictionary read by the analyzer is a Rocq record with one
      optional field per key; [None] stands for an absent key.  The
      normaliser, which copies and writes dictionaries, runs on an explicit
      object store. *)

From Stdlib Require Import ZArith QArith Qreduction List String Ascii.
From Stdlib Require Import Lia Lqa Bool Sorted.
From stdpp Require Import base tactics option list gmap strings.
Import ListNotations.

#[local] Open Scope string_scope.
#[local] Open Scope list_scope.
#[local] Open Scope Z_scope.

(** ** Python runtime model *)

(** *** Numbers *)

Inductive pyfloat : Type :=
| Fin (q : Q)
| PosInf
| NegInf.

Inductive pynum : Type :=
| PyInt (z : Z)
| PyFloat (f : pyfloat).

Definition to_float (n : pynum) : pyfloat :=
  match n with
  | PyInt z => Fin (inject_Z z)
  | PyFloat f => f
  end.

Definition float_ltb (a b : pyfloat) : bool :=
  match a, b with
  | Fin x, Fin y => negb (Qle_bool y x)
  | Fin _, PosInf => true
  | NegInf, Fin _ => true
  | NegInf, PosInf => true
  | _, _ => false
  end.

Definition float_eqb (a b : pyfloat) : bool :=
  match a, b with
  | Fin x, Fin y => Qeq_bool x y
  | PosInf, PosInf => true
  | NegInf, NegInf => true
  | _, _ => false
  end.

Definition float_neg (a : pyfloat) : pyfloat :=
  match a with
  | Fin x => Fin (Qopp x)
  | PosInf => NegInf
  | NegInf => PosInf
  end.

(** [a < b], [a == b] and [-a] on Python numbers: [int] and [float] compare
    by value. *)
Definition num_ltb (a b : pynum) : bool := float_ltb (to_float a) (to_float b).
Definition num_eqb (a b : pynum) : bool := float_eqb (to_float a) (to_float b).
Definition num_neg (a : pynum) : pynum :=
  match a with
  | PyInt z => PyInt (- z)
  | PyFloat f => PyFloat (float_neg f)
  end.

(** [a / b] on two [int]s, for [b <> 0] (the callers guard the division). *)
Definition py_truediv (a b : Z) : pynum :=
  PyFloat (Fin (Qred (inject_Z a / inject_Z b))).

(** *** Truthiness *)

Definition truthy_list {A} (o : option (list A)) : bool :=
  match o with
  | Some (_ :: _) => true
  | _ => false
  end.

Definition truthy_str (o : option string) : bool :=
  match o with
  | Some (String _ _) => true
  | _ => false
  end.

Definition truthy_int (o : option Z) : bool :=
  match o with
  | Some z => negb (z =? 0)
  | None => false
  end.

(** [o or []] for reading a list behind a key whose truthiness was tested. *)
Definition list_of {A} (o : option (list A)) : list A := default [] o.

(** *** Strings *)

Definition is_upper (c : ascii) : bool :=
  let n := nat_of_ascii c in (Nat.leb 65 n) && (Nat.leb n 90).
Definition is_lower (c : ascii) : bool :=
  let n := nat_of_ascii c in (Nat.leb 97 n) && (Nat.leb n 122).
Definition is_digit (c : ascii) : bool :=
  let n := nat_of_ascii c in (Nat.leb 48 n) && (Nat.leb n 57).

Definition lower_char (c : ascii) : ascii :=
  if is_upper c then ascii_of_nat (nat_of_ascii c + 32) else c.
Definition upper_char (c : ascii) : ascii :=
  if is_lower c then ascii_of_nat (nat_of_ascii c - 32) else c.

(** [s.lower()] *)
Fixpoint lower (s : string) : string :=
  match s with
  | EmptyString => EmptyString
  | String c s' => String (lower_char c) (lower s')
  end.

(** [s.title()]: a letter is upper-cased when it follows a character that
    is not a letter, and lower-cased otherwise. *)
Fixpoint title_from (prev_cased : bool) (s : string) : string :=
  match s with
  | EmptyString => EmptyString
  | String c s' =>
      let cased := is_upper c || is_lower c in
      String (if prev_cased then lower_char c else upper_char c)
             (title_from cased s')
  end.
Definition title (s : string) : string := title_from false s.

(** [sep.join(l)] *)
Fixpoint join (sep : string) (l : list string) : string :=
  match l with
  | [] => EmptyString
  | [x] => x
  | x :: l' => x +:+ sep +:+ join sep l'
  end.

(** Whitespace of [str.split()] and of the [re] class [\s] in ASCII. *)
Definition is_space (c : ascii) : bool :=
  let n := nat_of_ascii c in
  (Nat.leb 9 n && Nat.leb n 13) || (Nat.leb 28 n && Nat.leb n 32).

(** [s.split()]: the maximal runs of non-whitespace characters. *)
Fixpoint split_from (cur : string) (s : string) : list string :=
  let flush := match cur with EmptyString => [] | _ => [cur] end in
  match s with
  | EmptyString => flush
  | String c s' =>
      if is_space c then flush ++ split_from EmptyString s'
      else split_from (cur +:+ String c EmptyString) s'
  end.
Definition split (s : string) : list string := split_from EmptyString s.

(** *** Slices *)

(** [l[-n:]] and [l[:-n]] for [n > 0]. *)
Definition py_last {A} (n : nat) (l : list A) : list A :=
  drop (length l - n)%nat l.
Definition py_but_last {A} (n : nat) (l : list A) : list A :=
  take (length l - n)%nat l.

(** *** Stable sorting *)

(** [sorted(l, key=...)] and [list.sort]: the sort is stable, so its result
    is fixed by the strict order [lt] on the keys.  Insertion from the
    right puts an element before the elements that follow it in the input
    and are not smaller. *)
Fixpoint insert_by {A} (lt : A -> A -> bool) (x : A) (l : list A) : list A :=
  match l with
  | [] => [x]
  | y :: l' => if lt y x then y :: insert_by lt x l' else x :: y :: l'
  end.

Definition sorted_by {A} (lt : A -> A -> bool) (l : list A) : list A :=
  foldr (insert_by lt) [] l.

(** *** Sets of strings *)

(** [set_iter l] is the order in which Python iterates over the set obtained
    by inserting the elements of [l] one after the other.  Nothing is known
    of it but that every element comes once. *)
Class SetOrder : Type := {
  set_iter : list string -> list string;
  set_iter_NoDup : forall l, NoDup (set_iter l);
  set_iter_elem : forall l x, x ∈ set_iter l <-> x ∈ l;
  (** the same for the intersection [set(a) & set(b)] *)
  set_inter_iter : list string -> list string -> list string;
  set_inter_iter_NoDup : forall a b, NoDup (set_inter_iter a b);
  set_inter_iter_elem :
    forall a b x, x ∈ set_inter_iter a b <-> x ∈ a /\ x ∈ b
}.

(** One such order, for running the model: last occurrences, in order. *)
Definition last_seen_inter (a b : list string) : list string :=
  remove_dups (filter (.∈ b) a).

Definition last_seen_order : SetOrder.
Proof.
  refine {| set_iter := remove_dups; set_inter_iter := last_seen_inter |}.
  - apply NoDup_remove_dups.
  - apply elem_of_remove_dups.
  - intros a b. apply NoDup_remove_dups.
  - intros a b x. unfold last_seen_inter.
    rewrite elem_of_remove_dups, list_elem_of_filter. tauto.
Defined.

(** *** Counters and ordered dictionaries *)

Section Counter.
Context {K : Type} `{EqDecision K}.

(** [c[k] += n]: an existing key keeps its place, a new key goes last. *)
Fixpoint counter_add (k : K) (n : Z) (c : list (K * Z)) : list (K * Z) :=
  match c with
  | [] => [(k, n)]
  | (k', m) :: c' =>
      if decide (k = k') then (k', m + n) :: c'
      else (k', m) :: counter_add k n c'
  end.

(** [c.get(k, 0)] *)
Fixpoint counter_get (k : K) (c : list (K * Z)) : Z :=
  match c with
  | [] => 0
  | (k', m) :: c' => if decide (k = k') then m else counter_get k c'
  end.

(** [c.update(iterable)] *)
Definition counter_update (ks : list K) (c : list (K * Z)) : list (K * Z) :=
  foldl (fun c k => counter_add k 1 c) c ks.

(** [c.update(mapping)] *)
Definition counter_update_map (m c : list (K * Z)) : list (K * Z) :=
  foldl (fun c kn => counter_add kn.1 kn.2 c) c m.

(** [c.most_common()]: by decreasing count, ties in insertion order. *)
Definition most_common (c : list (K * Z)) : list (K * Z) :=
  sorted_by (fun a b => b.2 <? a.2) c.

(** [c.most_common(n)] *)
Definition most_common_n (n : nat) (c : list (K * Z)) : list (K * Z) :=
  take n (most_common c).
End Counter.

(** [d.get(k, dflt)] on an ordered dictionary. *)
Fixpoint dict_get {K V} `{EqDecision K} (k : K) (dflt : V) (d : list (K * V)) : V :=
  match d with
  | [] => dflt
  | (k', v) :: d' => if decide (k = k') then v else dict_get k dflt d'
  end.

(** [d[k] = f(d[k])] on a [defaultdict] whose factory gives [dflt]. *)
Fixpoint dict_alter {K V} `{EqDecision K} (f : V -> V) (dflt : V) (k : K)
    (d : list (K * V)) : list (K * V) :=
  match d with
  | [] => [(k, f dflt)]
  | (k', v) :: d' =>
      if decide (k = k') then (k', f v) :: d'
      else (k', v) :: dict_alter f dflt k d'
  end.

(** The number of times [k] occurs in [l]. *)
Definition occurrences {A} `{EqDecision A} (k : A) (l : list A) : Z :=
  Z.of_nat (length (filter (k =.) l)).

(** ** analyzer.py: [TrendAnalyzer] *)

(** The keys of a record dictionary that the analyzer reads. *)
Record paper : Type := {
  year : option Z;
  all_keywords : option (list string);
  keywords_normalized : option (list string);
  keywords : option (list string);
  abstract_tokens : option (list string);
  limitations : option string;
  future_research : option string;
  citations : option Z
}.

(** The keywords that [analyze_keywords] puts into the set [keywords] of a
    record: the first non-empty one of three sources. *)
Definition aggregate_source (p : paper) : list string :=
  if truthy_list (all_keywords p) then list_of (all_keywords p)
  else if truthy_list (keywords_normalized p)
       then list_of (keywords_normalized p)
  else if truthy_list (keywords p) then map lower (list_of (keywords p))
  else [].

(** The same for [analyze_keywords_by_year] and
    [build_cooccurrence_network], which have no [keywords_normalized]
    branch. *)
Definition yearly_source (p : paper) : list string :=
  if truthy_list (all_keywords p) then list_of (all_keywords p)
  else if truthy_list (keywords p) then map lower (list_of (keywords p))
  else [].

Section Analyzer.
Context `{SetOrder}.

Definition keyword_counter (papers : list paper) : list (string * Z) :=
  foldl (fun c p => counter_update (set_iter (aggregate_source p)) c)
        [] papers.

Definition analyze_keywords (papers : list paper) : list (string * Z) :=
  most_common (keyword_counter papers).

(** The [defaultdict(Counter)] filled by the loop. *)
Definition yearly_counter (papers : list paper)
  : list (Z * list (string * Z)) :=
  foldl (fun t p =>
           if truthy_int (year p)
           then dict_alter (counter_update (set_iter (yearly_source p))) []
                  (default 0 (year p)) t
           else t)
        [] papers.

Definition analyze_keywords_by_year (papers : list paper)
  : list (Z * list (string * Z)) :=
  let yearly_keywords := yearly_counter papers in
  map (fun y => (y, most_common (dict_get y [] yearly_keywords)))
      (sorted_by Z.ltb (map fst yearly_keywords)).
End Analyzer.

(** A record that [analyze_keywords_by_year] does not skip. *)
Definition has_year (p : paper) : Prop := truthy_int (year p) = true.

(** The years that [analyze_keywords_by_year] does not skip. *)
Definition known_years (papers : list paper) : list Z :=
  omap (fun p => if truthy_int (year p) then year p else None) papers.

(** A record as [process_papers] returns it, the only records that reach the
    analyzer: the key [all_keywords] is present, and its list holds the
    normalised keywords ([_process_single_paper] fills it from
    [keywords_normalized] and [abstract_keywords]). *)
Definition merged (p : paper) : Prop :=
  match all_keywords p with
  | Some kws => list_of (keywords_normalized p) ⊆ kws
  | None => False
  end.

#[local] Instance merged_dec (p : paper) : Decision (merged p).
Proof. unfold merged. destruct (all_keywords p); apply _. Defined.

(** The sum over the years of the count of a keyword in a per-year table. *)
Definition yearly_total (k : string) (t : list (Z * list (string * Z))) : Z :=
  foldr (fun yc acc => counter_get k yc.2 + acc) 0 t.

(** *** Burst words *)

(** An entry of the list returned by [detect_burst_words]. *)
Record burst : Type := {
  burst_keyword : string;
  recent_freq : Z;
  earlier_freq : Z;
  growth_rate : pynum;
  is_new : bool;
  trend : string
}.

(** The value of the local [growth_rate] of the loop body. *)
Definition computed_growth (recent earlier : Z) : pynum :=
  if decide (earlier = 0)
  then (if decide (3 <= recent) then PyFloat PosInf else PyInt recent)
  else py_truediv (recent - earlier) earlier.

(** [growth_rate > 0.5 or (is_new and recent_freq >= 3)] *)
Definition burst_kept (recent earlier : Z) : bool :=
  num_ltb (PyFloat (Fin (1 # 2))) (computed_growth recent earlier)
  || (bool_decide (earlier = 0) && bool_decide (3 <= recent)).

(** [growth_rate if growth_rate != float('inf') else 10.0] *)
Definition reported_growth (g : pynum) : pynum :=
  if num_eqb g (PyFloat PosInf) then PyFloat (Fin (10 # 1)) else g.

Definition burst_entry (kw : string) (recent earlier : Z) : burst :=
  {| burst_keyword := kw;
     recent_freq := recent;
     earlier_freq := earlier;
     growth_rate := reported_growth (computed_growth recent earlier);
     is_new := bool_decide (earlier = 0);
     trend := "rising" |}.

(** The sort key [(-x['growth_rate'], -x['recent_freq'])], compared as
    Python compares tuples. *)
Definition burst_key_ltb (a b : burst) : bool :=
  let ga := num_neg (growth_rate a) in
  let gb := num_neg (growth_rate b) in
  if num_eqb ga gb then - recent_freq a <? - recent_freq b
  else num_ltb ga gb.

(** Descending growth, then descending recent count: the order in which
    [detect_burst_words] returns two entries. *)
Definition burst_before (a b : burst) : Prop :=
  num_ltb (growth_rate b) (growth_rate a) = true
  \/ (num_eqb (growth_rate a) (growth_rate b) = true
      /\ recent_freq b <= recent_freq a).

Section BurstDetector.
Context `{SetOrder}.

Definition burst_years (papers : list paper) : list Z :=
  sorted_by Z.ltb (map fst (analyze_keywords_by_year papers)).

Definition recent_years (papers : list paper) : list Z :=
  py_last 2 (burst_years papers).

Definition earlier_years (papers : list paper) : list Z :=
  let years := burst_years papers in
  if decide (2 < length years)%nat then py_but_last 2 years else take 1 years.

(** The counter summed over the years of a window. *)
Definition window_keywords (papers : list paper) (window : list Z)
  : list (string * Z) :=
  let yearly_keywords := analyze_keywords_by_year papers in
  foldl (fun c y => counter_update_map (dict_get y [] yearly_keywords) c)
        [] window.

Definition recent_keywords (papers : list paper) : list (string * Z) :=
  window_keywords papers (recent_years papers).

Definition earlier_keywords (papers : list paper) : list (string * Z) :=
  window_keywords papers (earlier_years papers).

(** The list [burst_words] at the end of the loop, before it is sorted. *)
Definition burst_candidates (papers : list paper) : list burst :=
  let earlier := earlier_keywords papers in
  omap (fun kr : string * Z =>
          let earlier_freq := counter_get kr.1 earlier in
          if burst_kept kr.2 earlier_freq
          then Some (burst_entry kr.1 kr.2 earlier_freq)
          else None)
       (recent_keywords papers).

Definition detect_burst_words (papers : list paper) : list burst :=
  if decide (length (analyze_keywords_by_year papers) < 2)%nat then []
  else sorted_by burst_key_ltb (burst_candidates papers).
End BurstDetector.

(** *** The co-occurrence network *)

Record node : Type := {
  node_id : string;
  node_label : string;
  node_size : Z
}.

Record edge : Type := {
  source : string;
  target : string;
  weight : Z
}.

Record network : Type := {
  nodes : list node;
  edges : list edge
}.

(** [tuple(sorted([kw1, kw2]))] *)
Definition sorted_pair (kw1 kw2 : string) : string * string :=
  if String.ltb kw2 kw1 then (kw2, kw1) else (kw1, kw2).

(** A pair is in the form in which the network stores it when its
    components differ and are in order. *)
Definition canonical_pair (st : string * string) : Prop :=
  st.1 <> st.2 /\ String.ltb st.2 st.1 = false.

(** The pairs met by the two nested loops over [keywords] and
    [keywords[i+1:]], in the order of the loops. *)
Fixpoint pairs_of (keywords : list string) : list (string * string) :=
  match keywords with
  | [] => []
  | kw1 :: rest => map (sorted_pair kw1) rest ++ pairs_of rest
  end.

Section Cooccurrence.
Context `{SetOrder}.

Definition top_keywords (top_n : nat) (papers : list paper) : list string :=
  take top_n (map fst (analyze_keywords papers)).

(** [list(keywords & set(top_keywords))] for one record. *)
Definition restricted_keywords (top_n : nat) (papers : list paper) (p : paper)
  : list string :=
  set_inter_iter (yearly_source p) (top_keywords top_n papers).

(** The [defaultdict(int)] of pair counts. *)
Definition cooccurrence (top_n : nat) (papers : list paper)
  : list (string * string * Z) :=
  foldl (fun c p =>
           counter_update (pairs_of (restricted_keywords top_n papers p)) c)
        [] papers.

Definition build_cooccurrence_network (papers : list paper) (top_n : nat)
  : network :=
  let keyword_freq := analyze_keywords papers in
  let nodes :=
    map (fun kw => {| node_id := kw; node_label := kw;
                      node_size := dict_get kw 1 keyword_freq |})
        (top_keywords top_n papers) in
  let edges :=
    omap (fun pw : string * string * Z =>
            if decide (2 <= pw.2)
            then Some {| source := pw.1.1; target := pw.1.2; weight := pw.2 |}
            else None)
         (cooccurrence top_n papers) in
  {| nodes := nodes;
     edges := take 200 (sorted_by (fun a b => - weight a <? - weight b) edges) |}.
End Cooccurrence.

(** The records whose restricted keyword set holds both [a] and [b]. *)
Definition records_with_both (top : list string) (a b : string)
    (papers : list paper) : list paper :=
  filter (fun p => (a ∈ yearly_source p /\ a ∈ top)
                   /\ (b ∈ yearly_source p /\ b ∈ top)) papers.

(** *** Topic clustering *)

(** [times_0_01 n] is the float [n * 0.01] of [lda_topic_modeling], as the
    rational it denotes.  The rounding of the product is not modelled: the
    value is a parameter, and the theorems hold whatever it is. *)
Class FloatArith : Type := {
  times_0_01 : nat -> Q
}.

(** The product without rounding, for running the model. *)
Definition exact_arith : FloatArith :=
  {| times_0_01 := fun n => Qred (inject_Z (Z.of_nat n) * (1 # 100)) |}.

Record topic : Type := {
  topic_id : Z;
  topic_keywords : list string;
  topic_label : string;
  topic_description : string;
  document_count : Z
}.

(** [_generate_topic_label] *)
Definition _generate_topic_label (keywords : list string) : string :=
  match keywords with
  | k0 :: k1 :: _ => title k0 +:+ " & " +:+ title k1
  | [k0] => title k0
  | [] => "Unknown Topic"
  end.

(** [_generate_topic_description]; it is called on lists that start with a
    seed, the empty list (an [IndexError]) has no case of its own. *)
Definition _generate_topic_description (keywords : list string) : string :=
  match keywords with
  | k0 :: k1 :: k2 :: k3 :: k4 :: _ =>
      "This topic focuses on " +:+ k0 +:+ ", exploring its relationship with "
      +:+ k1 +:+ ", " +:+ k2 +:+ ", and related concepts such as " +:+ k3
      +:+ " and " +:+ k4 +:+ "."
  | k0 :: k1 :: k2 :: _ =>
      "This topic examines " +:+ k0 +:+ " in relation to " +:+ k1 +:+ " and "
      +:+ k2 +:+ "."
  | k0 :: _ => "This topic centers on " +:+ k0 +:+ "."
  | [] => EmptyString
  end.

(** [_count_topic_documents] *)
Definition _count_topic_documents (documents : list (list string))
    (topic_keywords : list string) : Z :=
  Z.of_nat (length (filter (fun doc => Exists (.∈ doc) topic_keywords)
                           documents)).

(** The pairs [(w1, w2)] of the loops over [doc_words] and
    [doc_words[i+1:]]. *)
Fixpoint ordered_pairs (doc_words : list string) : list (string * string) :=
  match doc_words with
  | [] => []
  | w1 :: rest => map (fun w2 => (w1, w2)) rest ++ ordered_pairs rest
  end.

(** [cooccurrence[w1][w2] += 1; cooccurrence[w2][w1] += 1] *)
Definition cooccur (c : list (string * list (string * Z)))
    (w : string * string) : list (string * list (string * Z)) :=
  dict_alter (counter_add w.1 1) [] w.2
    (dict_alter (counter_add w.2 1) [] w.1 c).

(** The inner loop that fills [topic_words] from [related]. *)
Definition grow_topic (used_words : list string) (seed : string)
    (related : list (string * Z)) : list string :=
  foldl (fun topic_words wc =>
           if decide ((wc.1 ∉ used_words) /\ (length topic_words < 15)%nat)
           then topic_words ++ [wc.1] else topic_words)
        [seed] related.

Section TopicClusterer.
Context `{SetOrder} `{FloatArith}.

(** The list of one record in [documents]. *)
Definition document_of (p : paper) : list string :=
  set_iter ((if truthy_list (all_keywords p) then list_of (all_keywords p)
             else [])
            ++ (if truthy_list (abstract_tokens p)
                then take 20 (list_of (abstract_tokens p)) else [])).

Definition documents_of (papers : list paper) : list (list string) :=
  map document_of papers.

Definition word_freq (documents : list (list string)) : list (string * Z) :=
  foldl (fun c doc => counter_update doc c) [] documents.

(** [max(2, len(documents) * 0.01)] *)
Definition min_freq (documents : list (list string)) : pynum :=
  let x := PyFloat (Fin (times_0_01 (length documents))) in
  if num_ltb (PyInt 2) x then x else PyInt 2.

(** The words of the set [valid_words], in the order of their insertion. *)
Definition valid_words (documents : list (list string)) : list string :=
  omap (fun wf : string * Z =>
          if num_ltb (PyInt wf.2) (min_freq documents) then None
          else Some wf.1)
       (word_freq documents).

(** The [defaultdict(Counter)] named [cooccurrence]. *)
Definition word_cooccurrence (documents : list (list string))
  : list (string * list (string * Z)) :=
  foldl (fun c doc =>
           foldl cooccur c
                 (ordered_pairs (filter (.∈ valid_words documents) doc)))
        [] documents.

Definition seed_words (documents : list (list string)) : list string :=
  let freq := word_freq documents in
  sorted_by (fun a b => - counter_get a freq <? - counter_get b freq)
            (set_iter (valid_words documents)).

(** The loop over [seed_words], from the state [(used_words, topics)]. *)
Fixpoint cluster (n_topics : Z) (documents : list (list string))
    (seeds : list string) (used_words : list string) (topics : list topic)
  : list topic :=
  match seeds with
  | [] => topics
  | seed :: rest =>
      if decide (seed ∈ used_words)
      then cluster n_topics documents rest used_words topics
      else if decide (n_topics <= Z.of_nat (length topics)) then topics
      else
        let related :=
          most_common_n 20 (dict_get seed [] (word_cooccurrence documents)) in
        let topic_words := grow_topic used_words seed related in
        if decide (3 <= length topic_words)%nat
        then cluster n_topics documents rest (used_words ++ topic_words)
               (topics ++
                [{| topic_id := Z.of_nat (length topics) + 1;
                    topic_keywords := topic_words;
                    topic_label := _generate_topic_label topic_words;
                    topic_description :=
                      _generate_topic_description topic_words;
                    document_count :=
                      _count_topic_documents documents topic_words |}])
        else cluster n_topics documents rest used_words topics
  end.

Definition lda_topic_modeling (n_topics : Z) (papers : list paper)
  : list topic :=
  let documents := documents_of papers in
  cluster n_topics documents (seed_words documents) [] [].
End TopicClusterer.

(** No word is in two lists of [ls]. *)
Definition pairwise_disjoint (ls : list (list string)) : Prop :=
  forall i j l1 l2 w,
    i <> j -> ls !! i = Some l1 -> ls !! j = Some l2 -> w ∈ l1 -> w ∉ l2.

(** What a topic of the result looks like: between 3 and 15 keywords, a
    seed word first, followed by words among the 20 that co-occur most with
    the seed. *)
Definition seeded_topic `{SetOrder} `{FloatArith} (documents : list (list string)) (t : topic) : Prop :=
  (3 <= length (topic_keywords t) <= 15)%nat
  /\ exists seed rest,
       topic_keywords t = seed :: rest
       /\ seed ∈ seed_words documents
       /\ Forall (fun w =>
            w ∈ (most_common_n 20
                   (dict_get seed [] (word_cooccurrence documents))).*1)
            rest.

(** *** Research gaps *)

(** An element of [high_impact_low_freq]. *)
Record potential : Type := {
  potential_keyword : string;
  avg_citations : pynum;
  frequency : Z
}.

Record gap : Type := {
  gap_id : Z;
  gap_title : string;
  gap_description : string;
  source_count : Z;
  gap_keywords : list string;
  opportunity : string;
  potential_topics : option (list potential)
}.

Definition sum_Z (l : list Z) : Z := foldr Z.add 0 l.

(** [Counter] of the words longer than 4 characters of the excerpts behind
    the key [field], every occurrence counted. *)
Definition themes (field : paper -> option string) (papers : list paper)
  : list (string * Z) :=
  foldl (fun c p =>
           if truthy_str (field p)
           then counter_update
                  (filter (fun w => (4 < String.length w)%nat)
                          (split (lower (default EmptyString (field p)))))
                  c
           else c)
        [] papers.

(** [[w for w, c in themes.most_common(20) if c >= 2]] *)
Definition common_themes (field : paper -> option string)
    (papers : list paper) : list string :=
  omap (fun wc : string * Z => if decide (2 <= wc.2) then Some wc.1 else None)
       (most_common_n 20 (themes field papers)).

(** [paper.get('all_keywords', paper.get('keywords', []))], lower-cased. *)
Definition citation_keywords (p : paper) : list string :=
  map lower
      (match all_keywords p with
       | Some kws => kws
       | None => default [] (keywords p)
       end).

(** The [defaultdict(list)] named [keyword_citations]. *)
Definition keyword_citations (papers : list paper) : list (string * list Z) :=
  foldl (fun d p =>
           foldl (fun d kw =>
                    dict_alter (fun l => l ++ [default 0 (citations p)]) [] kw d)
                 d (citation_keywords p))
        [] papers.

(** The [Counter] named [keyword_freq] in [identify_research_gaps]. *)
Definition citation_keyword_freq (papers : list paper) : list (string * Z) :=
  foldl (fun c p => counter_update (citation_keywords p) c) [] papers.

Definition high_impact_low_freq (papers : list paper) : list potential :=
  let keyword_freq := citation_keyword_freq papers in
  sorted_by
    (fun a b => num_ltb (num_neg (avg_citations a)) (num_neg (avg_citations b)))
    (omap (fun kc : string * list Z =>
             if decide (2 <= length kc.2)%nat
             then
               let avg_cite := py_truediv (sum_Z kc.2) (Z.of_nat (length kc.2)) in
               let freq := counter_get kc.1 keyword_freq in
               if num_ltb (PyInt 10) avg_cite && bool_decide (freq < 5)
               then Some {| potential_keyword := kc.1;
                            avg_citations := avg_cite;
                            frequency := freq |}
               else None
             else None)
          (keyword_citations papers)).

Definition emerging_tech : list string :=
  ["generative ai"; "chatgpt"; "llm"; "metaverse"; "blockchain"; "iot";
   "digital twin"].

Definition tech_gaps (papers : list paper) : list string :=
  filter (fun tech => counter_get tech (citation_keyword_freq papers) < 10)
         emerging_tech.

Definition future_gap (papers : list paper) : list gap :=
  let common_future := common_themes future_research papers in
  match common_future with
  | [] => []
  | _ =>
    [{| gap_id := 1;
        gap_title := "Methodological Advancement";
        gap_description :=
          "Multiple studies suggest future research should address: "
          +:+ join ", " (take 5 common_future);
        source_count :=
          Z.of_nat (length (filter (fun p => truthy_str (future_research p) = true)
                                   papers));
        gap_keywords := take 10 common_future;
        opportunity :=
          "Consider developing new methodological approaches or frameworks addressing these areas.";
        potential_topics := None |}]
  end.

Definition limitation_gap (papers : list paper) : list gap :=
  let common_limitations := common_themes limitations papers in
  match common_limitations with
  | [] => []
  | _ =>
    [{| gap_id := 2;
        gap_title := "Addressing Current Limitations";
        gap_description :=
          "Common limitations across studies include: "
          +:+ join ", " (take 5 common_limitations);
        source_count :=
          Z.of_nat (length (filter (fun p => truthy_str (limitations p) = true)
                                   papers));
        gap_keywords := take 10 common_limitations;
        opportunity :=
          "Design studies that specifically overcome these common methodological limitations.";
        potential_topics := None |}]
  end.

Definition impact_gap (papers : list paper) : list gap :=
  match high_impact_low_freq papers with
  | [] => []
  | high =>
    let top_potential := take 5 high in
    [{| gap_id := 3;
        gap_title := "High-Impact Underexplored Topics";
        gap_description :=
          "Topics with high citation impact but low publication frequency: "
          +:+ join ", " (map potential_keyword top_potential);
        source_count := sum_Z (map frequency top_potential);
        gap_keywords := map potential_keyword top_potential;
        opportunity :=
          "These topics show high academic interest but limited coverage - prime opportunities for new contributions.";
        potential_topics := Some top_potential |}]
  end.

Definition technology_gap (papers : list paper) : list gap :=
  let keyword_freq := citation_keyword_freq papers in
  match tech_gaps papers with
  | [] => []
  | techs =>
    [{| gap_id := 4;
        gap_title := "Emerging Technology Applications";
        gap_description :=
          "Cutting-edge technologies with limited tourism research coverage: "
          +:+ join ", " (take 5 techs);
        source_count := sum_Z (map (fun t => counter_get t keyword_freq) techs);
        gap_keywords := techs;
        opportunity :=
          "Apply these emerging technologies to tourism contexts for innovative research contributions.";
        potential_topics := None |}]
  end.

Definition identify_research_gaps (papers : list paper) : list gap :=
  future_gap papers ++ limitation_gap papers ++ impact_gap papers
  ++ technology_gap papers.

(** The technology gap of a corpus in which no technology term occurs. *)
Definition untouched_technology_gap : gap :=
  {| gap_id := 4;
     gap_title := "Emerging Technology Applications";
     gap_description :=
       "Cutting-edge technologies with limited tourism research coverage: generative ai, chatgpt, llm, metaverse, blockchain";
     source_count := 0;
     gap_keywords := emerging_tech;
     opportunity :=
       "Apply these emerging technologies to tourism contexts for innovative research contributions.";
     potential_topics := None |}.

(** ** text_processor.py: [TextProcessor] *)

(** *** The tables of [__init__] *)

(** [self.stopwords], the set returned by [_load_stopwords]. *)
Definition stopwords : list string :=
  ["a"; "an"; "and"; "are"; "as"; "at"; "be"; "by"; "for"; "from"; "has";
   "have"; "in"; "is"; "it"; "its"; "of"; "on"; "or"; "that"; "the"; "this";
   "to"; "was"; "were"; "will"; "with"; "which"; "can"; "could"; "do";
   "does"; "did"; "done"; "been"; "being"; "but"; "if"; "not"; "no"; "such";
   "than"; "these"; "those"; "then"; "there"; "their"; "they"; "them";
   "through"; "we"; "our"; "what"; "when"; "where"; "who"; "how"; "why";
   "would"; "should"; "may"; "might"; "must"; "shall"; "also"; "more";
   "most"; "much"; "many"; "some"; "any"; "all"; "both"; "each"; "few";
   "other"; "over"; "own"; "same"; "so"; "too"; "very"; "just"; "only";
   "now"; "here"; "however"; "therefore"; "thus"; "although"; "because";
   "since"; "while"; "between"; "among"; "during"; "before"; "after";
   "above"; "below"; "under"; "within"; "without"; "about"; "into"; "onto";
   "upon"; "per"; "via"; "etc"; "ie"; "eg"; "i"; "me"; "my"; "you"; "your";
   "he"; "him"; "his"; "she"; "her"; "one"; "two"; "three"; "first";
   "second"; "third"; "well"; "yet"].

(** [self.academic_stopwords] *)
Definition academic_stopwords : list string :=
  ["study"; "research"; "paper"; "article"; "results"; "findings";
   "analysis"; "data"; "method"; "methods"; "approach"; "model"; "using";
   "based"; "propose"; "proposed"; "show"; "shows"; "suggest"; "suggests";
   "indicate"; "indicates"; "examine"; "examines"; "explore"; "explores";
   "investigate"; "investigates"; "aim"; "aims"; "objective"; "purpose";
   "contribution"; "literature"; "review"; "framework"; "theory";
   "theoretical"; "empirical"; "quantitative"; "qualitative"; "sample";
   "samples"; "respondent"; "respondents"; "participant"; "participants";
   "significant"; "significantly"; "effect"; "effects"; "impact"; "impacts";
   "influence"; "influences"; "relationship"; "relationships"; "factor";
   "factors"; "variable"; "variables"; "hypothesis"; "hypotheses";
   "conclusion"; "conclusions"; "implication"; "implications"; "limitation";
   "limitations"; "future"; "direction"; "directions"].

(** [self.domain_terms] *)
Definition domain_terms : list string :=
  ["tourism"; "tourist"; "tourists"; "travel"; "traveler"; "travelers";
   "destination"; "destinations"; "hotel"; "hotels"; "hospitality";
   "accommodation"; "airline"; "airlines"; "attraction"; "attractions";
   "experience"; "experiences"; "satisfaction"; "loyalty"; "motivation";
   "sustainable"; "sustainability"; "eco-tourism"; "ecotourism"; "cultural";
   "heritage"; "authenticity"; "wellness"; "medical"; "dark tourism";
   "adventure"; "rural"; "urban"; "coastal"; "airbnb"; "sharing economy";
   "platform"; "online"; "digital"; "smart tourism"; "smart destination";
   "iot"; "big data"; "virtual reality"; "vr"; "augmented reality"; "ar";
   "metaverse"; "artificial intelligence"; "ai"; "machine learning"; "ml";
   "generative ai"; "chatgpt"; "llm"; "chatbot"; "robot"; "service quality";
   "servicescape"; "service recovery"; "word of mouth"; "wom"; "ewom";
   "social media"; "instagram"; "influencer"; "ugc"; "review"; "reviews";
   "rating"; "ratings"; "booking"; "reservation"; "ota"; "expedia";
   "tripadvisor"; "covid"; "pandemic"; "recovery"; "resilience"; "crisis";
   "overtourism"; "undertourism"; "gentrification"; "carrying capacity"].

(** [self.phrase_mapping], in the order of the dictionary. *)
Definition phrase_mapping : list (string * string) :=
  [ ("artificial intelligence", "ai");
    ("virtual reality", "vr");
    ("augmented reality", "ar");
    ("machine learning", "ml");
    ("internet of things", "iot");
    ("big data analytics", "big data");
    ("word of mouth", "wom");
    ("electronic word of mouth", "ewom");
    ("user generated content", "ugc");
    ("online travel agency", "ota");
    ("customer satisfaction", "satisfaction");
    ("tourist satisfaction", "satisfaction");
    ("service quality", "service quality");
    ("sustainable tourism", "sustainable tourism");
    ("eco tourism", "ecotourism");
    ("smart tourism", "smart tourism");
    ("sharing economy", "sharing economy");
    ("generative artificial intelligence", "generative ai");
    ("large language model", "llm");
    ("large language models", "llm") ].

(** [self.stem_mapping] *)
Definition stem_mapping : list (string * string) :=
  [ ("tourists", "tourist");
    ("travelers", "traveler");
    ("destinations", "destination");
    ("hotels", "hotel");
    ("experiences", "experience");
    ("attractions", "attraction");
    ("reviews", "review");
    ("ratings", "rating");
    ("booking", "booking");
    ("bookings", "booking") ].

(** *** Regular expressions and [str] methods used by [_tokenize] *)

(** [\w] and the class [[a-z0-9_\-]] on ASCII. *)
Definition is_word (c : ascii) : bool :=
  is_lower c || is_upper c || is_digit c || bool_decide (c = "_"%char).
Definition in_class (c : ascii) : bool :=
  is_lower c || is_digit c || bool_decide (c = "_"%char)
  || bool_decide (c = "-"%char).

(** [s.replace(old, new)] for a non-empty [old]: the occurrences of [old]
    are replaced from left to right; [skip] counts the characters of an
    occurrence in progress. *)
Fixpoint replace_from (old new : string) (skip : nat) (s : string) : string :=
  match s with
  | EmptyString => EmptyString
  | String c s' =>
      match skip with
      | S k => replace_from old new k s'
      | O =>
          if String.prefix old s
          then new +:+ replace_from old new (String.length old - 1) s'
          else String c (replace_from old new 0 s')
      end
  end.
Definition replace (old new s : string) : string := replace_from old new 0 s.

(** [s.isdigit()] on ASCII. *)
Fixpoint all_digits (s : string) : bool :=
  match s with
  | EmptyString => true
  | String c s' => is_digit c && all_digits s'
  end.
Definition isdigit (s : string) : bool :=
  match s with
  | EmptyString => false
  | _ => all_digits s
  end.

(** [s[:n]] *)
Fixpoint str_take (n : nat) (s : string) : string :=
  match n, s with
  | S k, String c s' => String c (str_take k s')
  | _, _ => EmptyString
  end.

(** The end of a match of [[a-z0-9_\-]+\b] in [s], after the character
    [last] was matched: the greatest number of further characters of the
    class after which [\b] holds. *)
Fixpoint best_end (last : ascii) (s : string) : option nat :=
  match s with
  | EmptyString => if is_word last then Some O else None
  | String c s' =>
      let here := if xorb (is_word last) (is_word c) then Some O else None in
      if in_class c
      then match best_end c s' with
           | Some k => Some (S k)
           | None => here
           end
      else here
  end.

(** The number of characters that [[a-z0-9_\-]+\b] matches at the head of
    [s], greedy with backtracking. *)
Definition match_len (s : string) : option nat :=
  match s with
  | String c s' => if in_class c then S <$> best_end c s' else None
  | EmptyString => None
  end.

(** [re.findall(r'\b[a-z][a-z0-9_\-]+\b', s)], scanning from a position
    that follows the character [prev]; [skip] counts the characters of the
    match in progress. *)
Fixpoint findall_from (prev : option ascii) (skip : nat) (s : string)
  : list string :=
  match s with
  | EmptyString => []
  | String c s' =>
      match skip with
      | S k => findall_from (Some c) k s'
      | O =>
          if negb (from_option is_word false prev) && is_lower c
          then match match_len s' with
               | Some n => String c (str_take n s') :: findall_from (Some c) n s'
               | None => findall_from (Some c) 0 s'
               end
          else findall_from (Some c) 0 s'
      end
  end.
Definition findall_tokens (s : string) : list string := findall_from None 0 s.

(** *** [_tokenize] *)

(** The loop over [self.phrase_mapping.items()]. *)
Definition replace_phrases (text : string) : string :=
  foldl (fun text pr => replace pr.1 (replace " " "_" pr.2) text)
        text phrase_mapping.

(** The body of the loop over [tokens]: [None] stands for [continue]. *)
Definition filter_token (token : string) : option string :=
  let token := replace "_" " " token in
  if decide (token ∈ stopwords) then None
  else if decide (token ∈ academic_stopwords /\ token ∉ domain_terms) then None
  else if decide (String.length token < 2)%nat then None
  else if isdigit token then None
  else Some (dict_get token token stem_mapping).

Definition _tokenize (text : string) : list string :=
  match text with
  | EmptyString => []
  | _ => omap filter_token (findall_tokens (replace_phrases (lower text)))
  end.

(** *** Shapes of tokens *)

Fixpoint str_all (P : ascii -> bool) (s : string) : bool :=
  match s with
  | EmptyString => true
  | String c s' => P c && str_all P s'
  end.

(** The last character of [String d s]. *)
Fixpoint str_last (d : ascii) (s : string) : ascii :=
  match s with
  | EmptyString => d
  | String c s' => str_last c s'
  end.

(** Text within the scope of the model. *)
Definition is_ascii (s : string) : bool :=
  str_all (fun c => Nat.ltb (nat_of_ascii c) 128) s.

Definition no_upper (s : string) : bool :=
  str_all (fun c => negb (is_upper c)) s.
Definition no_space (s : string) : bool :=
  str_all (fun c => negb (bool_decide (c = " "%char))) s.
Definition no_underscore (s : string) : bool :=
  str_all (fun c => negb (bool_decide (c = "_"%char))) s.

(** A match of the token pattern in lower-case text: a lower-case letter,
    then at least one character of the class, the last one a word
    character. *)
Definition match_shape (t : string) : bool :=
  match t with
  | String c (String c1 rest) =>
      is_lower c && str_all in_class (String c1 rest)
      && is_word (str_last c1 rest)
  | _ => false
  end.

(** *** [_normalize_keywords] and [_extract_keywords_from_text] *)

(** [re.sub(r'[^\w\s\-]', '', s)] *)
Fixpoint strip_special (s : string) : string :=
  match s with
  | EmptyString => EmptyString
  | String c s' =>
      if is_word c || is_space c || bool_decide (c = "-"%char)
      then String c (strip_special s') else strip_special s'
  end.

(** [s.lstrip()] and [s.strip()] *)
Fixpoint lstrip (s : string) : string :=
  match s with
  | String c s' => if is_space c then lstrip s' else s
  | EmptyString => EmptyString
  end.
Definition strip (s : string) : string :=
  String.rev (lstrip (String.rev (lstrip s))).

(** The body of the loop of [_normalize_keywords] on a non-empty string
    [kw]; [None] stands for [continue]. *)
Definition normalize_keyword (kw : string) : option string :=
  let kw := strip (lower kw) in
  let kw := strip_special kw in
  let kw := dict_get kw kw phrase_mapping in
  let kw := dict_get kw kw stem_mapping in
  if decide (kw ∈ stopwords \/ kw ∈ academic_stopwords) then None
  else if decide (2 <= String.length kw)%nat then Some kw
  else None.

(** [_extract_keywords_from_text(text, top_n)] *)
Definition _extract_keywords_from_text (text : string) (top_n : nat)
  : list string :=
  let tokens := _tokenize text in
  let freq := counter_update tokens [] in
  let domain_found := filter (.∈ domain_terms) tokens in
  let domain_freq := counter_update domain_found [] in
  let result := (most_common_n (top_n / 2) domain_freq).*1 in
  let result :=
    foldl (fun result token =>
             if decide (token ∈ result) then result else result ++ [token])
          result (most_common_n top_n freq).*1 in
  take top_n result.

(** *** The object store *)

(** Addresses of objects. *)
Abbreviation loc := positive.

Inductive pyval : Type :=
| VNone
| VInt (z : Z)
| VStr (s : string)
| VRef (l : loc).

#[local] Instance pyval_eq_dec : EqDecision pyval.
Proof. solve_decision. Defined.

(** The objects that can be changed in place. *)
Inductive pyobj : Type :=
| ODict (d : gmap string pyval)
| OList (l : list pyval).

(** The store: the objects by address. *)
Abbreviation heap := (gmap positive pyobj).

(** The result of a computation that may raise an exception. *)
Inductive result (A : Type) : Type :=
| Ok (a : A)
| Raise.
Arguments Ok {A} a.
Arguments Raise {A}.

(** Computations on the store; what was written before an exception stays
    written. *)
Definition M (A : Type) : Type := heap -> result A * heap.

Definition ret {A} (a : A) : M A := fun h => (Ok a, h).
Definition raise {A} : M A := fun h => (Raise, h).
Definition bind {A B} (m : M A) (k : A -> M B) : M B :=
  fun h => match m h with
           | (Ok a, h') => k a h'
           | (Raise, h') => (Raise, h')
           end.

#[local] Instance M_ret : MRet M := @ret.
#[local] Instance M_bind : MBind M := fun A B k m => bind m k.

(** A new object. *)
Definition alloc (o : pyobj) : M loc :=
  fun h => let l := fresh (dom h) in (Ok l, <[l := o]> h).

Definition get_heap : M heap := fun h => (Ok h, h).

(** [d[k] = v] on the dictionary at [l]. *)
Definition setitem (l : loc) (k : string) (v : pyval) : M unit :=
  fun h => match h !! l with
           | Some (ODict d) => (Ok tt, <[l := ODict (<[k := v]> d)]> h)
           | _ => (Raise, h)
           end.

(** [lst.append(v)] on the list at [l]. *)
Definition append (l : loc) (v : pyval) : M unit :=
  fun h => match h !! l with
           | Some (OList vs) => (Ok tt, <[l := OList (vs ++ [v])]> h)
           | _ => (Raise, h)
           end.

(** [try: m  except Exception: handler] *)
Definition try_except {A} (m : M A) (handler : M A) : M A :=
  fun h => match m h with
           | (Ok a, h') => (Ok a, h')
           | (Raise, h') => handler h'
           end.

(** [bool(v)] *)
Definition truthy (h : heap) (v : pyval) : bool :=
  match v with
  | VNone => false
  | VInt z => negb (z =? 0)
  | VStr s => negb (String.eqb s EmptyString)
  | VRef l =>
      match h !! l with
      | Some (ODict d) => negb (bool_decide (d = ∅))
      | Some (OList vs) => negb (bool_decide (vs = []))
      | None => true
      end
  end.

(** The values met by [for x in v]; a dictionary gives its keys, whose
    order plays no part below; a number or [None] is not iterable. *)
Definition py_iter (h : heap) (v : pyval) : option (list pyval) :=
  match v with
  | VStr s =>
      Some (map (fun c => VStr (String c EmptyString))
                (list_ascii_of_string s))
  | VRef l =>
      match h !! l with
      | Some (OList vs) => Some vs
      | Some (ODict d) => Some (map VStr (map_to_list d).*1)
      | None => None
      end
  | _ => None
  end.

(** A value can go into a set when it is not a list or a dictionary. *)
Definition hashable (v : pyval) : bool :=
  match v with
  | VRef _ => false
  | _ => true
  end.

(** The functions of the module that the model leaves open: the regular
    expressions of [_clean_text], [_extract_limitations] and
    [_extract_future_research], which map a [str] to a [str]; [int(s)] on
    a [str], which may raise; and the iteration order of a set of values
    of several types. *)
Class TextFunctions : Type := {
  _clean_text : string -> string;
  _extract_limitations : string -> string;
  _extract_future_research : string -> string;
  int_of_str : string -> option Z;
  value_set_iter : list pyval -> list pyval
}.

(** *** [process_papers] *)

(** [d.get(k)] on the dictionary at [l]. *)
Definition dict_lookup (l : loc) (k : string) : M (option pyval) :=
  fun h => match h !! l with
           | Some (ODict d) => (Ok (d !! k), h)
           | _ => (Raise, h)
           end.

Definition get (l : loc) (k : string) : M pyval :=
  o ← dict_lookup l k; mret (default VNone o).

Definition pass : M unit := ret tt.

Definition is_truthy (v : pyval) : M bool := fun h => (Ok (truthy h v), h).

(** A [str] method or a function of [re] on a value: an exception unless
    the value is a [str]. *)
Definition as_str (v : pyval) : M string :=
  match v with
  | VStr s => mret s
  | _ => raise
  end.

Definition of_option {A} (o : option A) : M A :=
  match o with
  | Some a => mret a
  | None => raise
  end.

(** A new list of strings. *)
Definition new_list (l : list string) : M pyval :=
  r ← alloc (OList (map VStr l)); mret (VRef r).

(** The loop of [_normalize_keywords] over the values of [keywords]; no
    result when [kw.lower()] meets a value that is not a [str]. *)
Fixpoint normalize_all (h : heap) (kws : list pyval) : option (list string) :=
  match kws with
  | [] => Some []
  | kw :: rest =>
      if truthy h kw
      then match kw with
           | VStr s =>
               normalized ← normalize_all h rest;
               Some (match normalize_keyword s with
                     | Some k => k :: normalized
                     | None => normalized
                     end)
           | _ => None
           end
      else normalize_all h rest
  end.

Section TextProcessor.
Context `{SetOrder} `{TextFunctions}.

Definition _normalize_keywords (keywords_v : pyval) : M pyval :=
  h ← get_heap;
  kws ← of_option (py_iter h keywords_v);
  normalized ← of_option (normalize_all h kws);
  new_list (set_iter normalized).

(** The values put into a set by [set(v)] or [s.update(v)]. *)
Definition set_items (v : pyval) : M (list pyval) :=
  h ← get_heap;
  items ← of_option (py_iter h v);
  if forallb hashable items then mret items else raise.

(** [int(v)] *)
Definition py_int (v : pyval) : M pyval :=
  match v with
  | VInt z => mret (VInt z)
  | VStr s => z ← of_option (int_of_str s); mret (VInt z)
  | _ => raise
  end.

(** [_process_single_paper]; [dict(paper)] is taken to raise when [paper]
    is not a dictionary. *)
Definition _process_single_paper (paper : pyval) : M loc :=
  match paper with
  | VRef paper =>
    h ← get_heap;
    match h !! paper with
    | Some (ODict d) =>
      processed ← alloc (ODict d);
      title_v ← get paper "title";
      has_title ← is_truthy title_v;
      (if has_title : bool
       then text ← as_str title_v;
            setitem processed "title_clean" (VStr (_clean_text text))
       else pass);;
      abstract_v ← get paper "abstract";
      has_abstract ← is_truthy abstract_v;
      (if has_abstract : bool
       then text ← as_str abstract_v;
            setitem processed "abstract_clean" (VStr (_clean_text text));;
            tokens ← new_list (_tokenize text);
            setitem processed "abstract_tokens" tokens;;
            kws ← new_list (_extract_keywords_from_text text 10);
            setitem processed "abstract_keywords" kws;;
            setitem processed "limitations" (VStr (_extract_limitations text));;
            setitem processed "future_research"
              (VStr (_extract_future_research text))
       else pass);;
      keywords_v ← get paper "keywords";
      has_keywords ← is_truthy keywords_v;
      (if has_keywords : bool
       then normalized ← _normalize_keywords keywords_v;
            setitem processed "keywords_normalized" normalized
       else empty ← new_list [];
            setitem processed "keywords_normalized" empty);;
      normalized ← dict_lookup processed "keywords_normalized";
      merged_items ←
        match normalized with
        | Some v => set_items v
        | None => mret []
        end;
      extracted ← dict_lookup processed "abstract_keywords";
      more ←
        match extracted with
        | Some v => set_items v
        | None => mret []
        end;
      merged ← alloc (OList (value_set_iter (merged_items ++ more)));
      setitem processed "all_keywords" (VRef merged);;
      year_v ← get paper "year";
      with_year ← is_truthy year_v;
      (if with_year : bool
       then y ← py_int year_v; setitem processed "year" y
       else pass);;
      mret processed
    | _ => raise
    end
  | _ => raise
  end.

(** The loop of [process_papers] over the values of the list [papers],
    read when the loop starts; the loop does not change that list. *)
Fixpoint process_each (processed : loc) (papers : list pyval) : M unit :=
  match papers with
  | [] => pass
  | paper :: rest =>
      try_except
        (processed_paper ← _process_single_paper paper;
         nonempty ← is_truthy (VRef processed_paper);
         if nonempty : bool then append processed (VRef processed_paper)
         else pass)
        pass;;
      process_each processed rest
  end.

Definition process_papers (papers : loc) : M loc :=
  processed ← alloc (OList []);
  h ← get_heap;
  items ← of_option (py_iter h (VRef papers));
  process_each processed items;;
  mret processed.
End TextProcessor.

(** [frames h0 Q m]: run from a store that extends [h0], the computation
    [m] leaves every object of [h0] as it is, and its result, if any,
    satisfies [Q]. *)
Definition frames {A} (h0 : heap) (Q : A -> Prop) (m : M A) : Prop :=
  forall h, h0 ⊆ h ->
    h0 ⊆ (m h).2 /\ forall a, (m h).1 = Ok a -> Q a.

(** A reference to an object that is not in the store [h]. *)
Definition new_ref (h : heap) (v : pyval) : Prop :=
  exists l, v = VRef l /\ l ∉ dom h.

(** ** Sample data *)

(** A record without any key. *)
Definition bare_paper : paper :=
  {| year := None; all_keywords := None; keywords_normalized := None;
     keywords := None; abstract_tokens := None; limitations := None;
     future_research := None; citations := None |}.

(** A normalised record with a year and keywords. *)
Definition keyword_paper (y : Z) (kws : list string) : paper :=
  {| year := Some y; all_keywords := Some kws; keywords_normalized := None;
     keywords := None; abstract_tokens := None; limitations := None;
     future_research := None; citations := None |}.

(** The records of the scenario: years 2023, 2023, 2025. *)
Definition scenario_papers : list paper :=
  [ keyword_paper 2023 ["ai"; "tourism"];
    keyword_paper 2023 ["ai"; "satisfaction"];
    keyword_paper 2025 ["vr"; "tourism"] ].

(** A processed record without a year. *)
Definition undated_paper (kws : list string) : paper :=
  {| year := None; all_keywords := Some kws; keywords_normalized := Some kws;
     keywords := None; abstract_tokens := None; limitations := None;
     future_research := None; citations := None |}.

(** A record with a year whose normalised keywords were not merged into
    [all_keywords]; [process_papers] returns no such record. *)
Definition unmerged_paper : paper :=
  {| year := Some 2023; all_keywords := None;
     keywords_normalized := Some ["ai"];
     keywords := Some ["Artificial Intelligence"];
     abstract_tokens := None; limitations := None;
     future_research := None; citations := None |}.

(** A normalised record with keywords and abstract tokens. *)
Definition token_paper (kws toks : list string) : paper :=
  {| year := None; all_keywords := Some kws; keywords_normalized := None;
     keywords := None; abstract_tokens := Some toks; limitations := None;
     future_research := None; citations := None |}.

(** A record whose only key of interest is [future_research]. *)
Definition future_paper (text : string) : paper :=
  {| year := None; all_keywords := None; keywords_normalized := None;
     keywords := None; abstract_tokens := None; limitations := None;
     future_research := Some text; citations := None |}.

(** One record whose future-research excerpt uses a word twice, and one
    whose limitations excerpt does. *)
Definition repeated_future : paper :=
  future_paper
    "adopt longitudinal designs and collect longitudinal data across several destinations".

Definition repeated_limitation : paper :=
  {| year := None; all_keywords := None; keywords_normalized := None;
     keywords := None; abstract_tokens := None;
     limitations :=
       Some "the sample was small and the sample was drawn from one destination only";
     future_research := None; citations := None |}.

(** Stand-ins for the open functions, for running the model. *)
Definition plain_functions : TextFunctions :=
  {| _clean_text := fun s => s;
     _extract_limitations := fun _ => EmptyString;
     _extract_future_research := fun _ => EmptyString;
     int_of_str := fun _ => None;
     value_set_iter := remove_dups |}.

(** A store with one record (at 1) whose keywords are the list at 2, and
    the list of records (at 3), which also holds a number. *)
Definition sample_heap : heap :=
  {[ 1%positive :=
       ODict {[ "title" := VStr "Smart Hotels";
                "abstract" := VStr "Tourists use virtual reality in hotels";
                "keywords" := VRef 2%positive;
                "year" := VInt 2023 ]};
     2%positive := OList [VStr "Tourists"; VStr "Virtual Reality"];
     3%positive := OList [VRef 1%positive; VInt 5] ]}.

(** * Further functions *)

(** ** analyzer.py: citation statistics *)

(** [[p.get('citations', 0) for p in papers]] *)
Definition citations_of (papers : list paper) : list Z :=
  map (fun p => default 0 (citations p)) papers.

(** The loop of [calculate_h_index] from the index [i] and the value [h]:
    it stops at the first count below its rank. *)
Fixpoint h_loop (i h : Z) (cs : list Z) : Z :=
  match cs with
  | [] => h
  | c :: rest => if decide (i + 1 <= c) then h_loop (i + 1) (i + 1) rest else h
  end.

Definition calculate_h_index (papers : list paper) : Z :=
  h_loop 0 0 (sorted_by (fun a b => b <? a) (citations_of papers)).

(** The dictionary returned by [get_citation_statistics]. *)
Record citation_stats : Type := {
  total_citations : Z;
  paper_count : Z;
  mean_citations : pynum;
  median_citations : Z;
  max_citations : Z;
  h_index : Z;
  highly_cited_papers : Z
}.

(** [max(l)] for a list that starts with [c]. *)
Definition py_max (c : Z) (l : list Z) : Z := foldl Z.max c l.

(** [get_citation_statistics]; [None] stands for the empty dictionary. *)
Definition get_citation_statistics (papers : list paper)
  : option citation_stats :=
  let cs := citations_of papers in
  match cs with
  | [] => None
  | c :: rest =>
      let total := sum_Z cs in
      let count := length cs in
      Some {| total_citations := total;
              paper_count := Z.of_nat count;
              mean_citations := py_truediv total (Z.of_nat count);
              median_citations :=
                default 0 (sorted_by Z.ltb cs !! (count / 2)%nat);
              max_citations := py_max c rest;
              h_index := calculate_h_index papers;
              highly_cited_papers :=
                Z.of_nat (length (filter (fun c => 50 < c) cs)) |}
  end.

(** The number of records with at least, and with at most, [n] citations. *)
Definition cited_at_least (n : Z) (papers : list paper) : Z :=
  Z.of_nat (length (filter (fun c => n <= c) (citations_of papers))).
Definition cited_at_most (n : Z) (papers : list paper) : Z :=
  Z.of_nat (length (filter (fun c => c <= n) (citations_of papers))).

(** ** analyzer.py: the windows of the burst detector *)

(** The records with a year of [window] that hold the keyword [k]. *)
Definition window_records (window : list Z) (k : string)
    (papers : list paper) : list paper :=
  filter (fun p => has_year p /\ default 0 (year p) ∈ window
                   /\ k ∈ yearly_source p) papers.

(** ** analyzer.py: the topic clusterer *)

(** What the co-occurrence table holds behind every word: distinct valid
    words other than the word itself. *)
Definition related_ok (valid : list string)
    (c : list (string * list (string * Z))) : Prop :=
  forall w, NoDup (dict_get w [] c).*1
            /\ (w ∉ (dict_get w [] c).*1)
            /\ forall x, x ∈ (dict_get w [] c).*1 -> x ∈ valid.

(** ** analyzer.py: the evidence counted by the gap miner *)

(** The number of times [kw] is listed as a keyword, over all records and
    with the repetitions inside one record. *)
Definition keyword_occurrences (kw : string) (papers : list paper) : Z :=
  sum_Z (map (fun p => occurrences kw (citation_keywords p)) papers).

(** The citations of the records that list [kw], one term for each time it
    is listed. *)
Definition keyword_citation_total (kw : string) (papers : list paper) : Z :=
  sum_Z (map (fun p => occurrences kw (citation_keywords p)
                       * default 0 (citations p)) papers).

(** The words that one record adds to a theme counter. *)
Definition theme_words (field : paper -> option string) (p : paper)
  : list string :=
  if truthy_str (field p)
  then filter (fun w => (4 < String.length w)%nat)
              (split (lower (default EmptyString (field p))))
  else [].

Definition theme_occurrences (field : paper -> option string) (w : string)
    (papers : list paper) : Z :=
  sum_Z (map (fun p => occurrences w (theme_words field p)) papers).

(** ** text_processor.py: n-grams *)

(** [extract_ngrams(text, n)] for [n >= 0]; [tokens[i:i+n]] is
    [take n (drop i tokens)]. *)
Definition extract_ngrams (text : string) (n : nat) : list string :=
  let tokens := _tokenize text in
  if decide (length tokens < n)%nat then []
  else map (fun i => join " " (take n (drop i tokens)))
           (seq 0 (length tokens - n + 1)).

(** The characters that [re.sub(r'[^\w\s\-]', '', s)] keeps. *)
Definition keyword_char (c : ascii) : bool :=
  is_word c || is_space c || bool_decide (c = "-"%char).

(** The first character of a token. *)
Definition starts_lower (t : string) : bool :=
  match t with
  | String c _ => is_lower c
  | EmptyString => false
  end.

(** ** text_processor.py: what [process_papers] writes *)

(** The keys that [_process_single_paper] assigns in the copy of a
    record. *)
Definition written_keys : list string :=
  ["title_clean"; "abstract_clean"; "abstract_tokens"; "abstract_keywords";
   "limitations"; "future_research"; "keywords_normalized"; "all_keywords";
   "year"].

(** [hoare P m Q]: run from a store that satisfies [P], the computation
    [m], when it returns [a], leaves a store that satisfies [Q a]. *)
Definition hoare {A} (P : heap -> Prop) (m : M A) (Q : A -> heap -> Prop)
  : Prop :=
  forall h, P h -> forall a h', m h = (Ok a, h') -> Q a h'.

(** [keeps I m]: the computation [m] keeps the property [I] of the store,
    whether it returns or raises. *)
Definition keeps {A} (I : heap -> Prop) (m : M A) : Prop :=
  forall h, I h -> I (m h).2.

(** The object at [out] is a copy of the dictionary [d] that differs from
    it on written keys only and has the keys [present]. *)
Definition copy_of (d : gmap string pyval) (out : loc)
    (present : list string) (h : heap) : Prop :=
  exists d', h !! out = Some (ODict d')
             /\ (forall k, k ∉ written_keys -> d' !! k = d !! k)
             /\ Forall (fun k => is_Some (d' !! k)) present.

(** In the store [h] the value [out] is the processed copy of the record
    [inp]. *)
Definition processed_from (h : heap) (inp out : pyval) : Prop :=
  exists i o d,
    inp = VRef i /\ out = VRef o /\ h !! i = Some (ODict d)
    /\ copy_of d o ["all_keywords"; "keywords_normalized"] h.

(** Every dictionary of [h] is in [h'] as it is. *)
Definition dicts_kept (h h' : heap) : Prop :=
  forall l d, h !! l = Some (ODict d) -> h' !! l = Some (ODict d).

(** Properties of the store that a new object does not disturb. *)
Definition alloc_stable (I : heap -> Prop) : Prop :=
  forall h l o, I h -> l ∉ dom h -> I (<[l := o]> h).

(** ** text_processor.py: [get_text_stats] *)

(** A record as [get_text_stats] reads it: the value behind the key
    [abstract] beside the keys that the analyzer reads. *)
Record text_record : Type := {
  abstract : option string;
  record : paper
}.

(** The dictionary [stats] and the list [abstract_lengths] during the loop;
    the set [unique_tokens] is the list of the tokens put into it. *)
Record stats_state : Type := {
  st_with_abstract : Z;
  st_with_keywords : Z;
  st_total_tokens : Z;
  st_unique_tokens : list string;
  st_abstract_lengths : list Z;
  st_keyword_freq : list (string * Z)
}.

(** The dictionary returned by [get_text_stats]. *)
Record text_stats : Type := {
  total_papers : Z;
  papers_with_abstract : Z;
  papers_with_keywords : Z;
  total_tokens : Z;
  unique_tokens : Z;
  avg_abstract_length : pynum;
  keyword_freq : list (string * Z)
}.

(** The body of the loop over [papers]. *)
Definition stats_step (st : stats_state) (p : text_record) : stats_state :=
  let st :=
    if truthy_str (abstract p)
    then
      let tokens := default [] (abstract_tokens (record p)) in
      {| st_with_abstract := st_with_abstract st + 1;
         st_with_keywords := st_with_keywords st;
         st_total_tokens := st_total_tokens st + Z.of_nat (length tokens);
         st_unique_tokens := st_unique_tokens st ++ tokens;
         st_abstract_lengths :=
           st_abstract_lengths st
           ++ [Z.of_nat (String.length (default EmptyString (abstract p)))];
         st_keyword_freq := st_keyword_freq st |}
    else st in
  if truthy_list (keywords (record p)) || truthy_list (all_keywords (record p))
  then
    let kws := match all_keywords (record p) with
               | Some kws => kws
               | None => default [] (keywords (record p))
               end in
    {| st_with_abstract := st_with_abstract st;
       st_with_keywords := st_with_keywords st + 1;
       st_total_tokens := st_total_tokens st;
       st_unique_tokens := st_unique_tokens st;
       st_abstract_lengths := st_abstract_lengths st;
       st_keyword_freq := counter_update kws (st_keyword_freq st) |}
  else st.

Definition stats_start : stats_state :=
  {| st_with_abstract := 0; st_with_keywords := 0; st_total_tokens := 0;
     st_unique_tokens := []; st_abstract_lengths := [];
     st_keyword_freq := [] |}.

Definition get_text_stats (papers : list text_record) : text_stats :=
  let st := foldl stats_step stats_start papers in
  {| total_papers := Z.of_nat (length papers);
     papers_with_abstract := st_with_abstract st;
     papers_with_keywords := st_with_keywords st;
     total_tokens := st_total_tokens st;
     unique_tokens := Z.of_nat (length (remove_dups (st_unique_tokens st)));
     avg_abstract_length :=
       match st_abstract_lengths st with
       | [] => PyInt 0
       | lengths => py_truediv (sum_Z lengths) (Z.of_nat (length lengths))
       end;
     keyword_freq := st_keyword_freq st |}.

(** ** Further sample data *)

(** A record with a citation count only. *)
Definition cited_paper (c : Z) : paper :=
  {| year := None; all_keywords := None; keywords_normalized := None;
     keywords := None; abstract_tokens := None; limitations := None;
     future_research := None; citations := Some c |}.

Definition cited_papers : list paper :=
  [cited_paper 3; cited_paper 10; cited_paper 1].

(** ** text_processor.py: [_clean_text] *)

(** The number of characters before the first [>] of [s]. *)
Fixpoint close_index (s : string) : option nat :=
  match s with
  | EmptyString => None
  | String c s' =>
      if bool_decide (c = ">"%char) then Some O else S <$> close_index s'
  end.

(** [re.sub(r'<[^>]+>', ' ', s)]: a [<] starts a match when it is followed
    by at least one character other than [>] and then by a [>]; [skip]
    counts the characters of the match in progress. *)
Fixpoint remove_tags_from (skip : nat) (s : string) : string :=
  match s with
  | EmptyString => EmptyString
  | String c s' =>
      match skip with
      | S k => remove_tags_from k s'
      | O =>
          if bool_decide (c = "<"%char)
          then match close_index s' with
               | Some (S n) => String " " (remove_tags_from (S (S n)) s')
               | _ => String c (remove_tags_from 0 s')
               end
          else String c (remove_tags_from 0 s')
      end
  end.

(** The double quote. *)
Definition double_quote : ascii := ascii_of_nat 34.

(** The punctuation that [_clean_text] keeps: the full stop, the comma, the
    semicolon, the colon, the hyphen and the two quotes. *)
Definition is_basic_punctuation (c : ascii) : bool :=
  bool_decide (c ∈ ["."; ","; ";"; ":"; "-"; "'"]%char)
  || bool_decide (c = double_quote).

(** The second substitution of [_clean_text]: a space for every character
    that is not a word character, whitespace or kept punctuation. *)
Fixpoint blank_special (s : string) : string :=
  match s with
  | EmptyString => EmptyString
  | String c s' =>
      String (if is_word c || is_space c || is_basic_punctuation c
              then c else " "%char)
             (blank_special s')
  end.

(** [re.sub(r'\s+', ' ', s)]; [in_run] tells whether the character before
    was whitespace. *)
Fixpoint collapse_spaces (in_run : bool) (s : string) : string :=
  match s with
  | EmptyString => EmptyString
  | String c s' =>
      if is_space c
      then (if in_run then collapse_spaces true s'
            else String " " (collapse_spaces true s'))
      else String c (collapse_spaces false s')
  end.

(** [re.sub(r'copyright.*?(?=\.|$)', '', s, flags=re.IGNORECASE)] on text
    without line breaks: from each occurrence of the word, in any case, the
    text up to the next full stop, or to the end, is removed. *)
Fixpoint remove_copyright (deleting : bool) (s : string) : string :=
  match s with
  | EmptyString => EmptyString
  | String c s' =>
      if deleting
      then (if bool_decide (c = "."%char)
            then String c (remove_copyright false s')
            else remove_copyright true s')
      else if String.prefix "copyright" (lower s)
           then remove_copyright true s'
           else String c (remove_copyright false s')
  end.

(** [_clean_text] on ASCII text, on which the substitution of the copyright
    sign finds nothing. *)
Definition clean_text (text : string) : string :=
  match text with
  | EmptyString => EmptyString
  | _ =>
      strip (remove_copyright false
               (collapse_spaces false
                  (blank_special (remove_tags_from 0 text))))
  end.

(** The characters of cleaned text. *)
Definition clean_char (c : ascii) : bool :=
  is_word c || bool_decide (c = " "%char) || is_basic_punctuation c.

(** [contains w s]: the string [w] occurs in [s]. *)
Fixpoint contains (w s : string) : bool :=
  String.prefix w s
  || match s with
     | EmptyString => false
     | String _ s' => contains w s'
     end.

(** No two spaces in a row; [after_space] tells whether the character
    before was a space. *)
Fixpoint single_spaced (after_space : bool) (s : string) : bool :=
  match s with
  | EmptyString => true
  | String c s' =>
      if bool_decide (c = " "%char)
      then negb after_space && single_spaced true s'
      else single_spaced false s'
  end.

(** The first character, if any, is not whitespace. *)
Definition starts_clean (s : string) : bool :=
  match s with
  | EmptyString => true
  | String c _ => negb (is_space c)
  end.

(** * Properties *)

(** ** Facts about the runtime model *)

(** *** Stable sorting *)

Lemma insert_by_perm {A} (lt : A -> A -> bool) x l :
  insert_by lt x l ≡ₚ x :: l.
Proof.
  induction l as [|y l IH]; simpl; [done|].
  destruct (lt y x); [|done].
  rewrite IH. apply Permutation_swap.
Qed.

Lemma sorted_by_perm {A} (lt : A -> A -> bool) l : sorted_by lt l ≡ₚ l.
Proof.
  induction l as [|x l IH]; simpl; [done|].
  rewrite insert_by_perm. by rewrite IH.
Qed.

Lemma sorted_by_elem {A} (lt : A -> A -> bool) l x :
  x ∈ sorted_by lt l <-> x ∈ l.
Proof. by rewrite sorted_by_perm. Qed.

Lemma sorted_by_length {A} (lt : A -> A -> bool) l :
  length (sorted_by lt l) = length l.
Proof. by rewrite sorted_by_perm. Qed.

Lemma sorted_by_NoDup {A} (lt : A -> A -> bool) l :
  NoDup l -> NoDup (sorted_by lt l).
Proof. by rewrite sorted_by_perm. Qed.

(** The result of the sort is ordered whenever "not greater" is total and
    transitive. *)
Section SortedBy.
Context {A : Type} (lt : A -> A -> bool).
Hypothesis lt_asym : forall a b, lt a b = true -> lt b a = false.
Hypothesis le_trans :
  forall a b c, lt b a = false -> lt c b = false -> lt c a = false.

Lemma insert_by_sorted x l :
  StronglySorted (fun a b => lt b a = false) l ->
  StronglySorted (fun a b => lt b a = false) (insert_by lt x l).
Proof using lt_asym le_trans.
  induction 1 as [|y l Hs IH Hy]; simpl.
  - repeat constructor.
  - destruct (lt y x) eqn:E.
    + constructor; [done|].
      rewrite Forall_forall in Hy |- *. intros z Hz.
      rewrite insert_by_perm in Hz.
      apply elem_of_cons in Hz as [->|Hz]; [by apply lt_asym|].
      by apply Hy.
    + constructor; [by constructor|].
      constructor; [done|].
      rewrite Forall_forall in Hy |- *. intros z Hz.
      eapply le_trans; [exact E|]. by apply Hy.
Qed.

Lemma sorted_by_sorted l :
  StronglySorted (fun a b => lt b a = false) (sorted_by lt l).
Proof using lt_asym le_trans.
  induction l; simpl; [constructor|by apply insert_by_sorted].
Qed.
End SortedBy.

Lemma StronglySorted_weaken {A} (R S : A -> A -> Prop) l :
  (forall a b, R a b -> S a b) -> StronglySorted R l -> StronglySorted S l.
Proof.
  intros HRS. induction 1 as [|x l Hs IH Hx]; constructor; [done|].
  eapply Forall_impl; [exact Hx|]. intros b. apply HRS.
Qed.

(** *** Counters *)

Section CounterFacts.
Context {K : Type} `{EqDecision K}.
Implicit Types (c : list (K * Z)) (k : K).

Lemma counter_get_add k k' n c :
  counter_get k (counter_add k' n c)
  = counter_get k c + (if decide (k = k') then n else 0).
Proof.
  induction c as [|[k0 m] c IH]; simpl.
  - repeat case_decide; lia.
  - destruct (decide (k' = k0)) as [->|]; simpl.
    + repeat case_decide; simplify_eq; lia.
    + rewrite IH. repeat case_decide; simplify_eq; lia.
Qed.

Lemma counter_add_keys k n c :
  (counter_add k n c).*1 = if decide (k ∈ c.*1) then c.*1 else c.*1 ++ [k].
Proof.
  induction c as [|[k0 m] c IH].
  - rewrite decide_False by set_solver. done.
  - cbn [counter_add]. destruct (decide (k = k0)) as [->|Hne].
    + rewrite decide_True by set_solver. done.
    + rewrite fmap_cons, IH.
      destruct (decide (k ∈ c.*1)).
      * rewrite decide_True by set_solver. done.
      * rewrite decide_False by set_solver. done.
Qed.

Lemma counter_add_NoDup k n c : NoDup c.*1 -> NoDup (counter_add k n c).*1.
Proof.
  intros Hc. rewrite counter_add_keys. case_decide; [done|].
  apply NoDup_app. split_and!; [done|set_solver|apply NoDup_singleton].
Qed.

Lemma counter_add_elem_keys k k' n c :
  k ∈ (counter_add k' n c).*1 <-> k = k' \/ k ∈ c.*1.
Proof. rewrite counter_add_keys. case_decide; set_solver. Qed.

Lemma counter_update_NoDup ks c :
  NoDup c.*1 -> NoDup (counter_update ks c).*1.
Proof.
  revert c. induction ks as [|k ks IH]; intros c Hc; simpl; [done|].
  apply IH. by apply counter_add_NoDup.
Qed.

Lemma counter_update_elem_keys k ks c :
  k ∈ (counter_update ks c).*1 <-> k ∈ ks \/ k ∈ c.*1.
Proof.
  revert c. induction ks as [|k0 ks IH]; intros c; simpl; [set_solver|].
  rewrite IH, counter_add_elem_keys. set_solver.
Qed.

(** Each occurrence in the iterable adds one. *)
Lemma counter_get_update k ks c :
  counter_get k (counter_update ks c)
  = counter_get k c + Z.of_nat (length (filter (k =.) ks)).
Proof.
  unfold counter_update.
  revert c. induction ks as [|k0 ks IH]; intros c; cbn [foldl].
  - rewrite filter_nil. simpl. lia.
  - rewrite IH, counter_get_add, filter_cons.
    repeat case_decide; simplify_eq; rewrite ?length_cons; lia.
Qed.

Lemma counter_update_map_NoDup (m : list (K * Z)) c :
  NoDup c.*1 -> NoDup (counter_update_map m c).*1.
Proof.
  revert c. induction m as [|k0 m IH]; intros c Hc; simpl; [done|].
  apply IH. by apply counter_add_NoDup.
Qed.

Lemma counter_update_map_elem_keys k (m : list (K * Z)) c :
  k ∈ (counter_update_map m c).*1 <-> k ∈ m.*1 \/ k ∈ c.*1.
Proof.
  revert c. induction m as [|k0 m IH]; intros c; simpl; [set_solver|].
  rewrite IH, counter_add_elem_keys. set_solver.
Qed.

(** With distinct keys, [c.get(k, 0)] reads the pair of [k]. *)
Lemma counter_get_elem k n c :
  NoDup c.*1 -> (k, n) ∈ c -> counter_get k c = n.
Proof.
  induction c as [|[k0 m] c IH]; simpl; intros Hnd Hin; [set_solver|].
  apply NoDup_cons in Hnd as [Hk0 Hnd].
  apply elem_of_cons in Hin as [Heq|Hin].
  - simplify_eq. by rewrite decide_True.
  - case_decide as E; [|by apply IH].
    subst. exfalso. apply Hk0. apply list_elem_of_fmap. by exists (k0, n).
Qed.

Lemma counter_get_notin k c : k ∉ c.*1 -> counter_get k c = 0.
Proof.
  induction c as [|[k0 m] c IH]; simpl; intros Hk; [done|].
  case_decide; [set_solver|]. apply IH. set_solver.
Qed.

Lemma counter_elem_get k c : k ∈ c.*1 -> (k, counter_get k c) ∈ c.
Proof.
  induction c as [|[k0 m] c IH]; simpl; intros Hk; [set_solver|].
  case_decide; [subst; left|].
  right. apply IH. set_solver.
Qed.

Lemma counter_get_perm k c c' :
  NoDup c.*1 -> c ≡ₚ c' -> counter_get k c = counter_get k c'.
Proof.
  intros Hnd Hp.
  assert (NoDup c'.*1) as Hnd' by (by rewrite <- Hp).
  destruct (decide (k ∈ c.*1)) as [Hk|Hk].
  - apply counter_elem_get in Hk. symmetry. apply counter_get_elem; [done|].
    by rewrite <- Hp.
  - rewrite (counter_get_notin k c) by done.
    rewrite counter_get_notin; [done|]. by rewrite <- Hp.
Qed.

Lemma most_common_perm c : most_common c ≡ₚ c.
Proof. apply sorted_by_perm. Qed.

Lemma most_common_get k c :
  NoDup c.*1 -> counter_get k (most_common c) = counter_get k c.
Proof.
  intros Hnd. symmetry. apply counter_get_perm; [done|].
  by rewrite most_common_perm.
Qed.

Lemma most_common_NoDup c : NoDup c.*1 -> NoDup (most_common c).*1.
Proof. intros Hnd. by rewrite most_common_perm. Qed.
End CounterFacts.

(** *** Ordered dictionaries *)

Section DictFacts.
Context {K V : Type} `{EqDecision K}.
Implicit Types (d : list (K * V)) (k : K).

Lemma dict_alter_keys (f : V -> V) dflt k d :
  (dict_alter f dflt k d).*1 = if decide (k ∈ d.*1) then d.*1 else d.*1 ++ [k].
Proof.
  induction d as [|[k0 m] d IH].
  - rewrite decide_False by set_solver. done.
  - cbn [dict_alter]. destruct (decide (k = k0)) as [->|Hne].
    + rewrite decide_True by set_solver. done.
    + rewrite fmap_cons, IH.
      destruct (decide (k ∈ d.*1)).
      * rewrite decide_True by set_solver. done.
      * rewrite decide_False by set_solver. done.
Qed.

Lemma dict_alter_NoDup (f : V -> V) dflt k d :
  NoDup d.*1 -> NoDup (dict_alter f dflt k d).*1.
Proof.
  intros Hc. rewrite dict_alter_keys. case_decide; [done|].
  apply NoDup_app. split_and!; [done|set_solver|apply NoDup_singleton].
Qed.

Lemma dict_alter_elem_keys (f : V -> V) dflt k k' d :
  k ∈ (dict_alter f dflt k' d).*1 <-> k = k' \/ k ∈ d.*1.
Proof. rewrite dict_alter_keys. case_decide; set_solver. Qed.

Lemma dict_get_alter (f : V -> V) dflt k k' d :
  dict_get k dflt (dict_alter f dflt k' d)
  = if decide (k = k') then f (dict_get k dflt d) else dict_get k dflt d.
Proof.
  induction d as [|[k0 m] d IH]; simpl.
  - by repeat case_decide.
  - destruct (decide (k' = k0)) as [->|]; simpl.
    + repeat case_decide; by simplify_eq.
    + rewrite IH. repeat case_decide; by simplify_eq.
Qed.

Lemma dict_alter_Forall (P : V -> Prop) (f : V -> V) dflt k d :
  Forall (fun kv => P kv.2) d -> P (f dflt) -> (forall v, P v -> P (f v)) ->
  Forall (fun kv => P kv.2) (dict_alter f dflt k d).
Proof.
  intros Hd Hdflt Hf. induction Hd as [|[k0 v] d Hv Hd IH]; cbn [dict_alter].
  - by repeat constructor.
  - case_decide; constructor; try done. by apply Hf.
Qed.
End DictFacts.

(** *** Sets *)

Lemma set_iter_pair `{SetOrder} a b :
  a <> b -> set_iter [a; b] = [a; b] \/ set_iter [a; b] = [b; a].
Proof.
  intros Hab. apply Permutation_length_2_inv.
  symmetry. apply NoDup_Permutation.
  - apply set_iter_NoDup.
  - apply NoDup_cons. split; [set_solver|apply NoDup_singleton].
  - intros x. apply set_iter_elem.
Qed.

Lemma filter_eq_notin {A} `{EqDecision A} (k : A) l :
  k ∉ l -> filter (k =.) l = [].
Proof.
  induction l as [|x l IH]; intros Hk; [done|].
  rewrite filter_cons_False by set_solver. apply IH. set_solver.
Qed.

Lemma filter_eq_NoDup {A} `{EqDecision A} (k : A) l :
  NoDup l -> k ∈ l -> filter (k =.) l = [k].
Proof.
  induction 1 as [|x l Hx Hnd IH]; intros Hk; [set_solver|].
  destruct (decide (k = x)) as [->|Hne].
  - rewrite filter_cons_True by done. by rewrite filter_eq_notin.
  - rewrite filter_cons_False by done. apply IH. set_solver.
Qed.

Lemma set_iter_count `{SetOrder} (k : string) l :
  length (filter (k =.) (set_iter l)) = if decide (k ∈ l) then 1%nat else 0%nat.
Proof.
  case_decide as Hk.
  - rewrite filter_eq_NoDup; [done|apply set_iter_NoDup|by apply set_iter_elem].
  - rewrite filter_eq_notin; [done|]. by rewrite set_iter_elem.
Qed.

(** ** The per-year table *)

Section YearlyFacts.
Context `{SetOrder}.

Lemma yearly_counter_keys_from (papers : list paper) t0 :
  NoDup t0.*1 ->
  let t := foldl (fun t p =>
             if truthy_int (year p)
             then dict_alter (counter_update (set_iter (yearly_source p))) []
                    (default 0 (year p)) t
             else t) t0 papers in
  NoDup t.*1 /\ forall y, y ∈ t.*1 -> y ∈ t0.*1 \/ y ∈ known_years papers.
Proof.
  revert t0. induction papers as [|p papers IH]; intros t0 Hnd; cbn [foldl].
  - split; [done|]. intros y Hy. by left.
  - destruct (truthy_int (year p)) eqn:E.
    + destruct (IH (dict_alter (counter_update (set_iter (yearly_source p))) []
                     (default 0 (year p)) t0)) as [IH1 IH2].
      { by apply dict_alter_NoDup. }
      split; [done|]. intros y Hy.
      destruct (IH2 y Hy) as [Hy'|Hy'].
      * apply dict_alter_elem_keys in Hy' as [->|Hy']; [|by left].
        right. unfold known_years. cbn [omap list_omap]. rewrite E.
        destruct (year p); [left|done].
      * right. unfold known_years. cbn [omap list_omap]. rewrite E.
        destruct (year p); [by right|done].
    + destruct (IH t0 Hnd) as [IH1 IH2]. split; [done|].
      intros y Hy. destruct (IH2 y Hy) as [Hy'|Hy']; [by left|].
      right. unfold known_years. cbn [omap list_omap]. by rewrite E.
Qed.

Lemma yearly_counter_keys_NoDup papers : NoDup (yearly_counter papers).*1.
Proof. apply (yearly_counter_keys_from papers []). constructor. Qed.

Lemma yearly_counter_keys_known papers y :
  y ∈ (yearly_counter papers).*1 -> y ∈ known_years papers.
Proof.
  intros Hy. destruct (yearly_counter_keys_from papers []) as [_ Hk];
    [constructor|].
  destruct (Hk y Hy) as [Hn|]; [|done]. by apply elem_of_nil in Hn.
Qed.

Lemma analyze_keywords_by_year_length papers :
  length (analyze_keywords_by_year papers) = length (yearly_counter papers).
Proof.
  unfold analyze_keywords_by_year.
  by rewrite length_map, sorted_by_length, length_map.
Qed.

Lemma analyze_keywords_by_year_keys papers :
  (analyze_keywords_by_year papers).*1
  = sorted_by Z.ltb (yearly_counter papers).*1.
Proof.
  unfold analyze_keywords_by_year. rewrite <- list_fmap_compose.
  apply list_fmap_id.
Qed.

Lemma yearly_table_length_known papers :
  (length (analyze_keywords_by_year papers)
   <= length (remove_dups (known_years papers)))%nat.
Proof.
  rewrite analyze_keywords_by_year_length.
  rewrite <- (length_fmap fst (yearly_counter papers)).
  apply submseteq_length, NoDup_submseteq; [apply yearly_counter_keys_NoDup|].
  intros y Hy. apply elem_of_remove_dups. by apply yearly_counter_keys_known.
Qed.
End YearlyFacts.

(** ** The burst detector *)

(** C3.  When the per-year table has fewer than two years, and so whenever
    the records have fewer than two distinct known years (all records of one
    year, or no record with a year), [detect_burst_words] returns the empty
    list. *)
Theorem detect_burst_words_few_years `{SetOrder} (papers : list paper) :
  (length (analyze_keywords_by_year papers) < 2)%nat
  \/ (length (remove_dups (known_years papers)) < 2)%nat ->
  detect_burst_words papers = [].
Proof.
  intros Hfew.
  assert (length (analyze_keywords_by_year papers) < 2)%nat as Hlen.
  { destruct Hfew as [Hl|Hl]; [done|].
    pose proof (yearly_table_length_known papers). lia. }
  unfold detect_burst_words. by rewrite decide_True.
Qed.

Lemma detect_burst_words_few_years_witness :
  @detect_burst_words last_seen_order
    [keyword_paper 2024 ["ai"; "tourism"]; keyword_paper 2024 ["vr"];
     bare_paper] = [].
Proof.
  apply (@detect_burst_words_few_years last_seen_order).
  right. vm_compute. lia.
Defined.

(** *** The three-record scenario *)

(** What the detector computes on the scenario, under every iteration order
    of the keyword sets. *)
Lemma scenario_run `{SetOrder} :
  recent_years scenario_papers = [2023; 2025]
  /\ earlier_years scenario_papers = [2023]
  /\ counter_get "vr" (recent_keywords scenario_papers) = 1
  /\ counter_get "vr" (earlier_keywords scenario_papers) = 0
  /\ counter_get "tourism" (recent_keywords scenario_papers) = 2
  /\ counter_get "tourism" (earlier_keywords scenario_papers) = 1
  /\ detect_burst_words scenario_papers
     = [ {| burst_keyword := "tourism"; recent_freq := 2; earlier_freq := 1;
            growth_rate := PyFloat (Fin 1); is_new := false;
            trend := "rising" |};
         {| burst_keyword := "vr"; recent_freq := 1; earlier_freq := 0;
            growth_rate := PyInt 1; is_new := true; trend := "rising" |} ].
Proof.
  destruct (set_iter_pair "ai" "tourism") as [E1|E1]; [done| |];
  destruct (set_iter_pair "ai" "satisfaction") as [E2|E2]; try done;
  destruct (set_iter_pair "vr" "tourism") as [E3|E3]; try done;
  unfold detect_burst_words, burst_candidates, recent_keywords,
    earlier_keywords, window_keywords, recent_years, earlier_years,
    burst_years, analyze_keywords_by_year, yearly_counter, scenario_papers,
    yearly_source;
  cbn [foldl keyword_paper year all_keywords truthy_int truthy_list list_of
       from_option id keywords Z.eqb negb];
  rewrite E1, E2, E3; vm_compute; repeat split; reflexivity.
Qed.

(** C1, as amended.  On the scenario the last two years of the table are
    2023 and 2025, so both are recent, and 2023 is also the earlier window.
    The keyword vr is new with a recent count of 1 and the raw count 1 as
    growth value; tourism has an earlier count of 1 and a recent count of 2,
    hence growth 1; the returned list is the tourism entry followed by the
    vr entry. *)
Theorem burst_scenario `{SetOrder} :
  recent_years scenario_papers = [2023; 2025]
  /\ earlier_years scenario_papers = [2023]
  /\ counter_get "vr" (recent_keywords scenario_papers) = 1
  /\ counter_get "vr" (earlier_keywords scenario_papers) = 0
  /\ computed_growth 1 0 = PyInt 1
  /\ counter_get "tourism" (recent_keywords scenario_papers) = 2
  /\ counter_get "tourism" (earlier_keywords scenario_papers) = 1
  /\ computed_growth 2 1 = PyFloat (Fin 1)
  /\ detect_burst_words scenario_papers
     = [ {| burst_keyword := "tourism"; recent_freq := 2; earlier_freq := 1;
            growth_rate := PyFloat (Fin 1); is_new := false;
            trend := "rising" |};
         {| burst_keyword := "vr"; recent_freq := 1; earlier_freq := 0;
            growth_rate := PyInt 1; is_new := true; trend := "rising" |} ].
Proof.
  destruct scenario_run as (Hr & He & Hv1 & Hv0 & Ht2 & Ht1 & Hout).
  repeat split; try done.
Qed.

(** C1 as stated fails in each of its parts that differ from the above, and
    under every iteration order: 2025 is not the only recent year, tourism
    has neither an earlier count of 2 nor a recent count of 0, and neither
    vr nor tourism is left out of the result. *)
Lemma burst_scenario_as_stated_fails :
  ~ exists so : SetOrder,
      @recent_years so scenario_papers = [2025]
      \/ counter_get "tourism" (@earlier_keywords so scenario_papers) = 2
      \/ counter_get "tourism" (@recent_keywords so scenario_papers) = 0
      \/ (forall e, e ∈ @detect_burst_words so scenario_papers ->
                    burst_keyword e <> "vr")
      \/ (forall e, e ∈ @detect_burst_words so scenario_papers ->
                    burst_keyword e <> "tourism").
Proof.
  intros [so Hclaim].
  destruct (@scenario_run so) as (Hr & He & Hv1 & Hv0 & Ht2 & Ht1 & Hout).
  rewrite Hr, Ht1, Ht2, Hout in Hclaim.
  destruct Hclaim as [Hc|[Hc|[Hc|[Hc|Hc]]]]; try discriminate.
  - eapply (Hc (burst_entry "vr" 1 0)); [|reflexivity]. right. left.
  - eapply (Hc (burst_entry "tourism" 2 1)); [|reflexivity]. left.
Qed.

(** *** Numbers *)

Lemma Qle_bool_false x y : Qle_bool x y = false <-> (y < x)%Q.
Proof.
  rewrite <- not_true_iff_false, Qle_bool_iff. split; [apply Qnot_le_lt|apply Qlt_not_le].
Qed.

Lemma Qeq_bool_false x y : Qeq_bool x y = false <-> ~ (x == y)%Q.
Proof. by rewrite <- not_true_iff_false, Qeq_bool_iff. Qed.

(** Turns the boolean comparisons of the context into facts on [Q] and
    decides the goal by linear arithmetic. *)
Ltac float_cases :=
  repeat match goal with f : pyfloat |- _ => destruct f end;
  cbn [float_ltb float_eqb float_neg] in *;
  rewrite ?negb_true_iff, ?negb_false_iff in *;
  repeat match goal with
    | H : Qle_bool _ _ = true |- _ => apply Qle_bool_iff in H
    | H : Qle_bool _ _ = false |- _ => apply Qle_bool_false in H
    | H : Qeq_bool _ _ = true |- _ => apply Qeq_bool_iff in H
    | H : Qeq_bool _ _ = false |- _ => apply Qeq_bool_false in H
    | |- Qle_bool _ _ = true => apply Qle_bool_iff
    | |- Qle_bool _ _ = false => apply Qle_bool_false
    | |- Qeq_bool _ _ = true => apply Qeq_bool_iff
    | |- Qeq_bool _ _ = false => apply Qeq_bool_false
    end;
  try done; try lra.

Lemma float_ltb_asym a b : float_ltb a b = true -> float_ltb b a = false.
Proof. intros. float_cases. Qed.

Lemma float_ltb_eqb a b : float_eqb a b = true -> float_ltb a b = false.
Proof. intros. float_cases. Qed.

Lemma float_eqb_sym a b : float_eqb a b = float_eqb b a.
Proof.
  destruct (float_eqb a b) eqn:E1, (float_eqb b a) eqn:E2; try done; float_cases.
Qed.

Lemma float_eqb_trans a b c :
  float_eqb a b = true -> float_eqb b c = true -> float_eqb a c = true.
Proof. intros. float_cases. Qed.

Lemma float_ltb_trans a b c :
  float_ltb a b = true -> float_ltb b c = true -> float_ltb a c = true.
Proof. intros. float_cases. Qed.

Lemma float_total a b :
  float_ltb a b = false -> float_eqb a b = false -> float_ltb b a = true.
Proof. intros. float_cases. Qed.

Lemma float_ltb_eqb_l a b c :
  float_eqb a b = true -> float_ltb a c = float_ltb b c.
Proof.
  intros. destruct (float_ltb a c) eqn:E1, (float_ltb b c) eqn:E2; try done; float_cases.
Qed.

Lemma float_ltb_eqb_r a b c :
  float_eqb a b = true -> float_ltb c a = float_ltb c b.
Proof.
  intros. destruct (float_ltb c a) eqn:E1, (float_ltb c b) eqn:E2; try done; float_cases.
Qed.

Lemma num_neg_ltb a b : num_ltb (num_neg a) (num_neg b) = num_ltb b a.
Proof.
  unfold num_ltb.
  destruct a as [x|x], b as [y|y]; cbn [num_neg to_float];
    rewrite ?inject_Z_opp;
    match goal with |- ?l = ?r => destruct l eqn:E1, r eqn:E2 end;
    try done; float_cases.
Qed.

Lemma num_neg_eqb a b : num_eqb (num_neg a) (num_neg b) = num_eqb a b.
Proof.
  unfold num_eqb.
  destruct a as [x|x], b as [y|y]; cbn [num_neg to_float];
    rewrite ?inject_Z_opp;
    match goal with |- ?l = ?r => destruct l eqn:E1, r eqn:E2 end;
    try done; float_cases.
Qed.

(** *** The order of the sort key *)

Lemma burst_key_ltb_asym a b :
  burst_key_ltb a b = true -> burst_key_ltb b a = false.
Proof.
  unfold burst_key_ltb, num_eqb, num_ltb.
  generalize (to_float (num_neg (growth_rate a))) as fa.
  generalize (to_float (num_neg (growth_rate b))) as fb.
  intros fb fa. rewrite (float_eqb_sym fb fa).
  destruct (float_eqb fa fb) eqn:E.
  - intros Hlt. apply Z.ltb_lt in Hlt. apply Z.ltb_ge. lia.
  - apply float_ltb_asym.
Qed.

Lemma burst_key_le_trans a b c :
  burst_key_ltb b a = false -> burst_key_ltb c b = false ->
  burst_key_ltb c a = false.
Proof.
  unfold burst_key_ltb, num_eqb, num_ltb.
  generalize (to_float (num_neg (growth_rate a))) as fa.
  generalize (to_float (num_neg (growth_rate b))) as fb.
  generalize (to_float (num_neg (growth_rate c))) as fc.
  intros fc fb fa.
  destruct (float_eqb fb fa) eqn:Eba, (float_eqb fc fb) eqn:Ecb.
  - rewrite (float_eqb_trans fc fb fa) by done.
    rewrite !Z.ltb_ge. lia.
  - intros _ Hcb.
    assert (float_eqb fc fa = false) as ->.
    { destruct (float_eqb fc fa) eqn:E; [|done].
      exfalso. clear -Eba Ecb E. float_cases. }
    by rewrite <- (float_ltb_eqb_r fb fa fc).
  - intros Hba _.
    assert (float_eqb fc fa = false) as ->.
    { destruct (float_eqb fc fa) eqn:E; [|done].
      exfalso. clear -Eba Ecb E. float_cases. }
    by rewrite (float_ltb_eqb_l fc fb fa).
  - intros Hba Hcb.
    pose proof (float_total _ _ Hba Eba) as Hab.
    pose proof (float_total _ _ Hcb Ecb) as Hbc.
    pose proof (float_ltb_trans _ _ _ Hab Hbc) as Hac.
    rewrite (float_ltb_asym _ _ Hac).
    destruct (float_eqb fc fa) eqn:E; [|done].
    rewrite float_eqb_sym in E. by rewrite (float_ltb_eqb _ _ E) in Hac.
Qed.

Lemma burst_key_before a b : burst_key_ltb b a = false -> burst_before a b.
Proof.
  unfold burst_key_ltb, burst_before.
  rewrite num_neg_eqb, num_neg_ltb. unfold num_eqb, num_ltb.
  rewrite (float_eqb_sym (to_float (growth_rate b))).
  destruct (float_eqb _ _) eqn:E.
  - rewrite Z.ltb_ge. intros Hr. right. split; [done|lia].
  - intros Hlt. left. by apply float_total.
Qed.

Lemma burst_kept_iff recent earlier :
  burst_kept recent earlier = true
  <-> num_ltb (PyFloat (Fin (1 # 2))) (computed_growth recent earlier) = true
      \/ (earlier = 0 /\ 3 <= recent).
Proof.
  unfold burst_kept.
  rewrite orb_true_iff, andb_true_iff, !bool_decide_eq_true. tauto.
Qed.

Lemma burst_entry_new_growth kw recent :
  growth_rate (burst_entry kw recent 0)
  = if decide (3 <= recent) then PyFloat (Fin 10) else PyInt recent.
Proof.
  unfold burst_entry, computed_growth. cbn [growth_rate].
  rewrite decide_True by done. by case_decide.
Qed.

Section BurstFacts.
Context `{SetOrder}.

Lemma burst_candidates_elem papers e :
  e ∈ burst_candidates papers
  <-> exists kw rf,
        (kw, rf) ∈ recent_keywords papers
        /\ e = burst_entry kw rf (counter_get kw (earlier_keywords papers))
        /\ burst_kept rf (counter_get kw (earlier_keywords papers)) = true.
Proof.
  unfold burst_candidates. rewrite list_elem_of_omap. split.
  - intros [[kw rf] [Hin Hf]]. exists kw, rf. cbn [fst snd] in Hf.
    destruct (burst_kept _ _) eqn:E; [|done]. by simplify_eq.
  - intros (kw & rf & Hin & -> & Hk). exists (kw, rf). split; [done|].
    cbn [fst snd]. by rewrite Hk.
Qed.

Lemma detect_burst_words_elem papers e :
  e ∈ detect_burst_words papers
  <-> (2 <= length (analyze_keywords_by_year papers))%nat
      /\ e ∈ burst_candidates papers.
Proof.
  unfold detect_burst_words. case_decide as Hlen.
  - split; [by intros ?%elem_of_nil|]. intros [? _]. lia.
  - rewrite sorted_by_elem. split; [|by intros [_ ?]]. intros ?. split; [lia|done].
Qed.
End BurstFacts.

(** C2.  In the list returned by [detect_burst_words]: an entry of a new
    keyword (earlier count 0) reports the growth 10.0 when its recent count
    is at least 3 and the raw integer recent count otherwise; the entries
    are those of the keywords of the recent window whose computed growth
    exceeds 0.5 or that are new with a recent count of at least 3; and the
    list is in descending order of growth, ties in descending order of
    recent count. *)
Theorem detect_burst_words_rule `{SetOrder} (papers : list paper) :
  (forall e, e ∈ detect_burst_words papers -> earlier_freq e = 0 ->
     growth_rate e
     = if decide (3 <= recent_freq e) then PyFloat (Fin 10)
       else PyInt (recent_freq e))
  /\ (forall e, e ∈ detect_burst_words papers
      <-> (2 <= length (analyze_keywords_by_year papers))%nat
          /\ exists kw rf,
               let ef := counter_get kw (earlier_keywords papers) in
               (kw, rf) ∈ recent_keywords papers
               /\ e = burst_entry kw rf ef
               /\ (num_ltb (PyFloat (Fin (1 # 2))) (computed_growth rf ef) = true
                   \/ (ef = 0 /\ 3 <= rf)))
  /\ StronglySorted burst_before (detect_burst_words papers).
Proof.
  split_and!.
  - intros e He Hnew.
    apply detect_burst_words_elem in He as [_ He].
    apply burst_candidates_elem in He as (kw & rf & _ & -> & _).
    cbn [earlier_freq burst_entry] in Hnew. rewrite Hnew.
    apply burst_entry_new_growth.
  - intros e. rewrite detect_burst_words_elem, burst_candidates_elem.
    setoid_rewrite burst_kept_iff. done.
  - unfold detect_burst_words. case_decide; [constructor|].
    eapply StronglySorted_weaken;
      [|apply sorted_by_sorted;
        [apply burst_key_ltb_asym|apply burst_key_le_trans]].
    intros a b. apply burst_key_before.
Qed.

(** ** Aggregate and per-year keyword tables *)

Lemma set_iter_single `{SetOrder} a : set_iter [a] = [a].
Proof.
  pose proof (set_iter_NoDup [a]) as Hnd.
  pose proof (set_iter_elem [a]) as Hel.
  destruct (set_iter [a]) as [|x [|y l]].
  - specialize (Hel a). set_solver.
  - f_equal. specialize (Hel x). set_solver.
  - exfalso. apply NoDup_cons in Hnd as [Hx _].
    pose proof (Hel x) as Hx'. pose proof (Hel y) as Hy'. set_solver.
Qed.

Section TableFacts.
Context `{SetOrder}.

Lemma keyword_counter_from papers (c0 : list (string * Z)) k :
  NoDup c0.*1 ->
  let c := foldl (fun c p => counter_update (set_iter (aggregate_source p)) c)
                 c0 papers in
  NoDup c.*1
  /\ counter_get k c
     = counter_get k c0
       + Z.of_nat (length (filter (fun p => k ∈ aggregate_source p) papers)).
Proof.
  revert c0. induction papers as [|p papers IH]; intros c0 Hnd; cbn [foldl].
  - split; [done|]. rewrite filter_nil. simpl. lia.
  - destruct (IH (counter_update (set_iter (aggregate_source p)) c0)) as [IH1 IH2].
    { by apply counter_update_NoDup. }
    split; [done|]. cbv zeta in IH2. rewrite IH2, counter_get_update, set_iter_count.
    rewrite filter_cons. repeat case_decide; try done; rewrite ?length_cons; lia.
Qed.

(** The aggregate count of a keyword is the number of records whose
    keyword source holds it. *)
Lemma analyze_keywords_get papers k :
  counter_get k (analyze_keywords papers)
  = Z.of_nat (length (filter (fun p => k ∈ aggregate_source p) papers)).
Proof.
  unfold analyze_keywords.
  destruct (keyword_counter_from papers [] k) as [Hnd Hget]; [constructor|].
  rewrite most_common_get by done. unfold keyword_counter. rewrite Hget.
  simpl. lia.
Qed.

Lemma yearly_total_alter k ks y (t : list (Z * list (string * Z))) :
  yearly_total k (dict_alter (counter_update ks) [] y t)
  = yearly_total k t + Z.of_nat (length (filter (k =.) ks)).
Proof.
  induction t as [|[y0 c] t IH]; cbn [dict_alter].
  - cbn [yearly_total foldr snd]. rewrite counter_get_update. simpl. lia.
  - case_decide.
    + cbn [yearly_total foldr snd]. rewrite counter_get_update. lia.
    + cbn [yearly_total foldr snd]. fold (yearly_total k (dict_alter (counter_update ks) [] y t)).
      fold (yearly_total k t). rewrite IH. lia.
Qed.

Lemma yearly_counter_from papers (t0 : list (Z * list (string * Z))) k :
  Forall (fun yc => NoDup yc.2.*1) t0 ->
  let t := foldl (fun t p =>
             if truthy_int (year p)
             then dict_alter (counter_update (set_iter (yearly_source p))) []
                    (default 0 (year p)) t
             else t) t0 papers in
  Forall (fun yc => NoDup yc.2.*1) t
  /\ yearly_total k t
     = yearly_total k t0
       + Z.of_nat (length (filter (fun p => has_year p /\ k ∈ yearly_source p)
                                  papers)).
Proof.
  revert t0. induction papers as [|p papers IH]; intros t0 Hnd; cbn [foldl].
  - split; [done|]. rewrite filter_nil. simpl. lia.
  - destruct (truthy_int (year p)) eqn:E.
    + assert (has_year p) as Hy by exact E.
      destruct (IH (dict_alter (counter_update (set_iter (yearly_source p))) []
                     (default 0 (year p)) t0)) as [IH1 IH2].
      { apply (dict_alter_Forall (fun c : list (string * Z) => NoDup c.*1));
          [done| |].
        - apply counter_update_NoDup. constructor.
        - intros c. apply counter_update_NoDup. }
      split; [done|]. cbv zeta in IH2.
      rewrite IH2, yearly_total_alter, set_iter_count, filter_cons.
      repeat case_decide; try tauto; rewrite ?length_cons; lia.
    + assert (~ has_year p) as Hy by (unfold has_year; by rewrite E).
      destruct (IH t0 Hnd) as [IH1 IH2]. split; [done|].
      cbv zeta in IH2. rewrite IH2, filter_cons.
      case_decide as Hc; [by destruct Hc|done].
Qed.

Lemma yearly_total_perm k (t t' : list (Z * list (string * Z))) :
  t ≡ₚ t' -> yearly_total k t = yearly_total k t'.
Proof.
  unfold yearly_total.
  induction 1 as [|x l l' Hp IH|x y l|l l' l'' Hp1 IH1 Hp2 IH2].
  - done.
  - cbn [foldr]. by rewrite IH.
  - cbn [foldr]. lia.
  - by rewrite IH1.
Qed.

Lemma yearly_total_most_common k (t : list (Z * list (string * Z))) ys :
  Forall (fun yc => NoDup yc.2.*1) t ->
  yearly_total k (map (fun y => (y, most_common (dict_get y [] t))) ys)
  = yearly_total k (map (fun y => (y, dict_get y [] t)) ys).
Proof.
  intros Hnd. unfold yearly_total. induction ys as [|y ys IH]; [done|].
  cbn [map foldr snd] in *. rewrite IH. f_equal.
  apply most_common_get.
  clear IH. induction Hnd as [|[y0 c] t Hc Ht IHt]; cbn [dict_get].
  - constructor.
  - by case_decide.
Qed.

Lemma yearly_total_keys k (t : list (Z * list (string * Z))) :
  NoDup t.*1 ->
  yearly_total k (map (fun y => (y, dict_get y [] t)) t.*1) = yearly_total k t.
Proof.
  induction t as [|[y0 c] t IH]; intros Hnd; [done|].
  rewrite fmap_cons in Hnd. apply NoDup_cons in Hnd as [Hy0 Hnd].
  rewrite fmap_cons. unfold yearly_total in *.
  cbn [map fst foldr snd dict_get].
  rewrite decide_True by done. f_equal.
  rewrite <- (IH Hnd). f_equal.
  apply map_ext_in. intros y Hy%list_elem_of_In.
  rewrite decide_False; [done|]. intros ->. done.
Qed.

Lemma yearly_total_by_year papers k :
  yearly_total k (analyze_keywords_by_year papers)
  = Z.of_nat (length (filter (fun p => has_year p /\ k ∈ yearly_source p)
                             papers)).
Proof.
  destruct (yearly_counter_from papers [] k) as [Hnd Hget]; [constructor|].
  fold (yearly_counter papers) in Hnd, Hget. cbv zeta in Hget.
  unfold analyze_keywords_by_year. cbv zeta.
  rewrite yearly_total_most_common by done.
  rewrite (yearly_total_perm k _
             (map (fun y => (y, dict_get y [] (yearly_counter papers)))
                  (yearly_counter papers).*1)).
  - rewrite yearly_total_keys by apply yearly_counter_keys_NoDup.
    rewrite Hget. simpl. lia.
  - apply Permutation_map, sorted_by_perm.
Qed.

(** The per-year table skips the records without a year, which the
    aggregate table counts. *)
Lemma analyze_keywords_by_year_skips papers :
  analyze_keywords_by_year papers
  = analyze_keywords_by_year (filter has_year papers).
Proof.
  unfold analyze_keywords_by_year. cbv zeta.
  assert (yearly_counter papers = yearly_counter (filter has_year papers))
    as ->; [|done].
  unfold yearly_counter. generalize (@nil (Z * list (string * Z))) as t0.
  induction papers as [|p papers IH]; intros t0; [done|].
  rewrite filter_cons.
  destruct (decide (has_year p)) as [Hy|Hy]; cbn [foldl].
  - apply IH.
  - apply not_true_is_false in Hy. rewrite Hy. apply IH.
Qed.

(** Where the two tables read the same keywords from every record with a
    year, the per-year counts of a keyword add up to its aggregate count
    over the records with a year. *)
Lemma yearly_total_aggregate papers k :
  (forall p, p ∈ papers -> has_year p -> yearly_source p = aggregate_source p) ->
  yearly_total k (analyze_keywords_by_year papers)
  = counter_get k (analyze_keywords (filter has_year papers)).
Proof.
  intros Hsame. rewrite yearly_total_by_year, analyze_keywords_get.
  f_equal. f_equal. clear -Hsame.
  induction papers as [|p papers IH]; [done|].
  rewrite !filter_cons.
  assert (forall q, q ∈ papers -> has_year q ->
                    yearly_source q = aggregate_source q) as Hsame'.
  { intros q Hq. apply Hsame. by right. }
  specialize (IH Hsame').
  destruct (decide (has_year p)) as [Hy|Hy].
  - rewrite filter_cons, <- (Hsame p) by (done || left).
    repeat case_decide; try tauto; by rewrite IH.
  - rewrite decide_False by tauto. done.
Qed.
End TableFacts.

(** Outside the records that [process_papers] returns the two tables can
    read different keys: on a record with a year whose [all_keywords] is
    missing and whose [keywords_normalized] is not, the aggregate table
    counts the normalised keyword and the per-year table the lower-cased raw
    keyword. *)
Lemma yearly_total_misses_normalized `{SetOrder} :
  has_year unmerged_paper
  /\ counter_get "ai" (analyze_keywords (filter has_year [unmerged_paper])) = 1
  /\ yearly_total "ai" (analyze_keywords_by_year [unmerged_paper]) = 0
  /\ analyze_keywords_by_year [unmerged_paper]
     = [(2023, [("artificial intelligence", 1)])].
Proof.
  split_and!.
  - reflexivity.
  - rewrite analyze_keywords_get. vm_compute. reflexivity.
  - rewrite yearly_total_by_year. vm_compute. reflexivity.
  - unfold analyze_keywords_by_year, yearly_counter, unmerged_paper,
      yearly_source.
    cbn [foldl year all_keywords keywords truthy_int truthy_list list_of
         from_option id Z.eqb negb map lower].
    rewrite set_iter_single. vm_compute. reflexivity.
Qed.

(** On a record of [process_papers] both tables read the same keywords. *)
Lemma merged_same_source p : merged p -> yearly_source p = aggregate_source p.
Proof.
  unfold merged, yearly_source, aggregate_source.
  destruct (all_keywords p) as [[|k kws]|]; [|done|done].
  intros Hsub. cbn [truthy_list].
  destruct (keywords_normalized p) as [[|k l]|]; [done| |done].
  cbn [list_of default] in Hsub. exfalso.
  apply (not_elem_of_nil k), Hsub. left.
Qed.

Lemma analyze_keywords_split `{SetOrder} papers k :
  counter_get k (analyze_keywords papers)
  = counter_get k (analyze_keywords (filter has_year papers))
    + counter_get k (analyze_keywords (filter (fun p => ~ has_year p) papers)).
Proof.
  rewrite !analyze_keywords_get.
  induction papers as [|p papers IH]; [done|].
  rewrite !filter_cons.
  destruct (decide (has_year p)) as [Hy|Hy].
  - rewrite (decide_False (P := ~ has_year p)) by tauto.
    rewrite filter_cons. case_decide; rewrite ?length_cons; lia.
  - rewrite (decide_True (P := ~ has_year p)) by done.
    rewrite filter_cons. case_decide; rewrite ?length_cons; lia.
Qed.

(** C4.  For every collection of records as [process_papers] returns them
    and every keyword, the per-year counts of the keyword in the tables of
    [analyze_keywords_by_year] add up to its count in the table of
    [analyze_keywords] over the records with a known year.  The records
    without a year are in no per-year table, the per-year tables being
    those of the records with a year, and they are counted in the aggregate
    table, whose count is the count over the records with a year plus the
    count over the records without. *)
Theorem yearly_total_of_merged `{SetOrder} (papers : list paper) (k : string) :
  Forall merged papers ->
  yearly_total k (analyze_keywords_by_year papers)
  = counter_get k (analyze_keywords (filter has_year papers))
  /\ analyze_keywords_by_year papers
     = analyze_keywords_by_year (filter has_year papers)
  /\ counter_get k (analyze_keywords papers)
     = counter_get k (analyze_keywords (filter has_year papers))
       + counter_get k (analyze_keywords
                          (filter (fun p => ~ has_year p) papers)).
Proof.
  intros Hmerged. split_and!.
  - apply yearly_total_aggregate. intros p Hp _.
    rewrite Forall_forall in Hmerged. by apply merged_same_source, Hmerged.
  - apply analyze_keywords_by_year_skips.
  - apply analyze_keywords_split.
Qed.

Lemma yearly_total_of_merged_witness :
  let papers := scenario_papers ++ [undated_paper ["ai"]] in
  yearly_total "ai" (@analyze_keywords_by_year last_seen_order papers)
  = counter_get "ai" (@analyze_keywords last_seen_order
                        (filter has_year papers))
  /\ @analyze_keywords_by_year last_seen_order papers
     = @analyze_keywords_by_year last_seen_order (filter has_year papers)
  /\ counter_get "ai" (@analyze_keywords last_seen_order papers)
     = counter_get "ai" (@analyze_keywords last_seen_order
                           (filter has_year papers))
       + counter_get "ai" (@analyze_keywords last_seen_order
                             (filter (fun p => ~ has_year p) papers)).
Proof.
  cbv zeta.
  apply (@yearly_total_of_merged last_seen_order
           (scenario_papers ++ [undated_paper ["ai"]]) "ai").
  apply (bool_decide_unpack _). vm_compute. exact I.
Defined.

(** ** The co-occurrence network *)

Lemma StronglySorted_take {A} (R : A -> A -> Prop) n l :
  StronglySorted R l -> StronglySorted R (take n l).
Proof.
  intros Hs. revert n. induction Hs as [|x l Hs IH Hx]; intros [|n]; simpl;
    try constructor; [apply IH|].
  apply Forall_take. done.
Qed.

(** *** Pairs of keywords *)

Lemma string_ltb_asym a b : String.ltb a b = true -> String.ltb b a = false.
Proof.
  unfold String.ltb. rewrite (String.compare_antisym a b).
  by destruct (String.compare b a).
Qed.

Lemma string_ltb_total a b :
  a <> b -> String.ltb a b = false -> String.ltb b a = true.
Proof.
  unfold String.ltb. rewrite (String.compare_antisym a b).
  destruct (String.compare b a) eqn:E; try done.
  intros Hne. by apply String.compare_eq_iff in E.
Qed.

Lemma sorted_pair_canonical a b : a <> b -> canonical_pair (sorted_pair a b).
Proof.
  intros Hab. unfold sorted_pair, canonical_pair.
  destruct (String.ltb b a) eqn:E; cbn [fst snd].
  - split; [done|]. by apply string_ltb_asym.
  - done.
Qed.

Lemma sorted_pair_eq a b s t :
  canonical_pair (s, t) ->
  sorted_pair a b = (s, t) <-> (a = s /\ b = t) \/ (a = t /\ b = s).
Proof.
  intros [Hne Hlt]. cbn [fst snd] in *. unfold sorted_pair. split.
  - destruct (String.ltb b a); intros ?; simplify_eq; tauto.
  - intros [[-> ->]|[-> ->]].
    + by rewrite Hlt.
    + by rewrite (string_ltb_total t s).
Qed.

Lemma occurrences_cons {A} `{EqDecision A} (k x : A) l :
  occurrences k (x :: l) = (if decide (k = x) then 1 else 0) + occurrences k l.
Proof.
  unfold occurrences. rewrite filter_cons. case_decide; rewrite ?length_cons; lia.
Qed.

Lemma occurrences_app {A} `{EqDecision A} (k : A) l1 l2 :
  occurrences k (l1 ++ l2) = occurrences k l1 + occurrences k l2.
Proof. unfold occurrences. rewrite filter_app, length_app. lia. Qed.

Lemma occurrences_NoDup {A} `{EqDecision A} (k : A) l :
  NoDup l -> occurrences k l = if decide (k ∈ l) then 1 else 0.
Proof.
  intros Hnd. unfold occurrences. case_decide.
  - by rewrite filter_eq_NoDup.
  - by rewrite filter_eq_notin.
Qed.

Lemma occurrences_sorted_pair x l s t :
  canonical_pair (s, t) ->
  occurrences (s, t) (map (sorted_pair x) l)
  = (if decide (s = x) then occurrences t l else 0)
    + (if decide (t = x) then occurrences s l else 0).
Proof.
  intros Hc. induction l as [|y l IH]; cbn [map].
  - unfold occurrences. simpl. repeat case_decide; lia.
  - rewrite !occurrences_cons, IH.
    pose proof (sorted_pair_eq x y s t Hc) as Heq.
    destruct Hc as [Hne _]. cbn [fst snd] in Hne.
    destruct (decide ((s, t) = sorted_pair x y)) as [E|E].
    + symmetry in E. apply Heq in E as [[-> ->]|[-> ->]].
      * rewrite !(decide_True (P := s = s)), !(decide_True (P := t = t)) by done.
        rewrite !(decide_False (P := t = s)) by done. lia.
      * rewrite !(decide_True (P := s = s)), !(decide_True (P := t = t)) by done.
        rewrite !(decide_False (P := s = t)) by done. lia.
    + assert (~ (x = s /\ y = t)) as N1.
      { intros ?. apply E. symmetry. apply Heq. tauto. }
      assert (~ (x = t /\ y = s)) as N2.
      { intros ?. apply E. symmetry. apply Heq. tauto. }
      repeat case_decide; subst; try lia; tauto.
Qed.

(** Each pair of positions of [l] holding [s] and [t] is met once. *)
Lemma occurrences_pairs_of l s t :
  canonical_pair (s, t) ->
  occurrences (s, t) (pairs_of l) = occurrences s l * occurrences t l.
Proof.
  intros Hc. induction l as [|x l IH]; cbn [pairs_of].
  - unfold occurrences. simpl. lia.
  - rewrite occurrences_app, occurrences_sorted_pair, IH, !occurrences_cons
      by done.
    destruct Hc as [Hne _]. cbn [fst snd] in Hne.
    repeat case_decide; simplify_eq; lia.
Qed.

Lemma pairs_of_canonical l st :
  NoDup l -> st ∈ pairs_of l -> canonical_pair st.
Proof.
  induction 1 as [|x l Hx Hnd IH]; cbn [pairs_of]; [by intros ?%elem_of_nil|].
  rewrite elem_of_app. intros [Hin|Hin]; [|by apply IH].
  apply list_elem_of_fmap in Hin as (y & -> & Hy).
  apply sorted_pair_canonical. by intros ->.
Qed.

Section CooccurrenceFacts.
Context `{SetOrder}.

Lemma occurrences_restricted top p s t :
  canonical_pair (s, t) ->
  occurrences (s, t) (pairs_of (set_inter_iter (yearly_source p) top))
  = if decide ((s ∈ yearly_source p /\ s ∈ top)
               /\ (t ∈ yearly_source p /\ t ∈ top)) then 1 else 0.
Proof.
  intros Hc. rewrite occurrences_pairs_of by done.
  rewrite !occurrences_NoDup by apply set_inter_iter_NoDup.
  pose proof (set_inter_iter_elem (yearly_source p) top s).
  pose proof (set_inter_iter_elem (yearly_source p) top t).
  repeat case_decide; try lia; tauto.
Qed.

Lemma cooccurrence_from top papers (c0 : list (string * string * Z)) :
  NoDup c0.*1 ->
  let c := foldl (fun c p =>
             counter_update
               (pairs_of (set_inter_iter (yearly_source p) top)) c)
             c0 papers in
  NoDup c.*1
  /\ (forall st, st ∈ c.*1 -> st ∈ c0.*1 \/ canonical_pair st)
  /\ (forall s t, canonical_pair (s, t) ->
        counter_get (s, t) c
        = counter_get (s, t) c0
          + Z.of_nat (length (records_with_both top s t papers))).
Proof.
  revert c0. induction papers as [|p papers IH]; intros c0 Hnd; cbn [foldl].
  - split_and!; [done|by left|].
    intros s t _. unfold records_with_both. rewrite filter_nil. simpl. lia.
  - destruct (IH (counter_update
                    (pairs_of (set_inter_iter (yearly_source p) top)) c0))
      as (IH1 & IH2 & IH3).
    { by apply counter_update_NoDup. }
    split_and!; [done| |].
    + intros st Hst. destruct (IH2 st Hst) as [Hin|Hcan]; [|by right].
      apply counter_update_elem_keys in Hin as [Hin|Hin]; [|by left].
      right. eapply pairs_of_canonical; [|exact Hin].
      apply set_inter_iter_NoDup.
    + intros s t Hc. rewrite (IH3 s t Hc), counter_get_update.
      fold (occurrences (s, t)
              (pairs_of (set_inter_iter (yearly_source p) top))).
      rewrite occurrences_restricted by done.
      unfold records_with_both. rewrite filter_cons.
      repeat case_decide; try tauto; rewrite ?length_cons; lia.
Qed.

Lemma cooccurrence_weight top_n papers st w :
  (st, w) ∈ cooccurrence top_n papers ->
  canonical_pair st
  /\ w = Z.of_nat (length (records_with_both (top_keywords top_n papers)
                             st.1 st.2 papers)).
Proof.
  intros Hin.
  destruct (cooccurrence_from (top_keywords top_n papers) papers [])
    as (Hnd & Hcan & Hget); [constructor|].
  fold (restricted_keywords top_n papers) in Hnd, Hcan, Hget.
  change (foldl _ [] papers) with (cooccurrence top_n papers) in Hnd, Hcan, Hget.
  assert (canonical_pair st) as Hc.
  { destruct (Hcan st) as [Hn|]; [|by apply elem_of_nil in Hn|done].
    apply list_elem_of_fmap. by exists (st, w). }
  split; [done|]. destruct st as [s t].
  rewrite <- (counter_get_elem (s, t) w (cooccurrence top_n papers)) by done.
  rewrite (Hget s t Hc). simpl. lia.
Qed.
End CooccurrenceFacts.

(** C5.  In the graph returned by [build_cooccurrence_network], whose nodes
    are the top keywords: the weight of every edge is the number of records
    whose keyword set, restricted to the node set, holds both endpoints; no
    edge has a weight below 2; the edges are in descending order of weight;
    and there are at most 200 of them. *)
Theorem cooccurrence_network_edges `{SetOrder} (papers : list paper)
    (top_n : nat) :
  let g := build_cooccurrence_network papers top_n in
  map node_id (nodes g) = top_keywords top_n papers
  /\ (forall e, e ∈ edges g ->
        weight e
        = Z.of_nat (length (records_with_both (top_keywords top_n papers)
                              (source e) (target e) papers)))
  /\ (forall e, e ∈ edges g -> 2 <= weight e)
  /\ StronglySorted (fun a b => weight b <= weight a) (edges g)
  /\ (length (edges g) <= 200)%nat.
Proof.
  cbv zeta. unfold build_cooccurrence_network. cbn [nodes edges].
  assert (forall e,
    e ∈ take 200 (sorted_by (fun a b => - weight a <? - weight b)
        (omap (fun pw : string * string * Z =>
                 if decide (2 <= pw.2)
                 then Some {| source := pw.1.1; target := pw.1.2;
                              weight := pw.2 |}
                 else None) (cooccurrence top_n papers))) ->
    exists st w, (st, w) ∈ cooccurrence top_n papers /\ 2 <= w
                 /\ e = {| source := st.1; target := st.2; weight := w |})
    as Hedge.
  { intros e He. apply (subseteq_take 200), sorted_by_elem in He.
    apply list_elem_of_omap in He as ([st w] & Hin & Hf). cbn [fst snd] in Hf.
    case_decide; [|done]. exists st, w. by simplify_eq. }
  split_and!.
  - rewrite map_map. apply map_id.
  - intros e (st & w & Hin & _ & ->)%Hedge. cbn [weight source target].
    by apply cooccurrence_weight.
  - by intros e (st & w & _ & Hw & ->)%Hedge.
  - apply StronglySorted_take.
    eapply StronglySorted_weaken; [|apply sorted_by_sorted].
    + intros a b Hab. apply Z.ltb_ge in Hab. lia.
    + intros a b. rewrite Z.ltb_lt, Z.ltb_ge. lia.
    + intros a b c. rewrite !Z.ltb_ge. lia.
  - rewrite length_take. lia.
Qed.

(** ** The topic clusterer *)

Lemma pairwise_disjoint_snoc ls l :
  pairwise_disjoint ls ->
  (forall l' w, l' ∈ ls -> w ∈ l' -> w ∉ l) ->
  pairwise_disjoint (ls ++ [l]).
Proof.
  intros Hd Hnew i j l1 l2 w Hij Hi Hj Hw1 Hw2.
  apply lookup_snoc_Some in Hi as [[Hi1 Hi2]|[Hi1 Hi2]];
  apply lookup_snoc_Some in Hj as [[Hj1 Hj2]|[Hj1 Hj2]]; simplify_eq.
  - by apply (Hd i j l1 l2 w).
  - apply (Hnew l1 w); [|done..]. by eapply list_elem_of_lookup_2.
  - apply (Hnew l2 w); [|done..]. by eapply list_elem_of_lookup_2.
Qed.

(** The inner loop extends the list it starts from with unused words of
    [related], up to 15 words. *)
Lemma grow_topic_from (used : list string) related (tw0 : list string) :
  let tw := foldl (fun topic_words (wc : string * Z) =>
              if decide ((wc.1 ∉ used) /\ (length topic_words < 15)%nat)
              then topic_words ++ [wc.1] else topic_words) tw0 related in
  exists ext,
    tw = tw0 ++ ext
    /\ Forall (fun w => (w ∉ used) /\ w ∈ related.*1) ext
    /\ (length tw <= Nat.max (length tw0) 15)%nat.
Proof.
  revert tw0. induction related as [|[w c] related IH]; intros tw0; cbn [foldl].
  - exists []. rewrite app_nil_r. split_and!; [done|constructor|lia].
  - cbn [fst]. case_decide as Hc.
    + destruct (IH (tw0 ++ [w])) as (ext & Heq & Hext & Hlen).
      exists (w :: ext). cbv zeta in *. split_and!.
      * by rewrite Heq, <- app_assoc.
      * constructor; [split; [tauto|left]|].
        eapply Forall_impl; [exact Hext|]. intros x [? ?]. split; [done|].
        rewrite fmap_cons. by right.
      * rewrite length_app in Hlen. simpl in Hlen. lia.
    + destruct (IH tw0) as (ext & Heq & Hext & Hlen).
      exists ext. cbv zeta in *. split_and!; [done| |done].
      eapply Forall_impl; [exact Hext|]. intros x [? ?]. split; [done|].
      rewrite fmap_cons. by right.
Qed.

Lemma grow_topic_spec (used : list string) seed related :
  exists rest,
    grow_topic used seed related = seed :: rest
    /\ Forall (fun w => (w ∉ used) /\ w ∈ related.*1) rest
    /\ (length (grow_topic used seed related) <= 15)%nat.
Proof.
  destruct (grow_topic_from used related [seed]) as (ext & Heq & Hext & Hlen).
  exists ext. unfold grow_topic. split_and!; [done..|].
  cbv zeta in Hlen. simpl in Hlen. lia.
Qed.

Section ClusterFacts.
Context `{SetOrder} `{FloatArith}.

Lemma cluster_invariant n_topics documents seeds used topics :
  (forall s, s ∈ seeds -> s ∈ seed_words documents) ->
  (forall t w, t ∈ topics -> w ∈ topic_keywords t -> w ∈ used) ->
  pairwise_disjoint (map topic_keywords topics) ->
  Forall (seeded_topic documents) topics ->
  let out := cluster n_topics documents seeds used topics in
  pairwise_disjoint (map topic_keywords out)
  /\ Forall (seeded_topic documents) out.
Proof.
  revert used topics.
  induction seeds as [|seed seeds IH]; intros used topics Hseeds Hused Hdis Hgood;
    cbn [cluster]; [done|].
  assert (forall s, s ∈ seeds -> s ∈ seed_words documents) as Hseeds'.
  { intros s Hs. apply Hseeds. by right. }
  destruct (decide (seed ∈ used)) as [Hin|Hnin]; [by apply IH|].
  case_decide; [done|]. cbv zeta.
  destruct (grow_topic_spec used seed
              (most_common_n 20
                 (dict_get seed [] (word_cooccurrence documents))))
    as (rest & Heq & Hrest & Hlen).
  case_decide as H3; [|by apply IH].
  apply IH; [done| | |].
  - intros t w Ht Hw. apply elem_of_app.
    apply elem_of_app in Ht as [Ht|Ht]; [left; by eapply Hused|].
    apply list_elem_of_singleton in Ht as ->. by right.
  - rewrite map_app. cbn [map topic_keywords].
    apply pairwise_disjoint_snoc; [done|].
    intros l' w Hl' Hw. apply list_elem_of_fmap in Hl' as (t & -> & Ht).
    pose proof (Hused t w Ht Hw) as Hwu.
    rewrite Heq. intros [->|Hwr]%elem_of_cons; [done|].
    rewrite Forall_forall in Hrest. by destruct (Hrest w Hwr).
  - apply Forall_app. split; [done|]. constructor; [|constructor].
    split; cbn [topic_keywords]; [lia|].
    exists seed, rest. split_and!; [done|apply Hseeds; left|].
    eapply Forall_impl; [exact Hrest|]. by intros w [_ ?].
Qed.
End ClusterFacts.

(** C6.  In one run of [lda_topic_modeling] no keyword is in the keyword
    lists of two topics, and every topic has between 3 and 15 keywords, the
    first of which is its seed word. *)
Theorem lda_topics_disjoint `{SetOrder} `{FloatArith} (n_topics : Z)
    (papers : list paper) :
  let topics := lda_topic_modeling n_topics papers in
  pairwise_disjoint (map topic_keywords topics)
  /\ Forall (seeded_topic (documents_of papers)) topics.
Proof.
  unfold lda_topic_modeling. cbv zeta.
  apply (cluster_invariant n_topics (documents_of papers)
           (seed_words (documents_of papers)) [] []).
  - done.
  - by intros t w ?%elem_of_nil.
  - by intros i j l1 l2 w _ ?.
  - constructor.
Qed.

(** ** The gap miner *)

Lemma filter_all {A} (P : A -> Prop) `{forall x, Decision (P x)} l :
  Forall P l -> filter P l = l.
Proof.
  induction 1 as [|x l Hx Hl IH]; [done|].
  by rewrite filter_cons_True, IH.
Qed.

Lemma themes_no_text field papers :
  Forall (fun p => truthy_str (field p) = false) papers ->
  themes field papers = [].
Proof.
  intros Hno. unfold themes. generalize (@nil (string * Z)) as c0.
  induction Hno as [|p papers Hp Hps IH]; intros c0; cbn [foldl]; [done|].
  rewrite Hp. apply IH.
Qed.

Lemma common_themes_no_text field papers :
  Forall (fun p => truthy_str (field p) = false) papers ->
  common_themes field papers = [].
Proof.
  intros Hno. unfold common_themes. by rewrite themes_no_text.
Qed.

Lemma citation_keyword_freq_keys papers k :
  k ∈ (citation_keyword_freq papers).*1 ->
  exists p, p ∈ papers /\ k ∈ citation_keywords p.
Proof.
  unfold citation_keyword_freq.
  assert (forall c0 : list (string * Z),
    k ∈ (foldl (fun c p => counter_update (citation_keywords p) c) c0 papers).*1 ->
    k ∈ c0.*1 \/ exists p, p ∈ papers /\ k ∈ citation_keywords p) as Hgen.
  { induction papers as [|p papers IH]; intros c0; cbn [foldl]; [by left|].
    intros Hk. destruct (IH _ Hk) as [Hk'|(q & Hq & Hkq)].
    - apply counter_update_elem_keys in Hk' as [Hk'|Hk']; [|by left].
      right. exists p. split; [left|done].
    - right. exists q. split; [by right|done]. }
  intros Hk. destruct (Hgen [] Hk) as [Hn|]; [|done].
  by apply elem_of_nil in Hn.
Qed.

Lemma sum_Z_zero (f : string -> Z) l :
  Forall (fun t => f t = 0) l -> sum_Z (map f l) = 0.
Proof.
  induction 1 as [|x l Hx Hl IH]; [done|].
  cbn [map sum_Z foldr]. fold (sum_Z (map f l)). lia.
Qed.

(** Where no technology term is a keyword, every term is a technology gap
    with no source. *)
Lemma technology_gap_untouched papers :
  Forall (fun p => Forall (.∉ emerging_tech) (citation_keywords p)) papers ->
  technology_gap papers = [untouched_technology_gap].
Proof.
  intros Hno.
  assert (Forall (fun t => counter_get t (citation_keyword_freq papers) = 0)
                 emerging_tech) as Hzero.
  { apply Forall_forall. intros t Ht. apply counter_get_notin.
    intros (p & Hp & Htp)%citation_keyword_freq_keys.
    rewrite Forall_forall in Hno. specialize (Hno p Hp).
    rewrite Forall_forall in Hno. by apply (Hno t). }
  unfold technology_gap, tech_gaps.
  rewrite filter_all.
  - unfold emerging_tech at 1. cbv zeta. unfold untouched_technology_gap.
    f_equal. f_equal. by apply sum_Z_zero.
  - eapply Forall_impl; [exact Hzero|]. intros t ->. lia.
Qed.

(** C8 as stated fails on the zero-record corpus and on a corpus of ten
    records without text and without keywords: the result is not empty. *)
Lemma no_evidence_as_stated_fails :
  identify_research_gaps [] <> []
  /\ identify_research_gaps (replicate 10 bare_paper) <> [].
Proof. split; vm_compute; discriminate. Qed.

(** C8, as amended.  On a corpus in which no record has limitations or
    future-research text, no keyword has a mean citation count above 10
    with a frequency below 5 over at least two records, and no technology
    term is a keyword, [identify_research_gaps] returns one gap, "Emerging
    Technology Applications", which lists the seven technology terms with a
    source count of 0. *)
Theorem no_evidence_technology_gap (papers : list paper) :
  Forall (fun p => truthy_str (limitations p) = false
                   /\ truthy_str (future_research p) = false) papers ->
  high_impact_low_freq papers = [] ->
  Forall (fun p => Forall (.∉ emerging_tech) (citation_keywords p)) papers ->
  identify_research_gaps papers = [untouched_technology_gap].
Proof.
  intros Htext Himpact Htech. unfold identify_research_gaps.
  unfold future_gap, limitation_gap, impact_gap. cbv zeta.
  rewrite !common_themes_no_text, Himpact.
  - by apply technology_gap_untouched.
  - eapply Forall_impl; [exact Htext|]. by intros p [? _].
  - eapply Forall_impl; [exact Htext|]. by intros p [_ ?].
Qed.

Lemma no_evidence_technology_gap_witness :
  identify_research_gaps (replicate 10 bare_paper) = [untouched_technology_gap]
  /\ identify_research_gaps [] = [untouched_technology_gap].
Proof.
  split.
  - apply (no_evidence_technology_gap (replicate 10 bare_paper)).
    + apply (bool_decide_unpack _). vm_compute. exact I.
    + vm_compute. reflexivity.
    + apply (bool_decide_unpack _). vm_compute. exact I.
  - apply (no_evidence_technology_gap []).
    + constructor.
    + vm_compute. reflexivity.
    + constructor.
Defined.

(** C9.  A word that occurs twice in the future-research excerpt of a
    single record, and in no other excerpt, is a keyword of the
    "Methodological Advancement" gap; the same holds for the limitations
    excerpt and the "Addressing Current Limitations" gap.  The counters
    count occurrences, not excerpts. *)
Theorem gap_counts_repeats_in_one_excerpt :
  common_themes future_research [repeated_future] = ["longitudinal"]
  /\ map (fun g => (gap_title g, gap_keywords g, source_count g))
         (identify_research_gaps [repeated_future])
     = [ ("Methodological Advancement", ["longitudinal"], 1);
         ("Emerging Technology Applications", emerging_tech, 0) ]
  /\ common_themes limitations [repeated_limitation] = ["sample"]
  /\ map (fun g => (gap_title g, gap_keywords g, source_count g))
         (identify_research_gaps [repeated_limitation])
     = [ ("Addressing Current Limitations", ["sample"], 1);
         ("Emerging Technology Applications", emerging_tech, 0) ].
Proof. split_and!; vm_compute; reflexivity. Qed.

(** The parts of the claim that hold: the keyword list of the gap is a
    prefix of at most 10 of the words that the 20 most common ones count at
    least twice, and the source count is the number of records with a
    non-empty excerpt. *)
Lemma future_gap_shape papers g :
  g ∈ future_gap papers ->
  gap_title g = "Methodological Advancement"
  /\ gap_keywords g = take 10 (common_themes future_research papers)
  /\ (length (gap_keywords g) <= 10)%nat
  /\ (forall w, w ∈ gap_keywords g ->
        exists c, (w, c) ∈ most_common_n 20 (themes future_research papers)
                  /\ 2 <= c)
  /\ source_count g
     = Z.of_nat (length (filter (fun p => truthy_str (future_research p) = true)
                                papers)).
Proof.
  unfold future_gap. cbv zeta.
  destruct (common_themes future_research papers) as [|w0 ws] eqn:E;
    [by intros ?%elem_of_nil|].
  intros ->%list_elem_of_singleton. cbn [gap_title gap_keywords source_count].
  split_and!; try done.
  - rewrite length_take. lia.
  - intros w Hw%(subseteq_take 10). rewrite <- E in Hw.
    apply list_elem_of_omap in Hw as ([w' c] & Hin & Hf). cbn [fst snd] in Hf.
    case_decide; [|done]. simplify_eq. by exists c.
Qed.

(** ** The tokenizer *)

(** *** Characters *)

Ltac all_chars c :=
  destruct c as [[] [] [] [] [] [] [] []]; vm_compute; try reflexivity;
  try discriminate; try tauto.

Lemma lower_char_not_upper c : is_upper (lower_char c) = false.
Proof. all_chars c. Qed.

Lemma in_class_not_upper c : in_class c = true -> is_upper c = false.
Proof. all_chars c. Qed.

Lemma is_word_in_class c :
  is_word c = true -> is_upper c = false -> in_class c = true.
Proof. all_chars c. Qed.

Lemma in_class_lower_char c : in_class c = true -> lower_char c = c.
Proof. all_chars c. Qed.

Lemma in_class_not_space c : in_class c = true -> c <> " "%char.
Proof. all_chars c. Qed.

Lemma is_lower_in_class c : is_lower c = true -> in_class c = true.
Proof. all_chars c. Qed.

Lemma is_lower_is_word c : is_lower c = true -> is_word c = true.
Proof. all_chars c. Qed.

(** *** Strings *)

Lemma str_all_app P s1 s2 :
  str_all P (s1 +:+ s2) = str_all P s1 && str_all P s2.
Proof.
  induction s1 as [|c s1 IH]; simpl; [done|]. rewrite IH. by rewrite andb_assoc.
Qed.

Lemma str_all_impl (P Q : ascii -> bool) s :
  (forall c, P c = true -> Q c = true) -> str_all P s = true -> str_all Q s = true.
Proof.
  intros HPQ. induction s as [|c s IH]; simpl; [done|].
  rewrite !andb_true_iff. intros [? ?]. split; [by apply HPQ|by apply IH].
Qed.

Lemma str_take_app u rest : str_take (String.length u) (u +:+ rest) = u.
Proof. induction u as [|c u IH]; simpl; [by destruct rest|by rewrite IH]. Qed.

Lemma no_upper_lower s : no_upper (lower s) = true.
Proof.
  induction s as [|c s IH]; simpl; [done|].
  unfold no_upper in *. simpl. by rewrite lower_char_not_upper, IH.
Qed.

Lemma no_upper_replace_from old new k s :
  no_upper new = true -> no_upper s = true ->
  no_upper (replace_from old new k s) = true.
Proof.
  intros Hnew. unfold no_upper in *. revert k.
  induction s as [|c s IH]; intros k; cbn [replace_from str_all]; [done|].
  rewrite andb_true_iff. intros [Hc Hs]. destruct k as [|k]; [|by apply IH].
  destruct (String.prefix old (String c s)).
  - rewrite str_all_app, Hnew. by apply IH.
  - cbn [str_all]. rewrite Hc. by apply IH.
Qed.

Lemma no_upper_replace_phrases s :
  no_upper s = true -> no_upper (replace_phrases s) = true.
Proof.
  unfold replace_phrases.
  assert (Forall (fun pr : string * string =>
                    no_upper (replace " " "_" pr.2) = true) phrase_mapping)
    as Htable.
  { apply (bool_decide_unpack _). vm_compute. exact I. }
  revert s. induction Htable as [|pr l Hpr Hl IH]; intros s Hs; cbn [foldl];
    [done|].
  apply IH. by apply no_upper_replace_from.
Qed.

(** *** The token pattern *)

(** After a word character, the pattern finds an end in lower-case text. *)
Lemma best_end_some last s :
  is_word last = true -> no_upper s = true -> is_Some (best_end last s).
Proof.
  revert last. induction s as [|c s IH]; intros last Hlast; cbn [best_end].
  - rewrite Hlast. by eexists.
  - unfold no_upper. cbn [str_all]. rewrite andb_true_iff, negb_true_iff.
    intros [Hc Hs]. rewrite Hlast.
    destruct (in_class c) eqn:Hcl.
    + destruct (best_end c s) as [k|] eqn:E; [by eexists|].
      destruct (is_word c) eqn:Hw; [|by eexists].
      destruct (IH c Hw Hs) as [k Hk]. congruence.
    + destruct (is_word c) eqn:Hw; [|by eexists].
      rewrite (is_word_in_class c Hw Hc) in Hcl. done.
Qed.

Lemma best_end_spec last s k :
  no_upper s = true -> best_end last s = Some k ->
  str_all in_class (str_take k s) = true
  /\ String.length (str_take k s) = k
  /\ is_word (str_last last (str_take k s)) = true.
Proof.
  revert last k. induction s as [|c s IH]; intros last k; cbn [best_end].
  - intros _. destruct (is_word last) eqn:Hl; [|done].
    intros [= <-]. by cbn.
  - unfold no_upper. cbn [str_all]. rewrite andb_true_iff, negb_true_iff.
    intros [Hc Hs].
    assert (xorb (is_word last) (is_word c) = true -> in_class c = false ->
            is_word last = true) as Hout.
    { intros Hx Hcl. destruct (is_word c) eqn:Hw.
      - by rewrite (is_word_in_class c Hw Hc) in Hcl.
      - by destruct (is_word last). }
    destruct (in_class c) eqn:Hcl.
    + destruct (best_end c s) as [k'|] eqn:E.
      * intros [= <-]. destruct (IH c k' Hs E) as (H1 & H2 & H3).
        cbn [str_take str_all String.length str_last].
        rewrite Hcl, H1, H2, H3. done.
      * destruct (xorb (is_word last) (is_word c)) eqn:Hx; [|done].
        intros [= <-]. cbn. split_and!; try done.
        destruct (is_word last) eqn:Hl; [done|].
        destruct (is_word c) eqn:Hw; [|done].
        destruct (best_end_some c s Hw Hs) as [? ?]. congruence.
    + destruct (xorb (is_word last) (is_word c)) eqn:Hx; [|done].
      intros [= <-]. cbn. split_and!; try done. by apply Hout.
Qed.

Lemma match_len_spec s n :
  no_upper s = true -> match_len s = Some n ->
  exists c1 rest,
    str_take n s = String c1 rest
    /\ str_all in_class (String c1 rest) = true
    /\ is_word (str_last c1 rest) = true.
Proof.
  destruct s as [|c s]; cbn [match_len]; [done|].
  unfold no_upper. cbn [str_all]. rewrite andb_true_iff. intros [Hc Hs].
  destruct (in_class c) eqn:Hcl; [|done].
  destruct (best_end c s) as [k|] eqn:E; [|done].
  intros [= <-]. destruct (best_end_spec c s k Hs E) as (H1 & H2 & H3).
  exists c, (str_take k s). cbn [str_take str_all]. by rewrite Hcl, H1.
Qed.

(** Every token found in lower-case text has the shape of a match. *)
Lemma findall_shape prev skip s :
  no_upper s = true ->
  Forall (fun t => match_shape t = true) (findall_from prev skip s).
Proof.
  revert prev skip.
  induction s as [|c s IH]; intros prev skip; cbn [findall_from];
    [constructor|].
  unfold no_upper. cbn [str_all]. rewrite andb_true_iff. intros [Hc Hs].
  destruct skip as [|k]; [|by apply IH].
  destruct (negb (from_option is_word false prev) && is_lower c) eqn:Hstart;
    [|by apply IH].
  destruct (match_len s) as [n|] eqn:E; [|by apply IH].
  constructor; [|by apply IH].
  destruct (match_len_spec s n Hs E) as (c1 & rest & -> & H1 & H2).
  apply andb_true_iff in Hstart as [_ Hl].
  cbn [match_shape]. by rewrite Hl, H1, H2.
Qed.

(** *** Scanning a text made of clean tokens *)

Lemma str_app_nil_r s : s +:+ EmptyString = s.
Proof.
  induction s as [|c s IH]; [done|].
  change (String c s +:+ EmptyString) with (String c (s +:+ EmptyString)). by rewrite IH.
Qed.

Lemma best_end_run last u rest :
  str_all in_class u = true ->
  is_word (str_last last u) = true ->
  rest = EmptyString \/ (exists r, rest = String " " r) ->
  best_end last (u +:+ rest) = Some (String.length u).
Proof.
  intros Hu Hlast Hrest. revert last Hu Hlast.
  induction u as [|c u IH]; intros last Hu Hlast.
  - cbn [str_last String.length] in *. change (EmptyString +:+ rest) with rest.
    destruct Hrest as [->|[r ->]]; cbn [best_end]; by rewrite Hlast.
  - cbn [str_all str_last] in *. apply andb_true_iff in Hu as [Hc Hu].
    change (String c u +:+ rest) with (String c (u +:+ rest)).
    cbn [best_end String.length]. by rewrite Hc, (IH c Hu Hlast).
Qed.

Lemma findall_skip prev u rest :
  findall_from prev (String.length u) (u +:+ rest)
  = findall_from (match u with
                  | EmptyString => prev
                  | String c u' => Some (str_last c u')
                  end) 0 rest.
Proof.
  revert prev. induction u as [|c u IH]; intros prev; [done|].
  change (String c u +:+ rest) with (String c (u +:+ rest)).
  cbn [String.length findall_from]. rewrite IH. by destruct u.
Qed.

Lemma findall_join ts prev :
  Forall (fun t => match_shape t = true) ts ->
  from_option is_word false prev = false ->
  findall_from prev 0 (join " " ts) = ts.
Proof.
  intros Hts. revert prev.
  induction Hts as [|t ts Ht Hts IH]; intros prev Hprev; [done|].
  destruct t as [|c [|c1 r]]; try done. cbn [match_shape] in Ht.
  apply andb_true_iff in Ht as [[Hc Hu]%andb_true_iff Hlast].
  assert (exists X, join " " (String c (String c1 r) :: ts)
                    = String c (String c1 r +:+ X)
                    /\ (X = EmptyString \/ exists J, X = String " " J)
                    /\ findall_from (Some (str_last c1 r)) 0 X = ts)
    as (X & -> & HX & Hnext).
  { destruct ts as [|t' ts'].
    - exists EmptyString. split_and!; [|by left|done].
      cbn [join]. f_equal. by rewrite str_app_nil_r.
    - exists (String " " (join " " (t' :: ts'))). split_and!; [done|right; by eexists|].
      cbn [findall_from]. rewrite andb_false_r. by apply IH. }
  cbn [findall_from]. rewrite Hprev, Hc. cbn [negb andb].
  assert (match_len (String c1 r +:+ X) = Some (String.length (String c1 r)))
    as ->.
  { change (String c1 r +:+ X) with (String c1 (r +:+ X)).
    cbn [match_len str_all] in *. apply andb_true_iff in Hu as [Hc1 Hr].
    rewrite Hc1, (best_end_run c1 r X) by done. done. }
  rewrite str_take_app, findall_skip. by rewrite Hnext.
Qed.

(** *** The filter of the token loop *)

Lemma replace_underscore_cons c s :
  replace "_" " " (String c s)
  = String (if decide (c = "_"%char) then " "%char else c) (replace "_" " " s).
Proof.
  unfold replace. cbn [replace_from String.prefix String.length Nat.sub].
  destruct (Ascii.ascii_dec "_" c) as [<-|Hne].
  - by destruct s.
  - by rewrite decide_False by done.
Qed.

Lemma replace_underscore_clean s : no_underscore (replace "_" " " s) = true.
Proof.
  induction s as [|c s IH]; [done|].
  rewrite replace_underscore_cons. unfold no_underscore in *.
  cbn [str_all]. rewrite IH, andb_true_r.
  case_decide as E; [done|]. by rewrite bool_decide_eq_false_2.
Qed.

Lemma replace_underscore_id s :
  no_underscore s = true -> replace "_" " " s = s.
Proof.
  unfold no_underscore. induction s as [|c s IH]; [done|].
  cbn [str_all]. rewrite andb_true_iff, negb_true_iff, bool_decide_eq_false.
  intros [Hc Hs]. rewrite replace_underscore_cons, decide_False, IH; done.
Qed.

Lemma replace_underscore_no_space s :
  no_space (replace "_" " " s) = true -> no_underscore s = true.
Proof.
  unfold no_space, no_underscore. induction s as [|c s IH]; [done|].
  rewrite replace_underscore_cons. cbn [str_all].
  rewrite !andb_true_iff, !negb_true_iff, !bool_decide_eq_false.
  intros [Hc Hs]. split; [|by apply IH].
  intros ->. by rewrite decide_True in Hc.
Qed.

Lemma dict_get_cases {K V} `{EqDecision K} (k : K) (dflt : V) d :
  dict_get k dflt d = dflt \/ (k, dict_get k dflt d) ∈ d.
Proof.
  induction d as [|[k0 v] d IH]; cbn [dict_get]; [by left|].
  case_decide as E; [subst; right; left|].
  destruct IH as [?|?]; [by left|right; by right].
Qed.

(** The values of the alias table pass the filter unchanged and have the
    shape of a match. *)
Lemma stem_values_fixed :
  Forall (fun kv : string * string =>
            filter_token kv.2 = Some kv.2 /\ match_shape kv.2 = true)
         stem_mapping.
Proof. repeat constructor. Qed.

(** The body of the token loop is idempotent: a token that it lets through
    passes it again unchanged. *)
Lemma filter_token_idempotent token t :
  filter_token token = Some t -> filter_token t = Some t.
Proof.
  unfold filter_token at 1. cbv zeta.
  pose proof (replace_underscore_clean token) as Hclean.
  remember (replace "_" " " token) as tok eqn:Htok.
  repeat case_decide; try done. destruct (isdigit tok) eqn:Hd; [done|].
  intros Ht. assert (t = dict_get tok tok stem_mapping) as -> by congruence.
  clear Ht.
  destruct (dict_get_cases tok tok stem_mapping) as [Heq|Hin].
  - rewrite Heq. unfold filter_token. cbv zeta.
    rewrite (replace_underscore_id tok) by done.
    rewrite !decide_False, Hd by done. by rewrite Heq.
  - pose proof stem_values_fixed as Hfix. rewrite Forall_forall in Hfix.
    by destruct (Hfix _ Hin).
Qed.

Lemma filter_token_shape token t :
  filter_token token = Some t -> match_shape token = true ->
  no_space t = true -> match_shape t = true.
Proof.
  unfold filter_token. cbv zeta.
  remember (replace "_" " " token) as tok eqn:Htok.
  repeat case_decide; try done. destruct (isdigit tok); [done|].
  intros Ht Hshape Hsp.
  assert (t = dict_get tok tok stem_mapping) as -> by congruence. clear Ht.
  destruct (dict_get_cases tok tok stem_mapping) as [Heq|Hin].
  - rewrite Heq in *. subst tok.
    by rewrite replace_underscore_id by by apply replace_underscore_no_space.
  - pose proof stem_values_fixed as Hfix. rewrite Forall_forall in Hfix.
    by destruct (Hfix _ Hin).
Qed.

(** *** Tokenizing twice *)

Lemma _tokenize_unfold text :
  _tokenize text
  = omap filter_token (findall_tokens (replace_phrases (lower text))).
Proof. by destruct text. Qed.

Lemma tokenize_tokens text t :
  t ∈ _tokenize text ->
  exists token, match_shape token = true /\ filter_token token = Some t.
Proof.
  rewrite _tokenize_unfold. intros (token & Hin & Hf)%list_elem_of_omap.
  exists token. split; [|done].
  pose proof (findall_shape None 0 (replace_phrases (lower text))) as Hshape.
  rewrite Forall_forall in Hshape. apply Hshape; [|done].
  apply no_upper_replace_phrases, no_upper_lower.
Qed.

Lemma match_shape_in_class t :
  match_shape t = true -> str_all in_class t = true.
Proof.
  destruct t as [|c [|c1 r]]; try done. cbn [match_shape].
  rewrite !andb_true_iff. intros [[Hc Hr] _].
  change (str_all in_class (String c (String c1 r)))
    with (in_class c && str_all in_class (String c1 r)).
  by rewrite (is_lower_in_class c Hc), Hr.
Qed.

Lemma lower_in_class s : str_all in_class s = true -> lower s = s.
Proof.
  induction s as [|c s IH]; [done|]. cbn [str_all lower].
  rewrite andb_true_iff. intros [Hc Hs]. by rewrite in_class_lower_char, IH.
Qed.

Lemma lower_app s1 s2 : lower (s1 +:+ s2) = lower s1 +:+ lower s2.
Proof.
  induction s1 as [|c s1 IH]; [done|].
  change (String c s1 +:+ s2) with (String c (s1 +:+ s2)).
  cbn [lower]. by rewrite IH.
Qed.

Lemma lower_join ts :
  Forall (fun t => match_shape t = true) ts ->
  lower (join " " ts) = join " " ts.
Proof.
  induction 1 as [|t ts Ht Hts IH]; [done|].
  pose proof (lower_in_class t (match_shape_in_class t Ht)) as Hl.
  destruct ts as [|t' ts']; [done|].
  change (join " " (t :: t' :: ts')) with (t +:+ " " +:+ join " " (t' :: ts')).
  by rewrite !lower_app, Hl, IH.
Qed.

Lemma omap_fixed {A} (f : A -> option A) l :
  Forall (fun x => f x = Some x) l -> omap f l = l.
Proof.
  induction 1 as [|x l Hx Hl IH]; [done|].
  cbn [omap list_omap]. rewrite Hx. cbn. f_equal. exact IH.
Qed.

(** C7, as amended.  For ASCII text: when no token of a first pass holds a
    space and the phrase substitution leaves the tokens joined by spaces
    unchanged, tokenizing the joined tokens gives the same tokens. *)
Theorem tokenize_idempotent_on_plain_tokens (text : string) :
  is_ascii text = true ->
  Forall (fun t => no_space t = true) (_tokenize text) ->
  replace_phrases (join " " (_tokenize text)) = join " " (_tokenize text) ->
  _tokenize (join " " (_tokenize text)) = _tokenize text.
Proof.
  intros _ Hplain Hphrases.
  assert (Forall (fun t => match_shape t = true /\ filter_token t = Some t)
                 (_tokenize text)) as Htokens.
  { apply Forall_forall. intros t Ht.
    destruct (tokenize_tokens text t Ht) as (token & Hshape & Hf).
    rewrite Forall_forall in Hplain. split.
    - eapply filter_token_shape; [exact Hf|done|by apply Hplain].
    - by eapply filter_token_idempotent. }
  assert (Forall (fun t => match_shape t = true) (_tokenize text)) as Hshapes.
  { eapply Forall_impl; [exact Htokens|]. by intros t [? _]. }
  rewrite (_tokenize_unfold (join " " (_tokenize text))).
  rewrite lower_join, Hphrases by done.
  unfold findall_tokens. rewrite findall_join by done.
  apply omap_fixed. eapply Forall_impl; [exact Htokens|]. by intros t [_ ?].
Qed.

Lemma tokenize_idempotent_on_plain_tokens_witness :
  _tokenize
    (join " "
       (_tokenize "Tourists use Virtual Reality and eco-tourism in 2020 hotels"))
  = _tokenize "Tourists use Virtual Reality and eco-tourism in 2020 hotels".
Proof.
  apply tokenize_idempotent_on_plain_tokens.
  - vm_compute. reflexivity.
  - apply (bool_decide_unpack _). vm_compute. exact I.
  - vm_compute. reflexivity.
Defined.

(** C7 as stated fails: the phrase "big data analytics" becomes the token
    "big data", which is tokenized into "big", the word "data" being
    filtered out. *)
Lemma tokenize_twice_differs :
  _tokenize "big data analytics" = ["big data"]
  /\ _tokenize (join " " (_tokenize "big data analytics")) = ["big"]
  /\ _tokenize (join " " (_tokenize "big data analytics"))
     <> _tokenize "big data analytics".
Proof. split_and!; [vm_compute; reflexivity..|vm_compute; discriminate]. Qed.

(** Both provisos are needed: tokens without a space can spell a phrase
    once they are joined. *)
Lemma tokenize_twice_joins_phrase :
  _tokenize "virtual, reality" = ["virtual"; "reality"]
  /\ _tokenize (join " " (_tokenize "virtual, reality")) = ["vr"].
Proof. split; vm_compute; reflexivity. Qed.

(** ** The normaliser and the store *)

(** *** Rules for [frames] *)

Section Frames.
Context (h0 : heap).

Lemma frames_ret {A} (Q : A -> Prop) a : Q a -> frames h0 Q (mret a).
Proof. intros HQ h Hh. split; [done|]. by intros ? [= <-]. Qed.

Lemma frames_ret_any {A} (a : A) : frames h0 (fun _ => True) (mret a).
Proof. by apply frames_ret. Qed.

Lemma frames_raise {A} (Q : A -> Prop) : frames h0 Q raise.
Proof. intros h Hh. split; [done|]. by intros ?. Qed.

Lemma frames_bind {A B} (P : A -> Prop) (Q : B -> Prop) (m : M A)
    (k : A -> M B) :
  frames h0 P m -> (forall a, P a -> frames h0 Q (k a)) ->
  frames h0 Q (m ≫= k).
Proof.
  intros Hm Hk h Hh. destruct (Hm h Hh) as [Hsub HP].
  unfold mbind, M_bind, bind. destruct (m h) as [[a|] h'] eqn:E; cbn in *.
  - apply (Hk a); [by apply HP|done].
  - split; [done|]. by intros ?.
Qed.

Lemma frames_weaken {A} (P Q : A -> Prop) (m : M A) :
  (forall a, P a -> Q a) -> frames h0 P m -> frames h0 Q m.
Proof.
  intros HPQ Hm h Hh. destruct (Hm h Hh) as [Hsub HP].
  split; [done|]. intros a Ha. by apply HPQ, HP.
Qed.

(** A computation that only reads. *)
Lemma frames_pure {A} (m : M A) :
  (forall h, (m h).2 = h) -> frames h0 (fun _ => True) m.
Proof. intros Hm h Hh. by rewrite Hm. Qed.

Lemma frames_alloc o : frames h0 (fun l => l ∉ dom h0) (alloc o).
Proof.
  intros h Hh. unfold alloc. cbn.
  pose proof (is_fresh (dom h)) as Hfresh.
  split.
  - etrans; [exact Hh|]. apply insert_subseteq.
    by apply not_elem_of_dom.
  - intros l [= <-]. intros Hin. apply Hfresh.
    by apply (subseteq_dom h0 h).
Qed.

Lemma frames_insert (l : loc) o h :
  l ∉ dom h0 -> h0 ⊆ h -> h0 ⊆ <[l := o]> h.
Proof.
  intros Hl Hh. apply map_subseteq_spec. intros l' o' Hl'.
  rewrite lookup_insert_ne.
  - by eapply lookup_weaken.
  - intros ->. apply Hl. apply elem_of_dom. by eexists.
Qed.

Lemma frames_setitem l k v :
  l ∉ dom h0 -> frames h0 (fun _ => True) (setitem l k v).
Proof.
  intros Hl h Hh. unfold setitem.
  destruct (h !! l) as [[d|vs]|]; cbn; split; try done.
  by apply frames_insert.
Qed.

Lemma frames_append l v :
  l ∉ dom h0 -> frames h0 (fun _ => True) (append l v).
Proof.
  intros Hl h Hh. unfold append.
  destruct (h !! l) as [[d|vs]|]; cbn; split; try done.
  by apply frames_insert.
Qed.

Lemma frames_try_except {A} (Q : A -> Prop) (m handler : M A) :
  frames h0 Q m -> frames h0 Q handler -> frames h0 Q (try_except m handler).
Proof.
  intros Hm Hhandler h Hh. destruct (Hm h Hh) as [Hsub HQ].
  unfold try_except. destruct (m h) as [[a|] h'] eqn:E; cbn in *.
  - split; [done|]. intros a' [= <-]. by apply HQ.
  - by apply Hhandler.
Qed.

Lemma frames_get_heap : frames h0 (fun _ => True) get_heap.
Proof. by apply frames_pure. Qed.

Lemma frames_dict_lookup l k : frames h0 (fun _ => True) (dict_lookup l k).
Proof.
  apply frames_pure. intros h. unfold dict_lookup.
  by destruct (h !! l) as [[d|vs]|].
Qed.

Lemma frames_is_truthy v : frames h0 (fun _ => True) (is_truthy v).
Proof. by apply frames_pure. Qed.

Lemma frames_as_str v : frames h0 (fun _ => True) (as_str v).
Proof. apply frames_pure. intros h. by destruct v. Qed.

Lemma frames_of_option {A} (o : option A) :
  frames h0 (fun _ => True) (of_option o).
Proof. apply frames_pure. intros h. by destruct o. Qed.

Lemma frames_pass : frames h0 (fun _ => True) pass.
Proof. by apply frames_pure. Qed.
End Frames.

(** Takes a computation apart along its binds and branches and closes the
    leaves with the rules above. *)
Ltac frames_step :=
  lazymatch goal with
  | |- frames _ _ (_ ≫= _) => eapply frames_bind; [|intros ? ?]
  | |- frames _ _ (if ?b then _ else _) => destruct b
  | |- frames _ _ (match ?o with Some _ => _ | None => _ end) => destruct o
  | |- frames _ _ (mret _) => first [apply frames_ret_any | by apply frames_ret]
  | |- frames _ _ raise => apply frames_raise
  | |- frames _ _ pass => apply frames_pass
  | |- frames _ _ (alloc _) => apply frames_alloc
  | |- frames _ _ get_heap => apply frames_get_heap
  | |- frames _ _ (dict_lookup _ _) => apply frames_dict_lookup
  | |- frames _ _ (is_truthy _) => apply frames_is_truthy
  | |- frames _ _ (as_str _) => apply frames_as_str
  | |- frames _ _ (of_option _) => apply frames_of_option
  | |- frames _ _ (setitem _ _ _) => by apply frames_setitem
  | |- frames _ _ (append _ _) => by apply frames_append
  end.

Section ProcessFrames.
Context `{SetOrder} `{TextFunctions} (h0 : heap).

Lemma frames_get l k : frames h0 (fun _ => True) (get l k).
Proof. unfold get. repeat frames_step. Qed.

Lemma frames_new_list l : frames h0 (fun _ => True) (new_list l).
Proof. unfold new_list. repeat frames_step. Qed.

Lemma frames_set_items v : frames h0 (fun _ => True) (set_items v).
Proof. unfold set_items. repeat frames_step. Qed.

Lemma frames_py_int v : frames h0 (fun _ => True) (py_int v).
Proof. unfold py_int. destruct v; repeat frames_step. Qed.

Lemma frames__normalize_keywords v :
  frames h0 (fun _ => True) (_normalize_keywords v).
Proof.
  unfold _normalize_keywords. repeat frames_step. apply frames_new_list.
Qed.
End ProcessFrames.

Section ProcessPapers.
Context `{SetOrder} `{TextFunctions} (h0 : heap).

(** No step of [_process_single_paper] writes to an object of the store in
    which it starts, and the dictionary that it returns is a new one. *)
Lemma frames__process_single_paper paper :
  frames h0 (fun l => l ∉ dom h0) (_process_single_paper paper).
Proof.
  unfold _process_single_paper.
  destruct paper as [| | |paper]; try apply frames_raise.
  eapply frames_bind; [apply frames_get_heap|]. intros h _.
  destruct (h !! paper) as [[d|vs]|]; try apply frames_raise.
  eapply frames_bind; [apply frames_alloc|]. intros processed Hnew.
  repeat first
    [ apply frames_get | apply frames_new_list | apply frames_set_items
    | apply frames_py_int | apply frames__normalize_keywords
    | frames_step ].
Qed.

Lemma frames_process_each processed papers :
  processed ∉ dom h0 ->
  frames h0 (fun _ => True) (process_each processed papers).
Proof.
  intros Hnew. induction papers as [|paper papers IH]; cbn [process_each].
  - apply frames_pass.
  - eapply frames_bind; [|intros _ _; exact IH].
    apply frames_try_except; [|apply frames_pass].
    eapply frames_bind; [apply frames__process_single_paper|].
    intros l Hl. repeat frames_step.
Qed.

Lemma frames_process_papers papers :
  frames h0 (fun l => l ∉ dom h0) (process_papers papers).
Proof.
  unfold process_papers.
  eapply frames_bind; [apply frames_alloc|]. intros processed Hnew.
  repeat first [ by apply frames_process_each | frames_step ].
Qed.
End ProcessPapers.

Section ProcessResult.
Context `{SetOrder} `{TextFunctions} (h0 : heap).

(** The loop keeps the list [processed] a list of new dictionaries. *)
Lemma process_each_records processed papers h records :
  processed ∉ dom h0 -> h0 ⊆ h ->
  h !! processed = Some (OList records) -> Forall (new_ref h0) records ->
  exists records',
    (process_each processed papers h).2 !! processed = Some (OList records')
    /\ Forall (new_ref h0) records'.
Proof.
  intros Hnew. revert h records.
  induction papers as [|paper papers IH]; intros h records Hh Hlist Hrecords;
    cbn [process_each].
  - by exists records.
  - unfold mbind, M_bind, bind, try_except, is_truthy.
    destruct (frames__process_single_paper h paper h) as [Hsub Hfresh]; [done|].
    destruct (_process_single_paper paper h) as [[l|] h1] eqn:E;
      cbn [fst snd] in *.
    + specialize (Hfresh l eq_refl).
      assert (h1 !! processed = Some (OList records)) as Hlist1.
      { by eapply lookup_weaken. }
      destruct (truthy h1 (VRef l)).
      * unfold append. rewrite Hlist1.
        eapply (IH _ (records ++ [VRef l])).
        -- apply frames_insert; [done|]. by etrans.
        -- by rewrite lookup_insert_eq.
        -- apply Forall_app. split; [done|]. constructor; [|done].
           exists l. split; [done|]. intros Hin. apply Hfresh.
           by apply (subseteq_dom h0 h).
      * unfold pass, ret. eapply IH; [by etrans|done..].
    + unfold pass, ret. eapply IH; [by etrans| |done].
      by eapply lookup_weaken.
Qed.
End ProcessResult.

(** C10.  [process_papers] changes no object of the store in which it is
    called: the list of records, every record dictionary and every list
    that a record refers to are after the call what they were before.  The
    list that it returns is a new object, and so is every record in it. *)
Theorem process_papers_leaves_input `{SetOrder} `{TextFunctions}
    (h : heap) (papers : loc) :
  (forall l o, h !! l = Some o -> (process_papers papers h).2 !! l = Some o)
  /\ (forall out, (process_papers papers h).1 = Ok out ->
        (out ∉ dom h)
        /\ exists records,
             (process_papers papers h).2 !! out = Some (OList records)
             /\ Forall (new_ref h) records).
Proof.
  destruct (frames_process_papers h papers h) as [Hsub Hout]; [done|].
  split.
  - intros l o Hl. by eapply lookup_weaken.
  - intros out Hok. split; [by apply Hout|].
    revert Hok.
    unfold process_papers, mbind, M_bind, bind, alloc, get_heap, of_option.
    cbv beta iota zeta.
    assert (fresh (dom h) ∉ dom h) as Hnew by apply is_fresh.
    remember (fresh (dom h)) as processed eqn:Hp.
    assert (h ⊆ <[processed := OList []]> h) as Hh1.
    { apply insert_subseteq. by apply not_elem_of_dom. }
    assert ((<[processed := OList []]> h) !! processed = Some (OList []))
      as Hl1 by apply lookup_insert_eq.
    remember (<[processed := OList []]> h) as h1 eqn:Hh.
    destruct (py_iter h1 (VRef papers)) as [items|];
      unfold mret, M_ret, ret, raise; cbv beta iota; [|done].
    destruct (process_each_records h processed items h1 [])
      as (records & Hrec & Hall); [done..|constructor|].
    destruct (process_each processed items h1) as [[[]|] h2];
      cbn [fst snd] in *; [|done].
      intros [= <-]. by exists records.
Qed.

(** A run on the sample store: the record at 1 is copied to a new
    dictionary at 5, the number in the list of records is skipped, and the
    record at 1 is as before. *)
Example process_papers_sample :
  let run := @process_papers last_seen_order plain_functions 3%positive
               sample_heap in
  run.1 = Ok 4%positive
  /\ run.2 !! 4%positive = Some (OList [VRef 5%positive])
  /\ run.2 !! 1%positive = sample_heap !! 1%positive
  /\ exists d,
       run.2 !! 5%positive = Some (ODict d)
       /\ d !! "title" = Some (VStr "Smart Hotels")
       /\ d !! "title_clean" = Some (VStr "Smart Hotels")
       /\ d !! "year" = Some (VInt 2023)
       /\ d !! "limitations" = Some (VStr EmptyString)
       /\ d !! "all_keywords" = Some (VRef 9%positive)
       /\ run.2 !! 9%positive
          = Some (OList [VStr "tourist"; VStr "vr"; VStr "hotel"; VStr "use"]).
Proof.
  cbv zeta. split_and!; try (vm_compute; reflexivity).
  eexists. split_and!; vm_compute; reflexivity.
Qed.

(** * Properties of the further functions *)

(** ** Citation statistics *)

Lemma filter_length_perm {A} (P : A -> Prop) `{forall x, Decision (P x)} l l' :
  l ≡ₚ l' -> length (filter P l) = length (filter P l').
Proof. intros Hp. by rewrite Hp. Qed.

Lemma sorted_desc_sorted (l : list Z) :
  StronglySorted (fun a b => b <= a) (sorted_by (fun a b => b <? a) l).
Proof.
  eapply StronglySorted_weaken; [|apply sorted_by_sorted].
  - intros a b Hab. apply Z.ltb_ge in Hab. lia.
  - intros a b. rewrite Z.ltb_lt, Z.ltb_ge. lia.
  - intros a b c. rewrite !Z.ltb_ge. lia.
Qed.

Lemma sorted_asc_sorted (l : list Z) :
  StronglySorted (fun a b => a <= b) (sorted_by Z.ltb l).
Proof.
  eapply StronglySorted_weaken; [|apply sorted_by_sorted].
  - intros a b Hab. apply Z.ltb_ge in Hab. lia.
  - intros a b. rewrite Z.ltb_lt, Z.ltb_ge. lia.
  - intros a b c. rewrite !Z.ltb_ge. lia.
Qed.

(** On counts in descending order the loop returns [h] with the first
    [h - i] counts at least [h] and the others below [h + 1]. *)
Lemma h_loop_spec cs i :
  0 <= i ->
  StronglySorted (fun a b => b <= a) cs ->
  let h := h_loop i i cs in
  i <= h <= i + Z.of_nat (length cs)
  /\ Forall (fun c => h <= c) (take (Z.to_nat (h - i)) cs)
  /\ Forall (fun c => c < h + 1) (drop (Z.to_nat (h - i)) cs).
Proof.
  intros Hi Hs. revert i Hi.
  induction Hs as [|c cs Hs IH Hc]; intros i Hi; cbn [h_loop].
  - cbv zeta. rewrite Z.sub_diag. cbn. split_and!; [lia..|done|done].
  - case_decide as E.
    + destruct (IH (i + 1)) as (Hb & Ht & Hd); [lia|]. cbv zeta in *.
      set (h := h_loop (i + 1) (i + 1) cs) in *.
      replace (Z.to_nat (h - i)) with (S (Z.to_nat (h - (i + 1)))) by lia.
      cbn [take drop length]. split_and!; [lia|lia| |done].
      constructor; [|done].
      destruct (decide (h = i + 1)) as [->|Hne]; [done|].
      (* the count at rank [h] is at most [c] *)
      assert (exists c', cs !! (Z.to_nat (h - (i + 1)) - 1)%nat = Some c')
        as [c' Hc'].
      { apply lookup_lt_is_Some. lia. }
      rewrite Forall_forall in Hc, Ht.
      pose proof (Hc c' (list_elem_of_lookup_2 _ _ _ Hc')).
      assert (h <= c'); [|lia].
      apply Ht. apply (list_elem_of_lookup_2 _ (Z.to_nat (h - (i + 1)) - 1)).
      rewrite lookup_take_lt by lia. done.
    + cbv zeta. rewrite Z.sub_diag. cbn [Z.to_nat take drop length].
      split_and!; [lia|lia|done|].
      constructor; [lia|]. eapply Forall_impl; [exact Hc|].
      intros b Hb. cbn in Hb. lia.
Qed.
Lemma filter_length_mono {A} (P Q : A -> Prop) `{forall x, Decision (P x)}
    `{forall x, Decision (Q x)} (l : list A) :
  (forall x, P x -> Q x) ->
  (length (filter P l) <= length (filter Q l))%nat.
Proof.
  intros HPQ. induction l as [|x l IH]; [done|].
  rewrite !filter_cons. destruct (decide (P x)) as [HP|HP].
  - rewrite decide_True by auto. cbn. lia.
  - destruct (decide (Q x)); cbn; lia.
Qed.

Lemma filter_length_all {A} (P : A -> Prop) `{forall x, Decision (P x)}
    (l : list A) :
  Forall P l -> length (filter P l) = length l.
Proof.
  induction 1 as [|x l HP _ IH]; [done|].
  rewrite filter_cons, decide_True by done. cbn. lia.
Qed.

Lemma filter_length_none {A} (P : A -> Prop) `{forall x, Decision (P x)}
    (l : list A) :
  Forall (fun x => ~ P x) l -> length (filter P l) = 0%nat.
Proof.
  induction 1 as [|x l HP _ IH]; [done|].
  rewrite filter_cons, decide_False by done. done.
Qed.

Lemma cited_at_least_sorted n papers :
  cited_at_least n papers
  = Z.of_nat (length (filter (fun c => n <= c)
                 (sorted_by (fun a b => b <? a) (citations_of papers)))).
Proof.
  unfold cited_at_least. f_equal. apply filter_length_perm.
  symmetry. apply sorted_by_perm.
Qed.

(** X1.  [calculate_h_index] returns the h-index: for every number [n], at
    least [n] records have [n] citations or more exactly when [n] is at
    most the value returned.  So the value is the greatest [n] with that
    property. *)
Theorem h_index_characterised (papers : list paper) (n : Z) :
  n <= cited_at_least n papers <-> n <= calculate_h_index papers.
Proof.
  rewrite cited_at_least_sorted. unfold calculate_h_index.
  set (L := sorted_by _ _).
  destruct (h_loop_spec L 0) as (Hb & Ht & Hd);
    [lia|apply sorted_desc_sorted|].
  cbv zeta in *. set (h := h_loop 0 0 L) in *.
  rewrite Z.sub_0_r in Ht, Hd.
  rewrite <- (take_drop (Z.to_nat h) L) at 1.
  rewrite filter_app, length_app.
  split.
  - intros Hn. destruct (decide (n <= h)) as [|Hlt]; [done|].
    rewrite (filter_length_none _ (drop _ L)) in Hn.
    2:{ eapply Forall_impl; [exact Hd|]. intros c Hc. cbn in Hc. lia. }
    pose proof (length_filter (fun c => n <= c) (take (Z.to_nat h) L)).
    rewrite length_take in *. lia.
  - intros Hn. rewrite (filter_length_all _ (take _ L)).
    2:{ eapply Forall_impl; [exact Ht|]. intros c Hc. cbn in Hc. lia. }
    rewrite length_take. lia.
Qed.
Lemma py_max_spec l c :
  py_max c l ∈ c :: l /\ Forall (fun x => x <= py_max c l) (c :: l).
Proof.
  unfold py_max. revert c. induction l as [|x l IH]; intros c; cbn [foldl].
  - split; [set_solver|]. constructor; [lia|done].
  - destruct (IH (Z.max c x)) as [Hin Hall]. split.
    + destruct (Z.max_spec c x) as [[_ E]|[_ E]]; rewrite E in Hin |- *;
        set_solver.
    + inversion_clear Hall as [|? ? Hm Hl].
      constructor; [lia|]. constructor; [lia|done].
Qed.

Lemma sorted_lookup_split (l : list Z) i x :
  StronglySorted (fun a b => a <= b) l ->
  l !! i = Some x ->
  Forall (fun y => y <= x) (take (S i) l) /\ Forall (fun y => x <= y) (drop i l).
Proof.
  intros Hs. revert i. induction Hs as [|a l Hs IH Ha]; intros i Hi; [done|].
  destruct i as [|i]; cbn in Hi.
  - simplify_eq. cbn [take drop]. split.
    + rewrite take_0. constructor; [lia|done].
    + constructor; [lia|done].
  - destruct (IH i Hi) as [Ht Hd]. cbn [drop]. split; [|done].
    change (take (S (S i)) (a :: l)) with (a :: take (S i) l).
    constructor; [|done].
    rewrite Forall_forall in Ha. apply Ha.
    by apply list_elem_of_lookup_2 in Hi.
Qed.

Lemma sum_Z_le_max (l : list Z) m :
  Forall (fun x => x <= m) l -> sum_Z l <= Z.of_nat (length l) * m.
Proof.
  unfold sum_Z. induction 1 as [|x l Hx _ IH]; cbn [foldr length]; [lia|].
  nia.
Qed.

Lemma calculate_h_index_bounds (papers : list paper) :
  0 <= calculate_h_index papers <= Z.of_nat (length papers).
Proof.
  unfold calculate_h_index.
  destruct (h_loop_spec (sorted_by (fun a b => b <? a) (citations_of papers)) 0)
    as (Hb & _); [lia|apply sorted_desc_sorted|].
  cbv zeta in Hb. rewrite sorted_by_length in Hb.
  unfold citations_of in *. rewrite length_map in Hb. lia.
Qed.

(** X2.  [get_citation_statistics] returns the empty dictionary only for
    an empty list of records.  Otherwise [paper_count] is the number of
    records, [total_citations] the sum of their citations, [max_citations]
    is the count of some record and bounds every count, the mean is not
    above the maximum, and neither the number of highly cited records nor
    the h-index exceeds the number of records. *)
Theorem citation_statistics_summary (papers : list paper) :
  match get_citation_statistics papers with
  | None => papers = []
  | Some s =>
      paper_count s = Z.of_nat (length papers)
      /\ total_citations s = sum_Z (citations_of papers)
      /\ max_citations s ∈ citations_of papers
      /\ Forall (fun c => c <= max_citations s) (citations_of papers)
      /\ num_ltb (PyInt (max_citations s)) (mean_citations s) = false
      /\ 0 <= highly_cited_papers s <= paper_count s
      /\ h_index s <= paper_count s
  end.
Proof.
  unfold get_citation_statistics.
  destruct (citations_of papers) as [|c rest] eqn:E.
  - destruct papers; [done|discriminate].
  - cbv zeta. cbn [paper_count total_citations max_citations mean_citations
                   highly_cited_papers h_index].
    assert (length (c :: rest) = length papers) as Hlen.
    { rewrite <- E. unfold citations_of. by rewrite length_map. }
    destruct (py_max_spec rest c) as [Hin Hall].
    split_and!; [by rewrite Hlen|done|done|done| | | |].
    + unfold num_ltb, py_truediv, to_float, float_ltb.
      apply negb_false_iff, Qle_bool_iff. rewrite Qred_correct.
      apply Qle_shift_div_r.
      * change 0%Q with (inject_Z 0). rewrite <- Zlt_Qlt. cbn [length]. lia.
      * rewrite <- inject_Z_mult, <- Zle_Qle.
        pose proof (sum_Z_le_max _ _ Hall). lia.
    + lia.
    + pose proof (length_filter (fun c0 => 50 < c0) (c :: rest)). lia.
    + rewrite Hlen. apply calculate_h_index_bounds.
Qed.

(** X3.  The median reported by [get_citation_statistics] is the citation
    count of some record; at least half of the records (rounded up) have at
    least that many citations, and more than half of them have at most that
    many: it is the upper median. *)
Theorem citation_statistics_median (papers : list paper) (s : citation_stats) :
  get_citation_statistics papers = Some s ->
  median_citations s ∈ citations_of papers
  /\ paper_count s - paper_count s / 2
     <= cited_at_least (median_citations s) papers
  /\ paper_count s / 2 + 1 <= cited_at_most (median_citations s) papers.
Proof.
  unfold get_citation_statistics.
  destruct (citations_of papers) as [|c rest] eqn:E; [done|].
  cbv zeta. intros Hs. apply (inj Some) in Hs. subst s.
  cbn [median_citations paper_count].
  set (cs := c :: rest) in *.
  set (L := sorted_by Z.ltb cs).
  assert (L ≡ₚ cs) as Hp by apply sorted_by_perm.
  assert (length L = length cs) as Hlen by (by rewrite Hp).
  assert (0 < length cs)%nat as Hpos by (cbn; lia).
  destruct (lookup_lt_is_Some_2 L (length cs / 2)) as [m Hm].
  { rewrite Hlen. apply Nat.div_lt; lia. }
  rewrite Hm. cbn [default].
  destruct (sorted_lookup_split L _ m (sorted_asc_sorted cs) Hm) as [Ht Hd].
  assert (Z.of_nat (length cs) / 2 = Z.of_nat (length cs / 2)) as Hdiv.
  { rewrite Nat2Z.inj_div. done. }
  rewrite Hdiv. unfold cited_at_least, cited_at_most. rewrite E.
  split_and!.
  - rewrite <- Hp. by apply list_elem_of_lookup_2 in Hm.
  - rewrite <- (filter_length_perm _ _ _ Hp).
    rewrite <- (take_drop (length cs / 2) L) at 1.
    rewrite filter_app, length_app.
    rewrite (filter_length_all _ (drop _ L)) by done.
    rewrite length_drop. lia.
  - rewrite <- (filter_length_perm _ _ _ Hp).
    rewrite <- (take_drop (S (length cs / 2)) L) at 1.
    rewrite filter_app, length_app.
    rewrite (filter_length_all _ (take _ L)) by done.
    rewrite length_take.
    apply lookup_lt_Some in Hm. lia.
Qed.
Lemma citation_statistics_median_witness :
  let s := {| total_citations := 14; paper_count := 3;
              mean_citations := PyFloat (Fin (14 # 3));
              median_citations := 3; max_citations := 10; h_index := 2;
              highly_cited_papers := 0 |} in
  median_citations s ∈ citations_of cited_papers
  /\ paper_count s - paper_count s / 2
     <= cited_at_least (median_citations s) cited_papers
  /\ paper_count s / 2 + 1 <= cited_at_most (median_citations s) cited_papers.
Proof.
  cbv zeta. apply (citation_statistics_median cited_papers).
  vm_compute. reflexivity.
Defined.

(** ** The keyword tables *)

Lemma most_common_sorted {K} (c : list (K * Z)) :
  StronglySorted (fun a b => b.2 <= a.2) (most_common c).
Proof.
  unfold most_common.
  eapply StronglySorted_weaken; [|apply sorted_by_sorted].
  - intros a b Hab. apply Z.ltb_ge in Hab. lia.
  - intros a b. rewrite Z.ltb_lt, Z.ltb_ge. lia.
  - intros a b c'. rewrite !Z.ltb_ge. lia.
Qed.

Lemma sorted_strict (l : list Z) :
  NoDup l -> StronglySorted Z.lt (sorted_by Z.ltb l).
Proof.
  intros Hnd. apply (sorted_by_NoDup Z.ltb) in Hnd.
  pose proof (sorted_asc_sorted l) as Hs.
  induction Hs as [|a s Hs IH Ha]; constructor.
  - apply IH. by apply NoDup_cons in Hnd as [_ ?].
  - apply NoDup_cons in Hnd as [Hna _].
    rewrite Forall_forall in Ha |- *. intros b Hb.
    specialize (Ha b Hb). cbn in Ha.
    assert (a <> b) by (intros ->; done). lia.
Qed.

Lemma dict_get_Forall {K V} `{EqDecision K} (P : V -> Prop) (k : K) dflt
    (d : list (K * V)) :
  Forall (fun kv => P kv.2) d -> P dflt -> P (dict_get k dflt d).
Proof.
  intros Hd Hdflt. induction Hd as [|[k0 v] d Hv Hd IH]; cbn [dict_get];
    [done|]. by case_decide.
Qed.

Lemma dict_get_notin {K V} `{EqDecision K} (k : K) (dflt : V)
    (d : list (K * V)) :
  k ∉ d.*1 -> dict_get k dflt d = dflt.
Proof.
  induction d as [|[k0 v] d IH]; cbn [dict_get]; intros Hk; [done|].
  rewrite decide_False by set_solver. apply IH. set_solver.
Qed.

Lemma dict_get_map_keys {K V} `{EqDecision K} (f : K -> V) (k : K) dflt
    (ks : list K) :
  dict_get k dflt (map (fun k' => (k', f k')) ks)
  = if decide (k ∈ ks) then f k else dflt.
Proof.
  induction ks as [|k0 ks IH]; cbn [map dict_get].
  - by rewrite decide_False by set_solver.
  - destruct (decide (k = k0)) as [->|Hne].
    + by rewrite decide_True by set_solver.
    + rewrite IH. destruct (decide (k ∈ ks)).
      * by rewrite decide_True by set_solver.
      * by rewrite decide_False by set_solver.
Qed.

Section TableExtras.
Context `{SetOrder}.

Lemma keyword_counter_keys_from papers (c0 : list (string * Z)) k :
  k ∈ (foldl (fun c p => counter_update (set_iter (aggregate_source p)) c)
             c0 papers).*1
  <-> k ∈ c0.*1 \/ exists p, p ∈ papers /\ k ∈ aggregate_source p.
Proof.
  revert c0. induction papers as [|p papers IH]; intros c0; cbn [foldl].
  - split; [by left|]. intros [?|(p & Hp & _)]; [done|].
    by apply elem_of_nil in Hp.
  - rewrite IH, counter_update_elem_keys, set_iter_elem. split.
    + intros [[Hk|Hk]|(q & Hq & Hk)].
      * right. exists p. split; [left|done].
      * by left.
      * right. exists q. split; [by right|done].
    + intros [Hk|(q & Hq & Hk)]; [left; by right|].
      apply elem_of_cons in Hq as [->|Hq]; [left; by left|].
      right. by exists q.
Qed.

Lemma analyze_keywords_NoDup papers : NoDup (analyze_keywords papers).*1.
Proof.
  unfold analyze_keywords. apply most_common_NoDup.
  by destruct (keyword_counter_from papers [] EmptyString) as [Hnd _];
    [constructor|].
Qed.

(** The count of a keyword in the table of one year. *)
Lemma yearly_counter_get_from papers (t0 : list (Z * list (string * Z))) y k :
  let t := foldl (fun t p =>
             if truthy_int (year p)
             then dict_alter (counter_update (set_iter (yearly_source p))) []
                    (default 0 (year p)) t
             else t) t0 papers in
  counter_get k (dict_get y [] t)
  = counter_get k (dict_get y [] t0)
    + Z.of_nat (length (filter (fun p => has_year p /\ year p = Some y
                                         /\ k ∈ yearly_source p) papers)).
Proof.
  revert t0. induction papers as [|p papers IH]; intros t0; cbn [foldl].
  - cbv zeta. rewrite filter_nil. simpl. lia.
  - cbv zeta in *. destruct (truthy_int (year p)) eqn:E.
    + assert (has_year p) as Hy by exact E.
      rewrite IH, dict_get_alter, filter_cons.
      destruct (decide (y = default 0 (year p))) as [Hyp|Hne].
      * assert (year p = Some y) as Hsome.
        { clear -E Hyp. destruct (year p); [|done]. cbn in Hyp. by subst. }
        rewrite counter_get_update, set_iter_count.
        repeat case_decide; try tauto; rewrite ?length_cons; lia.
      * rewrite decide_False; [lia|]. intros (_ & Hz & _).
        rewrite Hz in Hne. done.
    + assert (~ has_year p) as Hy by (unfold has_year; by rewrite E).
      rewrite IH, filter_cons. rewrite decide_False by tauto. lia.
Qed.

Lemma yearly_counter_keys_complete papers (t0 : list (Z * list (string * Z))) y :
  y ∈ t0.*1 \/ y ∈ known_years papers ->
  y ∈ (foldl (fun t p =>
             if truthy_int (year p)
             then dict_alter (counter_update (set_iter (yearly_source p))) []
                    (default 0 (year p)) t
             else t) t0 papers).*1.
Proof.
  revert t0. induction papers as [|p papers IH]; intros t0; cbn [foldl].
  - intros [Hy|Hy]; [done|]. by apply elem_of_nil in Hy.
  - intros Hy. apply IH. unfold known_years in Hy. cbn [omap list_omap] in Hy.
    destruct (truthy_int (year p)) eqn:E.
    + rewrite dict_alter_elem_keys.
      destruct (year p) as [z|]; [|done]. cbn [default].
      destruct Hy as [Hy|Hy]; [left; by right|].
      apply elem_of_cons in Hy as [->|Hy]; [left; by left|by right].
    + done.
Qed.

Lemma yearly_counter_inner_NoDup papers y :
  NoDup (dict_get y [] (yearly_counter papers)).*1.
Proof.
  destruct (yearly_counter_from papers [] EmptyString) as [Hnd _];
    [constructor|].
  apply (dict_get_Forall (fun c : list (string * Z) => NoDup c.*1));
    [exact Hnd|constructor].
Qed.

(** The table of the year [y] counts the records of that year. *)
Lemma analyze_keywords_by_year_get papers y k :
  counter_get k (dict_get y [] (analyze_keywords_by_year papers))
  = Z.of_nat (length (filter (fun p => has_year p /\ year p = Some y
                                       /\ k ∈ yearly_source p) papers)).
Proof.
  unfold analyze_keywords_by_year. cbv zeta.
  rewrite (dict_get_map_keys
             (fun y => most_common (dict_get y [] (yearly_counter papers)))).
  pose proof (yearly_counter_get_from papers [] y k) as Hget.
  cbv zeta in Hget. fold (yearly_counter papers) in Hget.
  cbn [dict_get counter_get] in Hget. rewrite Z.add_0_l in Hget.
  case_decide as Hy.
  - rewrite most_common_get by apply yearly_counter_inner_NoDup. done.
  - rewrite <- Hget. rewrite sorted_by_elem in Hy.
    by rewrite dict_get_notin.
Qed.

Lemma analyze_keywords_by_year_years papers y :
  y ∈ (analyze_keywords_by_year papers).*1 <-> y ∈ known_years papers.
Proof.
  rewrite analyze_keywords_by_year_keys, sorted_by_elem. split.
  - apply yearly_counter_keys_known.
  - intros Hy. apply (yearly_counter_keys_complete papers []). by right.
Qed.
End TableExtras.

Lemma analyze_keywords_elem `{SetOrder} (papers : list paper) k n :
  (k, n) ∈ analyze_keywords papers
  <-> 1 <= n
      /\ n = Z.of_nat (length (filter (fun p => k ∈ aggregate_source p)
                                      papers)).
Proof.
  pose proof (analyze_keywords_get papers k) as Hget. split.
  - intros Hin.
    rewrite (counter_get_elem k n) in Hget
      by (done || apply analyze_keywords_NoDup).
    split; [|done].
    assert (k ∈ (keyword_counter papers).*1) as Hk.
    { unfold analyze_keywords in Hin. rewrite most_common_perm in Hin.
      apply list_elem_of_fmap. by exists (k, n). }
    apply keyword_counter_keys_from in Hk as [Hk|(p & Hp & Hk)];
      [by apply elem_of_nil in Hk|].
    assert (p ∈ filter (fun p => k ∈ aggregate_source p) papers) as Hf
      by (by apply list_elem_of_filter).
    destruct (filter _ papers); [by apply elem_of_nil in Hf|].
    rewrite Hget. cbn [length]. lia.
  - intros [Hn ->]. rewrite <- Hget. apply counter_elem_get.
    destruct (decide (k ∈ (analyze_keywords papers).*1)) as [|Hk]; [done|].
    apply counter_get_notin in Hk. lia.
Qed.

(** X4.  In the table returned by [analyze_keywords] every keyword has one
    row; a pair is a row exactly when its count is at least 1 and is the
    number of records whose keyword source holds the keyword; and the rows
    are in descending order of count. *)
Theorem analyze_keywords_table `{SetOrder} (papers : list paper) :
  NoDup (analyze_keywords papers).*1
  /\ (forall k n,
        (k, n) ∈ analyze_keywords papers
        <-> 1 <= n
            /\ n = Z.of_nat (length (filter (fun p => k ∈ aggregate_source p)
                                            papers)))
  /\ StronglySorted (fun a b => b.2 <= a.2) (analyze_keywords papers).
Proof.
  split_and!; [apply analyze_keywords_NoDup| |apply most_common_sorted].
  apply analyze_keywords_elem.
Qed.

(** X5.  In the table returned by [analyze_keywords_by_year] the years are
    in strictly ascending order and are the non-zero years of the records;
    the count of a keyword in the table of a year is the number of records
    of that year whose keywords hold it; and the table of a year has one row
    for a keyword, in descending order of count. *)
Theorem analyze_keywords_by_year_table `{SetOrder} (papers : list paper) :
  StronglySorted Z.lt (analyze_keywords_by_year papers).*1
  /\ (forall y, y ∈ (analyze_keywords_by_year papers).*1
                <-> exists p, p ∈ papers /\ year p = Some y /\ y <> 0)
  /\ (forall y k,
        counter_get k (dict_get y [] (analyze_keywords_by_year papers))
        = Z.of_nat (length (filter (fun p => has_year p /\ year p = Some y
                                             /\ k ∈ yearly_source p) papers)))
  /\ (forall y c, (y, c) ∈ analyze_keywords_by_year papers ->
        NoDup c.*1 /\ StronglySorted (fun a b => b.2 <= a.2) c).
Proof.
  split_and!.
  - rewrite analyze_keywords_by_year_keys.
    apply sorted_strict, yearly_counter_keys_NoDup.
  - intros y. rewrite analyze_keywords_by_year_years.
    unfold known_years. rewrite list_elem_of_omap. split.
    + intros (p & Hp & Hy). exists p. split; [done|].
      destruct (year p) as [z|]; [|done]. cbn in Hy.
      destruct (z =? 0) eqn:E; [done|]. cbn in Hy. simplify_eq.
      split; [done|]. by apply Z.eqb_neq.
    + intros (p & Hp & Hy & Hne). exists p. split; [done|].
      rewrite Hy. cbn. apply Z.eqb_neq in Hne. by rewrite Hne.
  - apply analyze_keywords_by_year_get.
  - intros y c Hin. unfold analyze_keywords_by_year in Hin. cbv zeta in Hin.
    apply list_elem_of_fmap in Hin as (y' & Heq & _). simplify_eq.
    split; [|apply most_common_sorted].
    apply most_common_NoDup, yearly_counter_inner_NoDup.
Qed.
(** ** The burst detector *)

Lemma sorted_by_id {A} (lt : A -> A -> bool) (l : list A) :
  StronglySorted (fun a b => lt b a = false) l -> sorted_by lt l = l.
Proof.
  induction 1 as [|x l Hs IH Hx]; [done|].
  cbn [sorted_by foldr]. fold (sorted_by lt l). rewrite IH.
  destruct l as [|y l]; [done|]. cbn [insert_by].
  inversion_clear Hx as [|? ? Hy _]. by rewrite Hy.
Qed.

Lemma counter_get_update_map {K} `{EqDecision K} (k : K) (m c : list (K * Z)) :
  NoDup m.*1 ->
  counter_get k (counter_update_map m c) = counter_get k c + counter_get k m.
Proof.
  unfold counter_update_map. revert c.
  induction m as [|[k0 n] m IH]; intros c Hnd; cbn [foldl counter_get fst snd].
  - lia.
  - rewrite fmap_cons in Hnd. apply NoDup_cons in Hnd as [Hk0 Hnd].
    rewrite IH, counter_get_add by done.
    case_decide; [|lia]. subst. rewrite (counter_get_notin k0 m) by done. lia.
Qed.

Lemma has_year_default p y :
  has_year p -> default 0 (year p) = y <-> year p = Some y.
Proof.
  unfold has_year. destruct (year p) as [z|]; cbn; [|done].
  intros _. split; congruence.
Qed.

Lemma filter_length_split {A} (P Q R : A -> Prop)
    `{forall x, Decision (P x)} `{forall x, Decision (Q x)}
    `{forall x, Decision (R x)} (l : list A) :
  (forall x, P x <-> Q x \/ R x) -> (forall x, Q x -> R x -> False) ->
  length (filter P l) = (length (filter Q l) + length (filter R l))%nat.
Proof.
  intros HP Hdis. induction l as [|x l IH]; [done|].
  rewrite !filter_cons.
  pose proof (HP x). pose proof (Hdis x).
  destruct (decide (P x)), (decide (Q x)), (decide (R x));
    cbn [length]; try tauto; lia.
Qed.

Lemma window_records_cons y window k papers :
  y ∉ window ->
  length (window_records (y :: window) k papers)
  = (length (filter (fun p => has_year p /\ year p = Some y
                              /\ k ∈ yearly_source p) papers)
     + length (window_records window k papers))%nat.
Proof.
  intros Hy. unfold window_records. apply filter_length_split.
  - intros p. split.
    + intros (Hp & Hin & Hk). apply elem_of_cons in Hin as [Heq|Hin].
      * left. split_and!; [done| |done]. by apply has_year_default.
      * right. done.
    + intros [(Hp & Heq & Hk)|(Hp & Hin & Hk)].
      * split_and!; [done| |done]. rewrite Heq. left.
      * split_and!; [done| |done]. by right.
  - intros p (Hp & Heq & _) (_ & Hin & _). rewrite Heq in Hin. done.
Qed.

Lemma window_records_nil k papers : window_records [] k papers = [].
Proof.
  unfold window_records. induction papers as [|p papers IH]; [done|].
  rewrite filter_cons, decide_False; [done|].
  intros (_ & Hin & _). by apply elem_of_nil in Hin.
Qed.

Section WindowFacts.
Context `{SetOrder}.

Lemma analyze_keywords_by_year_inner_NoDup papers y :
  NoDup (dict_get y [] (analyze_keywords_by_year papers)).*1.
Proof.
  unfold analyze_keywords_by_year. cbv zeta.
  rewrite (dict_get_map_keys
             (fun y => most_common (dict_get y [] (yearly_counter papers)))).
  case_decide; [|constructor].
  apply most_common_NoDup, yearly_counter_inner_NoDup.
Qed.

Lemma window_keywords_from papers window (c0 : list (string * Z)) k :
  NoDup window -> NoDup c0.*1 ->
  let c := foldl (fun c y =>
                    counter_update_map
                      (dict_get y [] (analyze_keywords_by_year papers)) c)
                 c0 window in
  NoDup c.*1
  /\ counter_get k c
     = counter_get k c0 + Z.of_nat (length (window_records window k papers)).
Proof.
  intros Hw. revert c0.
  induction Hw as [|y window Hy Hw IH]; intros c0 Hc0; cbn [foldl].
  - split; [done|]. rewrite window_records_nil. simpl. lia.
  - destruct (IH (counter_update_map
                    (dict_get y [] (analyze_keywords_by_year papers)) c0))
      as [IH1 IH2].
    { by apply counter_update_map_NoDup. }
    split; [done|]. cbv zeta in IH2. rewrite IH2.
    rewrite counter_get_update_map
      by apply analyze_keywords_by_year_inner_NoDup.
    rewrite analyze_keywords_by_year_get, window_records_cons by done. lia.
Qed.

Lemma burst_years_keys papers :
  burst_years papers = (analyze_keywords_by_year papers).*1.
Proof.
  unfold burst_years. apply sorted_by_id.
  change (map fst (analyze_keywords_by_year papers))
    with ((analyze_keywords_by_year papers).*1).
  rewrite analyze_keywords_by_year_keys.
  eapply StronglySorted_weaken; [|apply sorted_asc_sorted].
  intros a b Hab. cbn in Hab. apply Z.ltb_ge. lia.
Qed.

Lemma burst_years_sorted papers : StronglySorted Z.lt (burst_years papers).
Proof.
  rewrite burst_years_keys, analyze_keywords_by_year_keys.
  apply sorted_strict, yearly_counter_keys_NoDup.
Qed.

Lemma burst_years_NoDup papers : NoDup (burst_years papers).
Proof.
  rewrite burst_years_keys, analyze_keywords_by_year_keys.
  apply sorted_by_NoDup, yearly_counter_keys_NoDup.
Qed.

Lemma recent_years_NoDup papers : NoDup (recent_years papers).
Proof.
  unfold recent_years, py_last.
  eapply sublist_NoDup; [apply burst_years_NoDup|apply sublist_drop].
Qed.

Lemma earlier_years_NoDup papers : NoDup (earlier_years papers).
Proof.
  unfold earlier_years, py_but_last. cbv zeta.
  case_decide; (eapply sublist_NoDup; [|apply sublist_take]);
    apply burst_years_NoDup.
Qed.

Lemma recent_keywords_NoDup papers : NoDup (recent_keywords papers).*1.
Proof.
  by destruct (window_keywords_from papers (recent_years papers) []
                 EmptyString (recent_years_NoDup papers)) as [? _];
    [constructor|].
Qed.

Lemma recent_keywords_get papers k :
  counter_get k (recent_keywords papers)
  = Z.of_nat (length (window_records (recent_years papers) k papers)).
Proof.
  destruct (window_keywords_from papers (recent_years papers) [] k
              (recent_years_NoDup papers)) as [_ Hget]; [constructor|].
  cbv zeta in Hget. unfold recent_keywords, window_keywords. cbv zeta.
  rewrite Hget. simpl. lia.
Qed.

Lemma earlier_keywords_get papers k :
  counter_get k (earlier_keywords papers)
  = Z.of_nat (length (window_records (earlier_years papers) k papers)).
Proof.
  destruct (window_keywords_from papers (earlier_years papers) [] k
              (earlier_years_NoDup papers)) as [_ Hget]; [constructor|].
  cbv zeta in Hget. unfold earlier_keywords, window_keywords. cbv zeta.
  rewrite Hget. simpl. lia.
Qed.

(** An entry of the detector carries the two window counts of its
    keyword. *)
Lemma detect_burst_words_counts papers e :
  e ∈ detect_burst_words papers ->
  (burst_keyword e, recent_freq e) ∈ recent_keywords papers
  /\ recent_freq e
     = Z.of_nat (length (window_records (recent_years papers)
                           (burst_keyword e) papers))
  /\ earlier_freq e
     = Z.of_nat (length (window_records (earlier_years papers)
                           (burst_keyword e) papers))
  /\ e = burst_entry (burst_keyword e) (recent_freq e) (earlier_freq e)
  /\ burst_kept (recent_freq e) (earlier_freq e) = true.
Proof.
  intros He. apply detect_burst_words_elem in He as [_ He].
  apply burst_candidates_elem in He as (kw & rf & Hin & -> & Hk).
  cbn [burst_entry burst_keyword recent_freq earlier_freq].
  split_and!; [done| |apply earlier_keywords_get|done|done].
  rewrite <- recent_keywords_get.
  symmetry. apply counter_get_elem; [apply recent_keywords_NoDup|done].
Qed.
End WindowFacts.
Lemma half_lt_growth recent earlier :
  0 <= earlier ->
  burst_kept recent earlier = true ->
  earlier < recent
  /\ num_ltb (PyFloat (Fin (1 # 2)))
       (reported_growth (computed_growth recent earlier)) = true
  /\ reported_growth (computed_growth recent earlier) <> PyFloat PosInf.
Proof.
  intros He Hk. apply burst_kept_iff in Hk.
  unfold computed_growth in *. destruct (decide (earlier = 0)) as [->|Hne].
  - destruct (decide (3 <= recent)) as [H3|H3].
    + split; [lia|]. by vm_compute.
    + destruct Hk as [Hk|[_ ?]]; [|lia].
      assert (reported_growth (PyInt recent) = PyInt recent) as -> by done.
      split_and!; [|done|done].
      unfold num_ltb, to_float, float_ltb in Hk.
      apply negb_true_iff, Qle_bool_false in Hk.
      destruct (decide (0 < recent)) as [|Hr]; [done|]. exfalso.
      assert (inject_Z recent <= 0)%Q as Hq.
      { change 0%Q with (inject_Z 0). rewrite <- Zle_Qle. lia. }
      lra.
  - destruct Hk as [Hk|[? _]]; [|done].
    assert (reported_growth (py_truediv (recent - earlier) earlier)
            = py_truediv (recent - earlier) earlier) as -> by done.
    split_and!; [|done|done].
    unfold py_truediv, num_ltb, to_float, float_ltb in Hk.
    apply negb_true_iff, Qle_bool_false in Hk. rewrite Qred_correct in Hk.
    destruct (decide (earlier < recent)) as [|Hr]; [done|]. exfalso.
    assert (inject_Z (recent - earlier) / inject_Z earlier <= 0)%Q as Hq.
    { apply Qle_shift_div_r.
      - change 0%Q with (inject_Z 0). rewrite <- Zlt_Qlt. lia.
      - rewrite Qmult_0_l. change 0%Q with (inject_Z 0).
        rewrite <- Zle_Qle. lia. }
    lra.
Qed.

(** X6.  In every entry returned by [detect_burst_words], [recent_freq]
    is the number of records of the recent window that hold the keyword and
    [earlier_freq] the number of records of the earlier window that hold
    it.  The years of the windows are in strictly ascending order, and with
    more than two years the recent window is the last two years and the
    earlier window all the years before them. *)
Theorem burst_entry_counts `{SetOrder} (papers : list paper) :
  Forall (fun e =>
            recent_freq e
            = Z.of_nat (length (window_records (recent_years papers)
                                  (burst_keyword e) papers))
            /\ earlier_freq e
               = Z.of_nat (length (window_records (earlier_years papers)
                                     (burst_keyword e) papers)))
         (detect_burst_words papers)
  /\ StronglySorted Z.lt (burst_years papers)
  /\ ((2 < length (burst_years papers))%nat ->
      length (recent_years papers) = 2%nat
      /\ earlier_years papers ++ recent_years papers = burst_years papers).
Proof.
  split_and!.
  - apply Forall_forall. intros e He.
    by destruct (detect_burst_words_counts papers e He) as (_ & ? & ? & _).
  - apply burst_years_sorted.
  - intros Hlen. unfold recent_years, earlier_years, py_last, py_but_last.
    cbv zeta. rewrite decide_True by done.
    rewrite length_drop, take_drop. split; [lia|done].
Qed.

(** X7.  When the records have exactly two years, the first year is in
    both windows of [detect_burst_words]: the earlier count of every entry
    is the count of its keyword in the first year, and the recent count is
    that count plus the count in the second year. *)
Theorem burst_two_years `{SetOrder} (papers : list paper) (y1 y2 : Z) :
  burst_years papers = [y1; y2] ->
  y1 < y2
  /\ Forall (fun e =>
               earlier_freq e
               = Z.of_nat (length (window_records [y1] (burst_keyword e)
                                     papers))
               /\ recent_freq e
                  = earlier_freq e
                    + Z.of_nat (length (window_records [y2] (burst_keyword e)
                                          papers)))
            (detect_burst_words papers).
Proof.
  intros Hy. split.
  - pose proof (burst_years_sorted papers) as Hs. rewrite Hy in Hs.
    inversion_clear Hs as [|? ? _ Hlt]. by inversion_clear Hlt.
  - assert (recent_years papers = [y1; y2]) as Hr.
    { unfold recent_years. by rewrite Hy. }
    assert (earlier_years papers = [y1]) as He.
    { unfold earlier_years. cbv zeta. by rewrite Hy. }
    assert (y1 ∉ [y2]) as Hne.
    { pose proof (burst_years_NoDup papers) as Hnd. rewrite Hy in Hnd.
      by apply NoDup_cons in Hnd as [? _]. }
    apply Forall_forall. intros e Hin.
    destruct (detect_burst_words_counts papers e Hin) as (_ & Hrf & Hef & _).
    rewrite Hr in Hrf. rewrite He in Hef. split; [done|].
    rewrite Hrf, Hef, window_records_cons by done.
    rewrite (window_records_cons y1 [] _ papers) by apply not_elem_of_nil.
    rewrite window_records_nil. cbn [length]. lia.
Qed.

Lemma burst_two_years_witness :
  2023 < 2025
  /\ Forall (fun e =>
               earlier_freq e
               = Z.of_nat (length (window_records [2023] (burst_keyword e)
                                     scenario_papers))
               /\ recent_freq e
                  = earlier_freq e
                    + Z.of_nat (length (window_records [2025] (burst_keyword e)
                                          scenario_papers)))
            (@detect_burst_words last_seen_order scenario_papers).
Proof.
  apply (@burst_two_years last_seen_order scenario_papers 2023 2025).
  vm_compute. reflexivity.
Defined.

(** X8.  [detect_burst_words] returns no keyword twice.  In every entry
    the recent count exceeds the earlier count, which is not negative;
    [is_new] tells whether the earlier count is 0; the reported growth is
    above 0.5 and is never infinite; and the trend is "rising". *)
Theorem burst_entries_shape `{SetOrder} (papers : list paper) :
  NoDup (map burst_keyword (detect_burst_words papers))
  /\ Forall (fun e =>
               0 <= earlier_freq e < recent_freq e
               /\ is_new e = bool_decide (earlier_freq e = 0)
               /\ num_ltb (PyFloat (Fin (1 # 2))) (growth_rate e) = true
               /\ growth_rate e <> PyFloat PosInf
               /\ trend e = "rising")
            (detect_burst_words papers).
Proof.
  split.
  - unfold detect_burst_words. case_decide; [constructor|].
    rewrite (sorted_by_perm burst_key_ltb (burst_candidates papers)).
    unfold burst_candidates. cbv zeta.
    apply (sublist_NoDup _ (recent_keywords papers).*1);
      [apply recent_keywords_NoDup|].
    generalize (earlier_keywords papers) as earlier.
    generalize (recent_keywords papers) as recent.
    intros recent earlier. induction recent as [|[kw rf] recent IH];
      cbn [omap list_omap fst snd]; [constructor|].
    rewrite fmap_cons. cbn [fst].
    destruct (burst_kept _ _); cbn [map burst_entry burst_keyword].
    + by apply sublist_skip.
    + by apply sublist_cons.
  - apply Forall_forall. intros e He.
    destruct (detect_burst_words_counts papers e He)
      as (_ & _ & Hef & Hshape & Hk).
    assert (0 <= earlier_freq e) as H0 by (rewrite Hef; lia).
    destruct (half_lt_growth _ _ H0 Hk) as (Hlt & Hg & Hfin).
    destruct e as [k r f g n t].
    cbn [burst_keyword recent_freq earlier_freq growth_rate is_new trend] in *.
    unfold burst_entry in Hshape. injection Hshape as Eg En Et.
    rewrite Eg, En, Et. split_and!; (done || lia).
Qed.

(** X9.  With at least two years, every keyword that some record of the
    recent window holds and no record of the earlier window holds is
    returned by [detect_burst_words] as a new keyword, whatever its recent
    count. *)
Theorem burst_new_keywords_kept `{SetOrder} (papers : list paper) (kw : string) :
  (2 <= length (burst_years papers))%nat ->
  window_records (recent_years papers) kw papers <> [] ->
  window_records (earlier_years papers) kw papers = [] ->
  exists e, e ∈ detect_burst_words papers
            /\ burst_keyword e = kw /\ is_new e = true.
Proof.
  intros Hlen Hrec Hear.
  pose proof (recent_keywords_get papers kw) as Hrf.
  pose proof (earlier_keywords_get papers kw) as Hef.
  rewrite Hear in Hef. cbn [length] in Hef.
  assert (1 <= counter_get kw (recent_keywords papers)) as Hpos.
  { rewrite Hrf. destruct (window_records _ _ _); [done|]. cbn [length]. lia. }
  assert (kw ∈ (recent_keywords papers).*1) as Hin.
  { destruct (decide (kw ∈ (recent_keywords papers).*1)) as [|Hn]; [done|].
    apply counter_get_notin in Hn. lia. }
  apply counter_elem_get in Hin.
  exists (burst_entry kw (counter_get kw (recent_keywords papers)) 0).
  split_and!; [|done|done].
  apply detect_burst_words_elem. split.
  { rewrite burst_years_keys, length_fmap in Hlen. done. }
  apply burst_candidates_elem.
  exists kw, (counter_get kw (recent_keywords papers)). rewrite Hef.
  split_and!; [done|done|].
  apply burst_kept_iff. unfold computed_growth. rewrite decide_True by done.
  destruct (decide (3 <= counter_get kw (recent_keywords papers)));
    [by right|left].
  unfold num_ltb, to_float, float_ltb. apply negb_true_iff.
  destruct (Qle_bool _ _) eqn:E; [|done]. apply Qle_bool_iff in E.
  assert (inject_Z 1 <= inject_Z (counter_get kw (recent_keywords papers)))%Q
    as Hq by (by rewrite <- Zle_Qle).
  change (inject_Z 1) with 1%Q in Hq. lra.
Qed.

Lemma burst_new_keywords_kept_witness :
  exists e, e ∈ @detect_burst_words last_seen_order scenario_papers
            /\ burst_keyword e = "vr" /\ is_new e = true.
Proof.
  apply (@burst_new_keywords_kept last_seen_order scenario_papers "vr").
  - vm_compute. lia.
  - vm_compute. discriminate.
  - vm_compute. reflexivity.
Defined.
(** ** The co-occurrence network *)

Lemma dict_get_counter {K} `{EqDecision K} (k : K) dflt (c : list (K * Z)) :
  k ∈ c.*1 -> dict_get k dflt c = counter_get k c.
Proof.
  induction c as [|[k0 n] c IH]; cbn [dict_get counter_get]; intros Hk.
  - by apply elem_of_nil in Hk.
  - case_decide; [done|]. apply IH. set_solver.
Qed.

Lemma StronglySorted_map {A B} (R : B -> B -> Prop) (f : A -> B) l :
  StronglySorted (fun a b => R (f a) (f b)) l -> StronglySorted R (map f l).
Proof.
  induction 1 as [|x l Hs IH Hx]; cbn [map]; constructor; [done|].
  apply Forall_map. eapply Forall_impl; [exact Hx|]. done.
Qed.

Section NetworkFacts.
Context `{SetOrder}.

(** The nodes are the first rows of the aggregate table. *)
Lemma network_nodes_table papers top_n :
  nodes (build_cooccurrence_network papers top_n)
  = map (fun kn : string * Z =>
           {| node_id := kn.1; node_label := kn.1; node_size := kn.2 |})
        (take top_n (analyze_keywords papers)).
Proof.
  unfold build_cooccurrence_network, top_keywords. cbn [nodes].
  change (map fst (analyze_keywords papers))
    with (fst <$> analyze_keywords papers).
  rewrite <- fmap_take.
  change (map ?f ?l) with (f <$> l). rewrite <- list_fmap_compose.
  apply map_ext_in. intros [k n] Hin%list_elem_of_In. cbn [fst snd compose].
  f_equal. apply (subseteq_take top_n) in Hin.
  rewrite dict_get_counter by (apply list_elem_of_fmap; by exists (k, n)).
  apply counter_get_elem; [apply analyze_keywords_NoDup|done].
Qed.

Lemma network_edge_pair papers top_n e :
  e ∈ edges (build_cooccurrence_network papers top_n) ->
  ((source e, target e), weight e) ∈ cooccurrence top_n papers
  /\ 2 <= weight e.
Proof.
  unfold build_cooccurrence_network. cbn [edges]. intros He.
  apply (subseteq_take 200), sorted_by_elem in He.
  apply list_elem_of_omap in He as ([[s t] w] & Hin & Hf). cbn [fst snd] in Hf.
  case_decide; [|done]. by simplify_eq.
Qed.

Lemma cooccurrence_NoDup papers top_n : NoDup (cooccurrence top_n papers).*1.
Proof.
  by destruct (cooccurrence_from (top_keywords top_n papers) papers [])
    as (Hnd & _); [constructor|].
Qed.
End NetworkFacts.

(** X10.  The graph of [build_cooccurrence_network] has at most [top_n]
    nodes, with distinct identifiers; the label of a node is its
    identifier, its size is the number of records whose keyword source
    holds it, which is at least 1; and the nodes are in descending order of
    size. *)
Theorem cooccurrence_network_nodes `{SetOrder} (papers : list paper)
    (top_n : nat) :
  let g := build_cooccurrence_network papers top_n in
  (length (nodes g) <= top_n)%nat
  /\ NoDup (map node_id (nodes g))
  /\ Forall (fun v =>
               node_label v = node_id v
               /\ 1 <= node_size v
               /\ node_size v
                  = Z.of_nat (length (filter
                       (fun p => node_id v ∈ aggregate_source p) papers)))
            (nodes g)
  /\ StronglySorted (fun a b => node_size b <= node_size a) (nodes g).
Proof.
  cbv zeta. rewrite network_nodes_table. split_and!.
  - rewrite length_map, length_take. lia.
  - change (map ?f ?l) with (f <$> l). rewrite <- list_fmap_compose.
    change (_ ∘ _) with (@fst string Z). rewrite fmap_take.
    eapply sublist_NoDup; [apply analyze_keywords_NoDup|apply sublist_take].
  - apply Forall_map, Forall_forall. intros [k n] Hin.
    apply (subseteq_take top_n) in Hin.
    cbn [node_label node_id node_size fst snd].
    split; [done|]. by apply analyze_keywords_elem.
  - apply StronglySorted_map. cbn [node_size].
    apply StronglySorted_take, most_common_sorted.
Qed.

(** X11.  Both ends of every edge of the graph are nodes of the graph,
    they differ, and the source is before the target in the order of
    strings; no pair of keywords has two edges. *)
Theorem cooccurrence_network_edge_ends `{SetOrder} (papers : list paper)
    (top_n : nat) :
  let g := build_cooccurrence_network papers top_n in
  Forall (fun e =>
            source e ∈ map node_id (nodes g)
            /\ target e ∈ map node_id (nodes g)
            /\ source e <> target e
            /\ String.ltb (target e) (source e) = false)
         (edges g)
  /\ NoDup (map (fun e => (source e, target e)) (edges g)).
Proof.
  cbv zeta. split.
  - apply Forall_forall. intros e He.
    destruct (network_edge_pair papers top_n e He) as [Hin Hw].
    destruct (cooccurrence_weight top_n papers _ _ Hin) as [[Hne Hlt] Hlen].
    cbn [fst snd] in Hne, Hlt, Hlen.
    assert (map node_id (nodes (build_cooccurrence_network papers top_n))
            = top_keywords top_n papers) as ->.
    { unfold build_cooccurrence_network. cbn [nodes].
      rewrite map_map. apply map_id. }
    destruct (records_with_both _ _ _ papers) as [|p l] eqn:E;
      [cbn [length] in Hlen; lia|].
    assert (p ∈ records_with_both (top_keywords top_n papers)
                  (source e) (target e) papers) as Hp by (rewrite E; left).
    apply list_elem_of_filter in Hp as [[[_ Hs] [_ Ht]] _].
    done.
  - unfold build_cooccurrence_network. cbn [edges].
    change (map ?f ?l) with (f <$> l). rewrite fmap_take.
    eapply sublist_NoDup; [|apply sublist_take].
    rewrite (sorted_by_perm _ _).
    eapply sublist_NoDup; [apply (cooccurrence_NoDup papers top_n)|].
    generalize (cooccurrence top_n papers) as c.
    induction c as [|[[s t] w] c IH]; cbn [omap list_omap fst snd];
      [constructor|].
    rewrite fmap_cons. cbn [fst].
    case_decide; cbn [fmap list_fmap source target].
    + by apply sublist_skip.
    + by apply sublist_cons.
Qed.
(** ** The topic clusterer *)

(** The inner loop takes its words from [related] in order, each once. *)
Lemma grow_topic_sublist_from (used : list string) related (tw0 : list string) :
  exists ext,
    foldl (fun topic_words (wc : string * Z) =>
             if decide ((wc.1 ∉ used) /\ (length topic_words < 15)%nat)
             then topic_words ++ [wc.1] else topic_words) tw0 related
    = tw0 ++ ext
    /\ ext `sublist_of` related.*1.
Proof.
  revert tw0. induction related as [|[w c] related IH]; intros tw0; cbn [foldl].
  - exists []. by rewrite app_nil_r.
  - cbn [fst]. rewrite fmap_cons. cbn [fst]. case_decide as Hc.
    + destruct (IH (tw0 ++ [w])) as (ext & Heq & Hext).
      exists (w :: ext). split; [by rewrite Heq, <- app_assoc|].
      by apply sublist_skip.
    + destruct (IH tw0) as (ext & Heq & Hext).
      exists ext. split; [done|]. by apply sublist_cons.
Qed.

Lemma grow_topic_sublist (used : list string) seed related :
  exists rest,
    grow_topic used seed related = seed :: rest
    /\ rest `sublist_of` related.*1.
Proof. apply (grow_topic_sublist_from used related [seed]). Qed.

Section ClusterExtras.
Context `{SetOrder} `{FloatArith}.

(** A property of topics that holds of every topic the loop can build holds
    of all the topics returned. *)
Lemma cluster_Forall (Q : topic -> Prop) n_topics documents seeds used topics :
  Forall Q topics ->
  (forall seed used' i,
     seed ∈ seeds ->
     let tw := grow_topic used' seed
                 (most_common_n 20
                    (dict_get seed [] (word_cooccurrence documents))) in
     (3 <= length tw)%nat ->
     Q {| topic_id := i; topic_keywords := tw;
          topic_label := _generate_topic_label tw;
          topic_description := _generate_topic_description tw;
          document_count := _count_topic_documents documents tw |}) ->
  Forall Q (cluster n_topics documents seeds used topics).
Proof.
  revert used topics.
  induction seeds as [|seed seeds IH]; intros used topics Htopics Hnew;
    cbn [cluster]; [done|].
  assert (forall seed0 used' i,
     seed0 ∈ seeds ->
     let tw := grow_topic used' seed0
                 (most_common_n 20
                    (dict_get seed0 [] (word_cooccurrence documents))) in
     (3 <= length tw)%nat ->
     Q {| topic_id := i; topic_keywords := tw;
          topic_label := _generate_topic_label tw;
          topic_description := _generate_topic_description tw;
          document_count := _count_topic_documents documents tw |}) as Hnew'.
  { intros s u i Hs. apply Hnew. by right. }
  case_decide; [by apply IH|]. case_decide; [done|]. cbv zeta.
  case_decide as H3; [|by apply IH].
  apply IH; [|done]. apply Forall_app. split; [done|].
  constructor; [|constructor]. apply Hnew; [left|done].
Qed.

(** The topics are numbered from 1 in the order of their creation, and
    there are at most [n_topics] of them. *)
Lemma cluster_ids n_topics documents seeds used topics :
  map topic_id topics = map Z.of_nat (seq 1 (length topics)) ->
  Z.of_nat (length topics) <= Z.max 0 n_topics ->
  let out := cluster n_topics documents seeds used topics in
  map topic_id out = map Z.of_nat (seq 1 (length out))
  /\ Z.of_nat (length out) <= Z.max 0 n_topics.
Proof.
  revert used topics.
  induction seeds as [|seed seeds IH]; intros used topics Hids Hlen;
    cbn [cluster]; [done|].
  case_decide; [by apply IH|]. case_decide; [done|]. cbv zeta.
  case_decide as H3; [|by apply IH].
  apply IH.
  - rewrite map_app, length_app, Hids. cbn [map topic_id length].
    rewrite seq_app, map_app. cbn [seq map]. do 3 f_equal. lia.
  - rewrite length_app. cbn [length]. lia.
Qed.
End ClusterExtras.

(** X12.  The topics returned by [lda_topic_modeling] are numbered 1, 2,
    ... in the order of the list; there are at most [n_topics] of them, and
    none when [n_topics] is not positive; and the label, the description
    and the document count of a topic are those computed from its
    keywords. *)
Theorem lda_topics_numbered `{SetOrder} `{FloatArith} (n_topics : Z)
    (papers : list paper) :
  let topics := lda_topic_modeling n_topics papers in
  map topic_id topics = map Z.of_nat (seq 1 (length topics))
  /\ Z.of_nat (length topics) <= Z.max 0 n_topics
  /\ Forall (fun t =>
               topic_label t = _generate_topic_label (topic_keywords t)
               /\ topic_description t
                  = _generate_topic_description (topic_keywords t)
               /\ document_count t
                  = _count_topic_documents (documents_of papers)
                      (topic_keywords t))
            topics.
Proof.
  cbv zeta. unfold lda_topic_modeling. cbv zeta.
  destruct (cluster_ids n_topics (documents_of papers)
              (seed_words (documents_of papers)) [] []) as [Hids Hlen];
    [done|cbn [length]; lia|].
  split_and!; [done|done|].
  apply cluster_Forall; [constructor|]. intros seed used' i _ tw _. done.
Qed.

Lemma NoDup_count {A} `{EqDecision A} (k : A) l :
  NoDup l ->
  length (filter (k =.) l) = if decide (k ∈ l) then 1%nat else 0%nat.
Proof.
  intros Hnd. case_decide as Hk.
  - by rewrite filter_eq_NoDup.
  - by rewrite filter_eq_notin.
Qed.

Lemma word_freq_from (documents : list (list string)) (c0 : list (string * Z)) w :
  Forall NoDup documents -> NoDup c0.*1 ->
  let c := foldl (fun c doc => counter_update doc c) c0 documents in
  NoDup c.*1
  /\ counter_get w c
     = counter_get w c0
       + Z.of_nat (length (filter (fun doc => w ∈ doc) documents)).
Proof.
  intros Hdocs. revert c0.
  induction Hdocs as [|doc documents Hdoc Hdocs IH]; intros c0 Hc0;
    cbn [foldl].
  - split; [done|]. rewrite filter_nil. simpl. lia.
  - destruct (IH (counter_update doc c0)) as [IH1 IH2].
    { by apply counter_update_NoDup. }
    split; [done|]. cbv zeta in IH2.
    rewrite IH2, counter_get_update, NoDup_count, filter_cons by done.
    repeat case_decide; try done; rewrite ?length_cons; lia.
Qed.

Section ValidWords.
Context `{SetOrder} `{FloatArith}.

Lemma documents_of_NoDup papers : Forall NoDup (documents_of papers).
Proof.
  unfold documents_of. apply Forall_map, Forall_forall. intros p _.
  apply set_iter_NoDup.
Qed.

Lemma min_freq_at_least_2 documents n :
  num_ltb (PyInt n) (min_freq documents) = false -> 2 <= n.
Proof.
  unfold min_freq. cbv zeta.
  destruct (num_ltb (PyInt 2) _) eqn:E; intros Hn.
  - unfold num_ltb, to_float, float_ltb in *.
    apply negb_true_iff, Qle_bool_false in E.
    apply negb_false_iff, Qle_bool_iff in Hn.
    assert (inject_Z 2 < inject_Z n)%Q as Hq by lra.
    rewrite <- Zlt_Qlt in Hq. lia.
  - unfold num_ltb, to_float, float_ltb in Hn.
    apply negb_false_iff, Qle_bool_iff in Hn.
    by rewrite <- Zle_Qle in Hn.
Qed.

(** A valid word is in at least two documents. *)
Lemma valid_words_frequent documents w :
  Forall NoDup documents ->
  w ∈ valid_words documents ->
  (2 <= length (filter (fun doc => w ∈ doc) documents))%nat.
Proof.
  intros Hdocs Hw. unfold valid_words in Hw.
  apply list_elem_of_omap in Hw as ([w' f] & Hin & Hf). cbn [fst snd] in Hf.
  destruct (num_ltb _ _) eqn:E; [done|]. simplify_eq.
  apply min_freq_at_least_2 in E.
  destruct (word_freq_from documents [] w Hdocs) as [Hnd Hget]; [constructor|].
  cbv zeta in Hget. fold (word_freq documents) in Hnd, Hget.
  rewrite (counter_get_elem w f) in Hget by done.
  cbn [counter_get] in Hget. lia.
Qed.

Lemma related_ok_alter valid c a b :
  a <> b -> a ∈ valid -> related_ok valid c ->
  related_ok valid (dict_alter (counter_add a 1) [] b c).
Proof.
  intros Hab Ha Hc w. rewrite dict_get_alter.
  destruct (Hc w) as (Hnd & Hw & Hval). case_decide as E; [|done]. subst w.
  split_and!.
  - by apply counter_add_NoDup.
  - rewrite counter_add_elem_keys. intros [?|?]; [by subst|done].
  - intros x. rewrite counter_add_elem_keys. intros [->|?]; [done|by apply Hval].
Qed.

Lemma ordered_pairs_elem l a b :
  NoDup l -> (a, b) ∈ ordered_pairs l -> a <> b /\ a ∈ l /\ b ∈ l.
Proof.
  induction 1 as [|x l Hx Hnd IH]; cbn [ordered_pairs];
    [by intros ?%elem_of_nil|].
  rewrite elem_of_app. intros [Hin|Hin].
  - apply list_elem_of_fmap in Hin as (y & Heq & Hy). simplify_eq.
    split_and!; [by intros ->|left|by right].
  - destruct (IH Hin) as (? & ? & ?). split_and!; [done|by right..].
Qed.

Lemma related_ok_pairs valid c pairs :
  Forall (fun ab => ab.1 <> ab.2 /\ ab.1 ∈ valid /\ ab.2 ∈ valid) pairs ->
  related_ok valid c -> related_ok valid (foldl cooccur c pairs).
Proof.
  intros Hp. revert c.
  induction Hp as [|[a b] pairs (Hne & Ha & Hb) _ IH]; intros c Hc;
    cbn [foldl]; [done|].
  apply IH. unfold cooccur. cbn [fst snd] in *.
  apply related_ok_alter; [done..|].
  apply related_ok_alter; [by intros ->|done|done].
Qed.

Lemma word_cooccurrence_ok documents :
  Forall NoDup documents ->
  related_ok (valid_words documents) (word_cooccurrence documents).
Proof.
  intros Hdocs. unfold word_cooccurrence.
  generalize (valid_words documents) as valid. intros valid.
  assert (related_ok valid []) as Hnil.
  { intros w. cbn. split_and!; [constructor|by intros ?%elem_of_nil|].
    by intros x ?%elem_of_nil. }
  revert Hnil. generalize (@nil (string * list (string * Z))) as c0.
  induction Hdocs as [|doc documents Hdoc Hdocs IH]; intros c0 Hc0;
    cbn [foldl]; [done|].
  apply IH. apply related_ok_pairs; [|done].
  apply Forall_forall. intros [a b] Hab.
  apply ordered_pairs_elem in Hab as (Hne & Ha & Hb);
    [|by apply NoDup_filter].
  apply list_elem_of_filter in Ha as [Ha _].
  apply list_elem_of_filter in Hb as [Hb _]. done.
Qed.

(** The words of a topic built from a seed. *)
Lemma grow_topic_words documents seed used :
  Forall NoDup documents ->
  seed ∈ seed_words documents ->
  let tw := grow_topic used seed
              (most_common_n 20
                 (dict_get seed [] (word_cooccurrence documents))) in
  NoDup tw /\ (forall w, w ∈ tw -> w ∈ valid_words documents)
  /\ seed ∈ tw.
Proof.
  intros Hdocs Hseed. cbv zeta.
  assert (seed ∈ valid_words documents) as Hvalid.
  { unfold seed_words in Hseed. cbv zeta in Hseed.
    by rewrite sorted_by_elem, set_iter_elem in Hseed. }
  destruct (word_cooccurrence_ok documents Hdocs seed) as (Hnd & Hself & Hval).
  set (related := most_common_n 20 _).
  assert (related.*1 `sublist_of` (most_common
            (dict_get seed [] (word_cooccurrence documents))).*1) as Hsub.
  { unfold related, most_common_n. rewrite fmap_take. apply sublist_take. }
  assert (NoDup related.*1) as Hrnd.
  { eapply sublist_NoDup; [|exact Hsub]. by apply most_common_NoDup. }
  assert (forall x, x ∈ related.*1 ->
            x ∈ (dict_get seed [] (word_cooccurrence documents)).*1) as Hrin.
  { intros x Hx. apply (elem_of_sublist _ _ _ Hx) in Hsub as Hx'.
    by rewrite most_common_perm in Hx'. }
  destruct (grow_topic_sublist used seed related) as (rest & -> & Hrest).
  split_and!.
  - apply NoDup_cons. split.
    + intros Hin. apply Hself, Hrin. by eapply elem_of_sublist.
    + by eapply sublist_NoDup.
  - intros w [->|Hw]%elem_of_cons; [done|].
    apply Hval, Hrin. by eapply elem_of_sublist.
  - left.
Qed.
End ValidWords.

(** X13.  In every topic returned by [lda_topic_modeling] the keywords
    are distinct, each keyword is in at least two documents, and the
    document count is at least 2 and at most the number of records. *)
Theorem lda_topic_words `{SetOrder} `{FloatArith} (n_topics : Z)
    (papers : list paper) :
  Forall (fun t =>
            NoDup (topic_keywords t)
            /\ (forall w, w ∈ topic_keywords t ->
                  (2 <= length (filter (fun doc => w ∈ doc)
                                  (documents_of papers)))%nat)
            /\ 2 <= document_count t <= Z.of_nat (length papers))
         (lda_topic_modeling n_topics papers).
Proof.
  unfold lda_topic_modeling. cbv zeta.
  apply cluster_Forall; [constructor|].
  intros seed used' i Hseed tw _.
  pose proof (documents_of_NoDup papers) as Hdocs.
  destruct (grow_topic_words (documents_of papers) seed used' Hdocs Hseed)
    as (Hnd & Hval & Hin).
  fold tw in Hnd, Hval, Hin.
  cbn [topic_keywords document_count]. split_and!; [done| | |].
  - intros w Hw. by apply valid_words_frequent, Hval.
  - unfold _count_topic_documents.
    pose proof (valid_words_frequent _ seed Hdocs (Hval seed Hin)) as H2.
    pose proof (filter_length_mono (fun doc : list string => seed ∈ doc)
                  (fun doc : list string => Exists (.∈ doc) tw)
                  (documents_of papers)) as Hm.
    assert (forall doc : list string, seed ∈ doc -> Exists (.∈ doc) tw)
      as Himp.
    { intros doc Hd. apply Exists_exists. by exists seed. }
    specialize (Hm Himp). lia.
  - unfold _count_topic_documents.
    pose proof (length_filter (fun doc => Exists (.∈ doc) tw)
                  (documents_of papers)) as Hf.
    unfold documents_of in Hf at 2. rewrite length_map in Hf. lia.
Qed.
(** ** The gap miner *)

Lemma dict_get_elem {K V} `{EqDecision K} (k : K) (v dflt : V)
    (d : list (K * V)) :
  NoDup d.*1 -> (k, v) ∈ d -> dict_get k dflt d = v.
Proof.
  induction d as [|[k0 v0] d IH]; cbn [dict_get]; intros Hnd Hin;
    [by apply elem_of_nil in Hin|].
  rewrite fmap_cons in Hnd. apply NoDup_cons in Hnd as [Hk0 Hnd].
  apply elem_of_cons in Hin as [Heq|Hin].
  - simplify_eq. by rewrite decide_True.
  - case_decide as E; [|by apply IH].
    subst. exfalso. apply Hk0. apply list_elem_of_fmap. by exists (k0, v).
Qed.

Lemma sum_Z_app l1 l2 : sum_Z (l1 ++ l2) = sum_Z l1 + sum_Z l2.
Proof.
  unfold sum_Z. induction l1 as [|x l1 IH]; cbn [app foldr]; lia.
Qed.

Lemma sum_Z_replicate n c : sum_Z (replicate n c) = Z.of_nat n * c.
Proof.
  unfold sum_Z. induction n as [|n IH]; cbn [replicate foldr]; lia.
Qed.

Lemma citation_keyword_freq_from papers (c0 : list (string * Z)) kw :
  NoDup c0.*1 ->
  let c := foldl (fun c p => counter_update (citation_keywords p) c)
                 c0 papers in
  NoDup c.*1
  /\ counter_get kw c = counter_get kw c0 + keyword_occurrences kw papers.
Proof.
  unfold keyword_occurrences.
  revert c0. induction papers as [|p papers IH]; intros c0 Hnd;
    cbn [foldl map sum_Z foldr].
  - split; [done|]. lia.
  - destruct (IH (counter_update (citation_keywords p) c0)) as [IH1 IH2].
    { by apply counter_update_NoDup. }
    split; [done|]. cbv zeta in IH2. rewrite IH2, counter_get_update.
    unfold occurrences, sum_Z. lia.
Qed.

Lemma citation_keyword_freq_get papers kw :
  counter_get kw (citation_keyword_freq papers)
  = keyword_occurrences kw papers.
Proof.
  destruct (citation_keyword_freq_from papers [] kw) as [_ Hget];
    [constructor|].
  cbv zeta in Hget. unfold citation_keyword_freq. rewrite Hget. simpl. lia.
Qed.

Lemma citation_keyword_freq_NoDup papers :
  NoDup (citation_keyword_freq papers).*1.
Proof.
  by destruct (citation_keyword_freq_from papers [] EmptyString) as [? _];
    [constructor|].
Qed.

(** The list behind a keyword after the inner loop of one record. *)
Lemma keyword_citations_record (c : Z) (ks : list string)
    (d : list (string * list Z)) kw :
  NoDup d.*1 ->
  let d' := foldl (fun d k => dict_alter (fun l => l ++ [c]) [] k d) d ks in
  NoDup d'.*1
  /\ dict_get kw [] d'
     = dict_get kw [] d ++ replicate (length (filter (kw =.) ks)) c.
Proof.
  revert d. induction ks as [|k ks IH]; intros d Hnd; cbn [foldl].
  - split; [done|]. rewrite filter_nil. cbn. by rewrite app_nil_r.
  - destruct (IH (dict_alter (fun l => l ++ [c]) [] k d)) as [IH1 IH2].
    { by apply dict_alter_NoDup. }
    split; [done|]. cbv zeta in IH2. rewrite IH2, dict_get_alter, filter_cons.
    repeat case_decide; simplify_eq; cbn [length replicate]; [|done].
    by rewrite <- app_assoc.
Qed.

Lemma keyword_citations_from papers (d0 : list (string * list Z)) kw :
  NoDup d0.*1 ->
  let d := foldl (fun d p =>
             foldl (fun d k =>
                      dict_alter (fun l => l ++ [default 0 (citations p)]) [] k d)
                   d (citation_keywords p)) d0 papers in
  NoDup d.*1
  /\ Z.of_nat (length (dict_get kw [] d))
     = Z.of_nat (length (dict_get kw [] d0)) + keyword_occurrences kw papers
  /\ sum_Z (dict_get kw [] d)
     = sum_Z (dict_get kw [] d0) + keyword_citation_total kw papers.
Proof.
  unfold keyword_occurrences, keyword_citation_total.
  revert d0. induction papers as [|p papers IH]; intros d0 Hnd;
    cbn [foldl map].
  - split_and!; [done|cbn; lia|cbn; lia].
  - destruct (keyword_citations_record (default 0 (citations p))
                (citation_keywords p) d0 kw Hnd) as [Hnd' Hget].
    cbv zeta in Hnd', Hget.
    destruct (IH _ Hnd') as (IH1 & IH2 & IH3). cbv zeta in IH2, IH3.
    split_and!; [done| |].
    + rewrite IH2, Hget, length_app, length_replicate.
      unfold occurrences, sum_Z. cbn [foldr]. lia.
    + rewrite IH3, Hget, sum_Z_app, sum_Z_replicate.
      unfold occurrences, sum_Z. cbn [foldr]. lia.
Qed.

Lemma keyword_citations_NoDup papers : NoDup (keyword_citations papers).*1.
Proof.
  by destruct (keyword_citations_from papers [] EmptyString) as [? _];
    [constructor|].
Qed.

Lemma keyword_citations_elem papers kw cites :
  (kw, cites) ∈ keyword_citations papers ->
  Z.of_nat (length cites) = keyword_occurrences kw papers
  /\ sum_Z cites = keyword_citation_total kw papers.
Proof.
  intros Hin.
  destruct (keyword_citations_from papers [] kw) as (Hnd & Hlen & Hsum);
    [constructor|].
  cbv zeta in Hnd, Hlen, Hsum. fold (keyword_citations papers) in Hnd, Hlen, Hsum.
  rewrite (dict_get_elem kw cites) in Hlen, Hsum by done.
  cbn [dict_get length] in Hlen, Hsum. unfold sum_Z in Hsum at 2.
  cbn [foldr] in Hsum. split; lia.
Qed.

(** The elements of [high_impact_low_freq]. *)
Lemma high_impact_low_freq_elem papers t :
  t ∈ high_impact_low_freq papers ->
  frequency t = keyword_occurrences (potential_keyword t) papers
  /\ 2 <= frequency t < 5
  /\ avg_citations t
     = py_truediv (keyword_citation_total (potential_keyword t) papers)
         (frequency t)
  /\ num_ltb (PyInt 10) (avg_citations t) = true.
Proof.
  unfold high_impact_low_freq. cbv zeta. rewrite sorted_by_elem.
  intros ([kw cites] & Hin & Hf)%list_elem_of_omap. cbn [fst snd] in Hf.
  destruct (keyword_citations_elem papers kw cites Hin) as [Hlen Hsum].
  case_decide as H2; [|done].
  destruct (num_ltb _ _) eqn:Havg; [|done].
  destruct (bool_decide _) eqn:Hfreq; [|done]. cbn [andb] in Hf.
  apply bool_decide_eq_true in Hfreq.
  rewrite citation_keyword_freq_get in Hf, Hfreq. simplify_eq.
  cbn [frequency potential_keyword avg_citations].
  split_and!; [done|lia|lia| |done].
  by rewrite Hlen, Hsum.
Qed.

Lemma high_impact_low_freq_NoDup papers :
  NoDup (map potential_keyword (high_impact_low_freq papers)).
Proof.
  unfold high_impact_low_freq. cbv zeta.
  rewrite (sorted_by_perm _ _).
  apply (sublist_NoDup _ (keyword_citations papers).*1);
    [apply keyword_citations_NoDup|].
  generalize (citation_keyword_freq papers) as freq.
  generalize (keyword_citations papers) as kc.
  intros kc freq. induction kc as [|[kw cites] kc IH];
    cbn [omap list_omap fst snd]; [constructor|].
  rewrite fmap_cons. cbn [fst].
  destruct (decide _); [|by apply sublist_cons].
  destruct (_ && _); cbn [map potential_keyword].
  - by apply sublist_skip.
  - by apply sublist_cons.
Qed.

Lemma high_impact_low_freq_sorted papers :
  StronglySorted
    (fun a b => num_ltb (avg_citations a) (avg_citations b) = false)
    (high_impact_low_freq papers).
Proof.
  unfold high_impact_low_freq. cbv zeta.
  eapply StronglySorted_weaken; [|apply sorted_by_sorted].
  - intros a b Hab. cbn in Hab. by rewrite num_neg_ltb in Hab.
  - intros a b. rewrite !num_neg_ltb. apply float_ltb_asym.
  - intros a b c. rewrite !num_neg_ltb. unfold num_ltb.
    generalize (to_float (avg_citations a)) as fa.
    generalize (to_float (avg_citations b)) as fb.
    generalize (to_float (avg_citations c)) as fc.
    intros fc fb fa Hab Hbc.
    destruct (float_ltb fa fc) eqn:E; [|done]. exfalso.
    clear -Hab Hbc E. float_cases.
Qed.
Lemma themes_from field papers (c0 : list (string * Z)) w :
  NoDup c0.*1 ->
  let c := foldl (fun c p =>
             if truthy_str (field p)
             then counter_update
                    (filter (fun w => (4 < String.length w)%nat)
                            (split (lower (default EmptyString (field p)))))
                    c
             else c) c0 papers in
  NoDup c.*1
  /\ counter_get w c = counter_get w c0 + theme_occurrences field w papers
  /\ (forall x, x ∈ c.*1 ->
        x ∈ c0.*1 \/ exists p, p ∈ papers /\ x ∈ theme_words field p).
Proof.
  revert c0. induction papers as [|p papers IH]; intros c0 Hnd; cbn [foldl].
  - split_and!; [done|unfold theme_occurrences; cbn; lia|by left].
  - assert (theme_occurrences field w (p :: papers)
            = occurrences w (theme_words field p)
              + theme_occurrences field w papers) as -> by done.
    unfold theme_words. destruct (truthy_str (field p)) eqn:E.
    + destruct (IH (counter_update
                      (filter (fun w => (4 < String.length w)%nat)
                              (split (lower (default EmptyString (field p)))))
                      c0)) as (IH1 & IH2 & IH3).
      { by apply counter_update_NoDup. }
      split_and!; [done| |].
      * cbv zeta in IH2. rewrite IH2, counter_get_update.
        unfold occurrences. lia.
      * intros x Hx. destruct (IH3 x Hx) as [Hx'|(q & Hq & Hxq)].
        -- apply counter_update_elem_keys in Hx' as [Hx'|Hx']; [|by left].
           right. exists p. split; [left|]. unfold theme_words. by rewrite E.
        -- right. exists q. split; [by right|done].
    + destruct (IH c0 Hnd) as (IH1 & IH2 & IH3).
      split_and!; [done| |].
      * cbv zeta in IH2. rewrite IH2. unfold occurrences. cbn. lia.
      * intros x Hx. destruct (IH3 x Hx) as [Hx'|(q & Hq & Hxq)]; [by left|].
        right. exists q. split; [by right|done].
Qed.

Lemma theme_words_long field p w :
  w ∈ theme_words field p -> (4 < String.length w)%nat.
Proof.
  unfold theme_words. destruct (truthy_str (field p));
    [|by intros ?%elem_of_nil].
  by intros [? _]%list_elem_of_filter.
Qed.

Lemma common_themes_spec field papers :
  NoDup (common_themes field papers)
  /\ Forall (fun w => (4 < String.length w)%nat
                      /\ 2 <= theme_occurrences field w papers)
            (common_themes field papers).
Proof.
  destruct (themes_from field papers [] EmptyString) as (Hnd & _ & Hkeys);
    [constructor|].
  cbv zeta in Hnd, Hkeys. fold (themes field papers) in Hnd, Hkeys.
  assert (NoDup (most_common_n 20 (themes field papers)).*1) as Hnd20.
  { unfold most_common_n. rewrite fmap_take.
    eapply sublist_NoDup; [|apply sublist_take]. by apply most_common_NoDup. }
  split.
  - unfold common_themes.
    apply (sublist_NoDup _ (most_common_n 20 (themes field papers)).*1);
      [done|].
    generalize (most_common_n 20 (themes field papers)) as l.
    induction l as [|[w c] l IH]; cbn [omap list_omap fst snd]; [constructor|].
    rewrite fmap_cons. cbn [fst].
    case_decide; [by apply sublist_skip|by apply sublist_cons].
  - apply Forall_forall. intros w Hw. unfold common_themes in Hw.
    apply list_elem_of_omap in Hw as ([w' c] & Hin & Hf). cbn [fst snd] in Hf.
    case_decide as Hc; [|done]. simplify_eq.
    unfold most_common_n in Hin. apply (subseteq_take 20) in Hin.
    rewrite most_common_perm in Hin.
    destruct (themes_from field papers [] w) as (_ & Hget & _);
      [constructor|].
    cbv zeta in Hget. fold (themes field papers) in Hget.
    rewrite (counter_get_elem w c) in Hget by done.
    cbn [counter_get] in Hget. split; [|lia].
    destruct (Hkeys w) as [Hn|(p & _ & Hp)].
    + apply list_elem_of_fmap. by exists (w, c).
    + by apply elem_of_nil in Hn.
    + by eapply theme_words_long.
Qed.

(** Where a gap of the report comes from. *)
Lemma research_gap_origin papers g :
  g ∈ identify_research_gaps papers ->
  (gap_id g = 1 /\ g ∈ future_gap papers)
  \/ (gap_id g = 2 /\ g ∈ limitation_gap papers)
  \/ (gap_id g = 3 /\ g ∈ impact_gap papers)
  \/ (gap_id g = 4 /\ g ∈ technology_gap papers).
Proof.
  unfold identify_research_gaps. rewrite !elem_of_app.
  intros [Hg|[Hg|[Hg|Hg]]].
  - left. split; [|done]. unfold future_gap in Hg. cbv zeta in Hg.
    destruct (common_themes _ _); [by apply elem_of_nil in Hg|].
    by apply list_elem_of_singleton in Hg as ->.
  - right. left. split; [|done]. unfold limitation_gap in Hg. cbv zeta in Hg.
    destruct (common_themes _ _); [by apply elem_of_nil in Hg|].
    by apply list_elem_of_singleton in Hg as ->.
  - right. right. left. split; [|done]. unfold impact_gap in Hg.
    destruct (high_impact_low_freq _); [by apply elem_of_nil in Hg|].
    by apply list_elem_of_singleton in Hg as ->.
  - right. right. right. split; [|done]. unfold technology_gap in Hg.
    cbv zeta in Hg.
    destruct (tech_gaps _); [by apply elem_of_nil in Hg|].
    by apply list_elem_of_singleton in Hg as ->.
Qed.

Lemma emerging_tech_NoDup : NoDup emerging_tech.
Proof. apply (bool_decide_unpack _). vm_compute. exact I. Qed.

(** X14.  The identifiers of the gaps returned by
    [identify_research_gaps] are taken from 1, 2, 3, 4 in that order, each
    at most once.  Every gap has between 1 and 10 keywords, all distinct,
    and the key [potential_topics] is present in the gap 3 only. *)
Theorem research_gaps_numbered (papers : list paper) :
  map gap_id (identify_research_gaps papers) `sublist_of` [1; 2; 3; 4]
  /\ Forall (fun g =>
               (1 <= length (gap_keywords g) <= 10)%nat
               /\ NoDup (gap_keywords g)
               /\ (potential_topics g <> None <-> gap_id g = 3))
            (identify_research_gaps papers).
Proof.
  split.
  - unfold identify_research_gaps. rewrite !map_app.
    change [1; 2; 3; 4] with ([1] ++ [2] ++ [3] ++ [4]).
    repeat apply sublist_app.
    + unfold future_gap. cbv zeta. destruct (common_themes _ _); cbn [map gap_id];
        [apply sublist_nil_l|done].
    + unfold limitation_gap. cbv zeta.
      destruct (common_themes _ _); cbn [map gap_id]; [apply sublist_nil_l|done].
    + unfold impact_gap.
      destruct (high_impact_low_freq _); cbn [map gap_id];
        [apply sublist_nil_l|done].
    + unfold technology_gap. cbv zeta.
      destruct (tech_gaps _); cbn [map gap_id]; [apply sublist_nil_l|done].
  - apply Forall_forall. intros g Hg.
    destruct (research_gap_origin papers g Hg)
      as [[Hid Hin]|[[Hid Hin]|[[Hid Hin]|[Hid Hin]]]].
    + unfold future_gap in Hin. cbv zeta in Hin.
      destruct (common_themes_spec future_research papers) as [Hnd _].
      destruct (common_themes future_research papers) as [|w l] eqn:E;
        [by apply elem_of_nil in Hin|].
      apply list_elem_of_singleton in Hin as ->.
      cbn [gap_keywords potential_topics gap_id]. split_and!.
      * cbn [take length]. lia.
      * rewrite length_take. lia.
      * eapply sublist_NoDup; [exact Hnd|apply sublist_take].
      * split; [done|lia].
    + unfold limitation_gap in Hin. cbv zeta in Hin.
      destruct (common_themes_spec limitations papers) as [Hnd _].
      destruct (common_themes limitations papers) as [|w l] eqn:E;
        [by apply elem_of_nil in Hin|].
      apply list_elem_of_singleton in Hin as ->.
      cbn [gap_keywords potential_topics gap_id]. split_and!.
      * cbn [take length]. lia.
      * rewrite length_take. lia.
      * eapply sublist_NoDup; [exact Hnd|apply sublist_take].
      * split; [done|lia].
    + unfold impact_gap in Hin.
      pose proof (high_impact_low_freq_NoDup papers) as Hnd.
      destruct (high_impact_low_freq papers) as [|t l] eqn:E;
        [by apply elem_of_nil in Hin|].
      apply list_elem_of_singleton in Hin as ->.
      cbn [gap_keywords potential_topics gap_id]. split_and!.
      * cbn [take map length]. lia.
      * rewrite length_map, length_take. lia.
      * change (map ?f ?l) with (f <$> l). rewrite fmap_take.
        eapply sublist_NoDup; [exact Hnd|apply sublist_take].
      * done.
    + unfold technology_gap in Hin. cbv zeta in Hin.
      assert (NoDup (tech_gaps papers)) as Hnd.
      { unfold tech_gaps. apply NoDup_filter, emerging_tech_NoDup. }
      assert (length (tech_gaps papers) <= 7)%nat as Hlen.
      { unfold tech_gaps. apply (length_filter _ emerging_tech). }
      destruct (tech_gaps papers) as [|t l] eqn:E;
        [by apply elem_of_nil in Hin|].
      apply list_elem_of_singleton in Hin as ->.
      cbn [gap_keywords potential_topics gap_id]. split_and!.
      * cbn [length]. lia.
      * lia.
      * done.
      * split; [done|lia].
Qed.

Lemma common_themes_sources field papers w :
  w ∈ common_themes field papers ->
  (1 <= length (filter (fun p => truthy_str (field p) = true) papers))%nat.
Proof.
  intros Hw. unfold common_themes in Hw.
  apply list_elem_of_omap in Hw as ([w' c] & Hin & _).
  unfold most_common_n in Hin. apply (subseteq_take 20) in Hin.
  rewrite most_common_perm in Hin.
  destruct (themes_from field papers [] w') as (_ & _ & Hkeys); [constructor|].
  cbv zeta in Hkeys. fold (themes field papers) in Hkeys.
  destruct (Hkeys w') as [Hn|(p & Hp & Hwp)].
  - apply list_elem_of_fmap. by exists (w', c).
  - by apply elem_of_nil in Hn.
  - assert (p ∈ filter (fun p => truthy_str (field p) = true) papers) as Hf.
    { apply list_elem_of_filter. split; [|done].
      unfold theme_words in Hwp. destruct (truthy_str (field p)); [done|].
      by apply elem_of_nil in Hwp. }
    destruct (filter _ papers); [by apply elem_of_nil in Hf|].
    cbn [length]. lia.
Qed.

(** X15.  The keywords of the gaps 1 and 2 are words of more than 4
    characters that occur at least twice, all occurrences counted, in the
    lower-cased excerpts behind [future_research] and [limitations]
    respectively; [source_count] is the number of records with such an
    excerpt, which is at least 1. *)
Theorem theme_gaps_evidence (papers : list paper) :
  Forall (fun g =>
            (gap_id g = 1 ->
               Forall (fun w => (4 < String.length w)%nat
                                /\ 2 <= theme_occurrences future_research w papers)
                      (gap_keywords g)
               /\ 1 <= source_count g
               /\ source_count g
                  = Z.of_nat (length (filter
                       (fun p => truthy_str (future_research p) = true) papers)))
            /\ (gap_id g = 2 ->
               Forall (fun w => (4 < String.length w)%nat
                                /\ 2 <= theme_occurrences limitations w papers)
                      (gap_keywords g)
               /\ 1 <= source_count g
               /\ source_count g
                  = Z.of_nat (length (filter
                       (fun p => truthy_str (limitations p) = true) papers))))
         (identify_research_gaps papers).
Proof.
  apply Forall_forall. intros g Hg.
  destruct (research_gap_origin papers g Hg)
    as [[Hid Hin]|[[Hid Hin]|[[Hid Hin]|[Hid Hin]]]];
    (split; intros Hid'; [|]); try lia.
  - unfold future_gap in Hin. cbv zeta in Hin.
    destruct (common_themes_spec future_research papers) as [_ Hall].
    pose proof (common_themes_sources future_research papers) as Hsrc.
    destruct (common_themes future_research papers) as [|w l] eqn:E;
      [by apply elem_of_nil in Hin|].
    apply list_elem_of_singleton in Hin as ->.
    cbn [gap_keywords source_count]. split_and!; [ | |done].
    + apply Forall_take, Hall.
    + specialize (Hsrc w ltac:(left)). lia.
  - unfold limitation_gap in Hin. cbv zeta in Hin.
    destruct (common_themes_spec limitations papers) as [_ Hall].
    pose proof (common_themes_sources limitations papers) as Hsrc.
    destruct (common_themes limitations papers) as [|w l] eqn:E;
      [by apply elem_of_nil in Hin|].
    apply list_elem_of_singleton in Hin as ->.
    cbn [gap_keywords source_count]. split_and!; [ | |done].
    + apply Forall_take, Hall.
    + specialize (Hsrc w ltac:(left)). lia.
Qed.

(** X16.  The gap 3 lists between 1 and 5 potential topics, in
    descending order of average citations; its keywords are theirs, and
    [source_count] is the sum of their frequencies.  The frequency of a
    potential topic is the number of times the keyword is listed, between 2
    and 4; its average is the citations of the listing records divided by
    the frequency, and is above 10. *)
Theorem impact_gap_topics (papers : list paper) :
  Forall (fun g =>
            gap_id g = 3 ->
            exists tp,
              potential_topics g = Some tp
              /\ (1 <= length tp <= 5)%nat
              /\ gap_keywords g = map potential_keyword tp
              /\ source_count g = sum_Z (map frequency tp)
              /\ StronglySorted
                   (fun a b => num_ltb (avg_citations a) (avg_citations b)
                               = false) tp
              /\ Forall (fun t =>
                     frequency t
                     = keyword_occurrences (potential_keyword t) papers
                     /\ 2 <= frequency t < 5
                     /\ avg_citations t
                        = py_truediv
                            (keyword_citation_total (potential_keyword t) papers)
                            (frequency t)
                     /\ num_ltb (PyInt 10) (avg_citations t) = true) tp)
         (identify_research_gaps papers).
Proof.
  apply Forall_forall. intros g Hg Hid.
  destruct (research_gap_origin papers g Hg)
    as [[Hid' Hin]|[[Hid' Hin]|[[Hid' Hin]|[Hid' Hin]]]]; try lia.
  unfold impact_gap in Hin.
  pose proof (high_impact_low_freq_sorted papers) as Hs.
  pose proof (high_impact_low_freq_elem papers) as Hel.
  destruct (high_impact_low_freq papers) as [|t l] eqn:E;
    [by apply elem_of_nil in Hin|].
  apply list_elem_of_singleton in Hin as ->.
  cbn [potential_topics gap_keywords source_count].
  exists (take 5 (t :: l)). split_and!; try done.
  - cbn [take length]. lia.
  - rewrite length_take. lia.
  - by apply StronglySorted_take.
  - apply Forall_take, Forall_forall. done.
Qed.

Lemma keyword_occurrences_nonneg kw papers :
  0 <= keyword_occurrences kw papers.
Proof.
  unfold keyword_occurrences, sum_Z.
  induction papers as [|p papers IH]; cbn [map foldr]; [lia|].
  unfold occurrences at 1. lia.
Qed.

Lemma sum_Z_nonneg (l : list Z) : Forall (fun x => 0 <= x) l -> 0 <= sum_Z l.
Proof.
  unfold sum_Z. induction 1 as [|x l Hx _ IH]; cbn [foldr]; lia.
Qed.

(** X17.  The gap 4 is reported exactly when one of the seven technology
    terms is listed fewer than 10 times.  Its keywords are those terms, in
    the order of the table, and [source_count] is the sum of their numbers
    of listings, at most 63. *)
Theorem technology_gap_terms (papers : list paper) :
  ((exists g, g ∈ identify_research_gaps papers /\ gap_id g = 4)
   <-> exists t, t ∈ emerging_tech /\ keyword_occurrences t papers < 10)
  /\ Forall (fun g =>
               gap_id g = 4 ->
               gap_keywords g
               = filter (fun t => keyword_occurrences t papers < 10)
                        emerging_tech
               /\ source_count g
                  = sum_Z (map (fun t => keyword_occurrences t papers)
                               (gap_keywords g))
               /\ 0 <= source_count g <= 63)
            (identify_research_gaps papers).
Proof.
  assert (tech_gaps papers
          = filter (fun t => keyword_occurrences t papers < 10) emerging_tech)
    as Htech.
  { unfold tech_gaps. apply list_filter_iff. intros t.
    by rewrite citation_keyword_freq_get. }
  assert (length (tech_gaps papers) <= 7)%nat as Hlen.
  { unfold tech_gaps. apply (length_filter _ emerging_tech). }
  assert (Forall (fun t => 0 <= keyword_occurrences t papers <= 9)
                 (tech_gaps papers)) as Hall.
  { rewrite Htech. apply Forall_forall. intros t [Hlt _]%list_elem_of_filter.
    pose proof (keyword_occurrences_nonneg t papers). lia. }
  split.
  - split.
    + intros (g & Hg & Hid).
      destruct (research_gap_origin papers g Hg)
        as [[Hid' Hin]|[[Hid' Hin]|[[Hid' Hin]|[Hid' Hin]]]]; try lia.
      unfold technology_gap in Hin. cbv zeta in Hin.
      destruct (tech_gaps papers) as [|t l] eqn:E;
        [by apply elem_of_nil in Hin|].
      exists t.
      assert (t ∈ filter (fun t => keyword_occurrences t papers < 10)
                         emerging_tech) as Ht by (rewrite <- Htech; left).
      apply list_elem_of_filter in Ht as [? ?]. done.
    + intros (t & Ht & Hlt).
      assert (t ∈ tech_gaps papers) as Hin.
      { rewrite Htech. by apply list_elem_of_filter. }
      unfold identify_research_gaps, technology_gap. cbv zeta.
      destruct (tech_gaps papers) as [|t' l] eqn:E;
        [by apply elem_of_nil in Hin|].
      eexists. split.
      * rewrite !elem_of_app. right. right. right. left.
      * done.
  - apply Forall_forall. intros g Hg Hid.
    destruct (research_gap_origin papers g Hg)
      as [[Hid' Hin]|[[Hid' Hin]|[[Hid' Hin]|[Hid' Hin]]]]; try lia.
    unfold technology_gap in Hin. cbv zeta in Hin.
    destruct (tech_gaps papers) as [|t l] eqn:E;
      [by apply elem_of_nil in Hin|].
    apply list_elem_of_singleton in Hin as ->.
    cbn [gap_keywords source_count].
    assert (map (fun t0 => counter_get t0 (citation_keyword_freq papers)) (t :: l)
            = map (fun t0 => keyword_occurrences t0 papers) (t :: l)) as ->.
    { apply map_ext. intros a. apply citation_keyword_freq_get. }
    split_and!; [done|done| |].
    + apply sum_Z_nonneg, Forall_map.
      eapply Forall_impl; [exact Hall|]. intros a Ha. cbn in Ha. lia.
    + pose proof (sum_Z_le_max
                    (map (fun t0 => keyword_occurrences t0 papers) (t :: l)) 9)
        as Hsum.
      rewrite length_map in Hsum.
      assert (Forall (fun x => x <= 9)
                (map (fun t0 => keyword_occurrences t0 papers) (t :: l))) as H9.
      { apply Forall_map. eapply Forall_impl; [exact Hall|].
        intros a Ha. cbn in Ha. lia. }
      specialize (Hsum H9). lia.
Qed.
(** ** The tokenizer *)

Lemma stem_values_clean :
  Forall (fun kv : string * string =>
            (kv.2 ∉ stopwords)
            /\ (kv.2 ∈ academic_stopwords -> kv.2 ∈ domain_terms)
            /\ (2 <= String.length kv.2)%nat
            /\ starts_lower kv.2 = true
            /\ no_upper kv.2 = true
            /\ no_underscore kv.2 = true)
         stem_mapping.
Proof. apply (bool_decide_unpack _). vm_compute. exact I. Qed.

Lemma filter_token_clean token t :
  filter_token token = Some t ->
  starts_lower token = true -> no_upper token = true ->
  (t ∉ stopwords)
  /\ (t ∈ academic_stopwords -> t ∈ domain_terms)
  /\ (2 <= String.length t)%nat
  /\ starts_lower t = true
  /\ no_upper t = true
  /\ no_underscore t = true.
Proof.
  unfold filter_token. cbv zeta.
  pose proof (replace_underscore_clean token) as Hclean.
  intros Ht Hfirst Hup.
  assert (no_upper (replace "_" " " token) = true) as Hup'.
  { unfold replace. by apply no_upper_replace_from. }
  assert (starts_lower (replace "_" " " token) = true) as Hfirst'.
  { destruct token as [|c s]; [done|]. rewrite replace_underscore_cons.
    unfold starts_lower in *.
    destruct (decide (c = "_"%char)) as [->|_];
      [vm_compute in Hfirst; discriminate|exact Hfirst]. }
  remember (replace "_" " " token) as tok eqn:Htok.
  destruct (decide (tok ∈ stopwords)) as [|Hstop]; [done|].
  destruct (decide (tok ∈ academic_stopwords /\ tok ∉ domain_terms))
    as [|Hacad]; [done|].
  destruct (decide (String.length tok < 2)%nat) as [|Hlen]; [done|].
  destruct (isdigit tok); [done|].
  assert (t = dict_get tok tok stem_mapping) as -> by congruence. clear Ht.
  destruct (dict_get_cases tok tok stem_mapping) as [Heq|Hin].
  - rewrite Heq. split_and!; try done; [|lia].
    intros Ha. destruct (decide (tok ∈ domain_terms)); [done|tauto].
  - pose proof stem_values_clean as Hfix. rewrite Forall_forall in Hfix.
    apply (Hfix _ Hin).
Qed.

Lemma match_shape_starts_lower t :
  match_shape t = true -> starts_lower t = true.
Proof.
  destruct t as [|c [|c1 r]]; try done. cbn [match_shape starts_lower].
  rewrite !andb_true_iff. by intros [[? _] _].
Qed.

Lemma match_shape_no_upper t : match_shape t = true -> no_upper t = true.
Proof.
  intros Hs. apply match_shape_in_class in Hs.
  eapply str_all_impl; [|exact Hs].
  intros c Hc. by rewrite (in_class_not_upper c Hc).
Qed.

(** X18.  No token returned by [_tokenize] is a stopword; a token is an
    academic stopword only when it is a domain term; every token has at
    least 2 characters, starts with a lower-case letter, and holds neither
    an upper-case letter nor an underscore. *)
Theorem tokenize_tokens_clean (text : string) :
  Forall (fun t =>
            (t ∉ stopwords)
            /\ (t ∈ academic_stopwords -> t ∈ domain_terms)
            /\ (2 <= String.length t)%nat
            /\ starts_lower t = true
            /\ no_upper t = true
            /\ no_underscore t = true)
         (_tokenize text).
Proof.
  apply Forall_forall. intros t Ht.
  apply tokenize_tokens in Ht as (token & Hshape & Hf).
  apply (filter_token_clean token t Hf).
  - by apply match_shape_starts_lower.
  - by apply match_shape_no_upper.
Qed.
(** ** Keywords of a text *)

Lemma counter_of_list_keys (l : list string) :
  NoDup (counter_update l []).*1
  /\ forall x, x ∈ (counter_update l []).*1 <-> x ∈ l.
Proof.
  split.
  - apply counter_update_NoDup. constructor.
  - intros x. rewrite counter_update_elem_keys. set_solver.
Qed.

Lemma counter_of_list_length (l : list string) :
  length (counter_update l []) = length (remove_dups l).
Proof.
  destruct (counter_of_list_keys l) as [Hnd Hel].
  rewrite <- (length_fmap fst). apply Permutation_length.
  apply NoDup_Permutation; [done|apply NoDup_remove_dups|].
  intros x. rewrite Hel. by rewrite elem_of_remove_dups.
Qed.

(** The second loop of [_extract_keywords_from_text]. *)
Lemma add_missing_spec (l r0 : list string) :
  NoDup r0 ->
  let r := foldl (fun result token =>
                    if decide (token ∈ result) then result
                    else result ++ [token]) r0 l in
  NoDup r /\ (forall x, x ∈ r <-> x ∈ r0 \/ x ∈ l)
  /\ exists ext, r = r0 ++ ext.
Proof.
  revert r0. induction l as [|t l IH]; intros r0 Hnd; cbn [foldl].
  - split_and!; [done|set_solver|]. exists []. by rewrite app_nil_r.
  - case_decide as Hin.
    + destruct (IH r0 Hnd) as (IH1 & IH2 & IH3).
      split_and!; [done| |done]. intros x. rewrite IH2. set_solver.
    + destruct (IH (r0 ++ [t])) as (IH1 & IH2 & ext & IH3).
      { apply NoDup_app. split_and!; [done|set_solver|apply NoDup_singleton]. }
      split_and!; [done| |].
      * intros x. rewrite IH2. set_solver.
      * exists (t :: ext). cbv zeta in IH3. by rewrite IH3, <- app_assoc.
Qed.

Lemma most_common_n_keys_sublist {K} (n : nat) (c : list (K * Z)) :
  (most_common_n n c).*1 `sublist_of` (most_common c).*1.
Proof. unfold most_common_n. rewrite fmap_take. apply sublist_take. Qed.

(** X19.  [_extract_keywords_from_text] returns at most [top_n] keywords,
    all distinct, each a token of the text.  The keywords at the head of
    the list, as many as the distinct domain terms of the text up to
    [top_n // 2], are domain terms.  A text with at most [top_n] distinct
    tokens gets all of them. *)
Theorem extract_keywords_spec (text : string) (top_n : nat) :
  let tokens := _tokenize text in
  let result := _extract_keywords_from_text text top_n in
  (length result <= top_n)%nat
  /\ NoDup result
  /\ (forall k, k ∈ result -> k ∈ tokens)
  /\ Forall (.∈ domain_terms)
       (take (Nat.min (top_n / 2)
                (length (remove_dups (filter (.∈ domain_terms) tokens))))
             result)
  /\ ((length (remove_dups tokens) <= top_n)%nat ->
      forall t, t ∈ tokens -> t ∈ result).
Proof.
  cbv zeta. unfold _extract_keywords_from_text. cbv zeta.
  set (tokens := _tokenize text).
  set (domain_found := filter (.∈ domain_terms) tokens).
  set (dom := (most_common_n (top_n / 2) (counter_update domain_found [])).*1).
  set (top := (most_common_n top_n (counter_update tokens [])).*1).
  destruct (counter_of_list_keys tokens) as [Hnd Hel].
  destruct (counter_of_list_keys domain_found) as [Hdnd Hdel].
  assert (NoDup dom) as Hdom.
  { eapply sublist_NoDup; [|apply most_common_n_keys_sublist].
    by apply most_common_NoDup. }
  assert (forall x, x ∈ dom -> x ∈ domain_found) as Hdom_el.
  { intros x Hx. apply Hdel.
    eapply elem_of_sublist in Hx; [|apply most_common_n_keys_sublist].
    by rewrite most_common_perm in Hx. }
  assert (forall x, x ∈ top -> x ∈ tokens) as Htop_el.
  { intros x Hx. apply Hel.
    eapply elem_of_sublist in Hx; [|apply most_common_n_keys_sublist].
    by rewrite most_common_perm in Hx. }
  assert (length dom
          = Nat.min (top_n / 2) (length (remove_dups domain_found))) as Hdlen.
  { unfold dom, most_common_n. rewrite length_fmap, length_take.
    unfold most_common. rewrite sorted_by_length, counter_of_list_length.
    done. }
  destruct (add_missing_spec top dom Hdom) as (Hrnd & Hrel & ext & Hext).
  cbv zeta in Hrnd, Hrel, Hext.
  set (r := foldl _ dom top) in *.
  assert (forall x, x ∈ r -> x ∈ tokens) as Hr_el.
  { intros x [Hx|Hx]%Hrel; [|by apply Htop_el].
    apply Hdom_el in Hx. by apply list_elem_of_filter in Hx as [_ ?]. }
  split_and!.
  - rewrite length_take. lia.
  - eapply sublist_NoDup; [exact Hrnd|apply sublist_take].
  - intros k Hk. apply Hr_el. by apply (subseteq_take top_n).
  - rewrite <- Hdlen, Hext.
    assert (length dom <= top_n)%nat as Hle.
    { rewrite Hdlen. pose proof (Nat.Div0.div_le_upper_bound top_n 2 top_n).
      assert (top_n / 2 <= top_n)%nat by (apply Nat.Div0.div_le_upper_bound; lia).
      lia. }
    rewrite take_take, Nat.min_l by done.
    rewrite take_app_length. apply Forall_forall. intros x Hx.
    apply Hdom_el in Hx. by apply list_elem_of_filter in Hx as [? _].
  - intros Hfew t Ht.
    assert (length r <= length (remove_dups tokens))%nat as Hrlen.
    { apply submseteq_length, NoDup_submseteq; [done|].
      intros x Hx. apply elem_of_remove_dups. by apply Hr_el. }
    rewrite take_ge by lia. apply Hrel. right.
    unfold top, most_common_n. rewrite take_ge.
    + rewrite most_common_perm. by apply Hel.
    + unfold most_common. rewrite sorted_by_length, counter_of_list_length.
      done.
Qed.

(** ** n-grams *)

(** X20.  [extract_ngrams] returns no n-gram for a text with fewer than
    [n] tokens, and otherwise one for each position at which [n] tokens
    are left.  The 1-grams are the tokens, and the 2-grams are the pairs of
    neighbouring tokens, joined by a space. *)
Theorem extract_ngrams_spec (text : string) (n : nat) :
  length (extract_ngrams text n)
  = (if decide (length (_tokenize text) < n)%nat then 0%nat
     else length (_tokenize text) - n + 1)%nat
  /\ extract_ngrams text 1 = _tokenize text
  /\ extract_ngrams text 2
     = zip_with (fun a b => a +:+ " " +:+ b) (_tokenize text)
                (drop 1 (_tokenize text)).
Proof.
  unfold extract_ngrams. cbv zeta.
  generalize (_tokenize text) as tokens. intros tokens. split_and!.
  - case_decide; [done|]. by rewrite length_map, length_seq.
  - induction tokens as [|t tokens IH]; [done|].
    rewrite decide_False by (cbn [length]; lia).
    cbn [length] in *. 
    replace (S (length tokens) - 1 + 1)%nat with (S (length tokens)) by lia.
    cbn [seq map drop take join]. rewrite take_0. f_equal.
    rewrite <- seq_shift, map_map. cbn [drop].
    destruct (decide (length tokens < 1)%nat) as [Hl|Hl].
    + destruct tokens; [done|cbn [length] in Hl; lia].
    + rewrite <- IH at 2.
      replace (length tokens - 1 + 1)%nat with (length tokens) by lia. done.
  - destruct (decide (length tokens < 2)%nat) as [Hl|Hl].
    { destruct tokens as [|t [|t' l]]; [done|done|cbn [length] in Hl; lia]. }
    replace (length tokens - 2 + 1)%nat with (length tokens - 1)%nat by lia.
    induction tokens as [|t tokens IH]; [cbn [length] in Hl; lia|].
    destruct tokens as [|t' tokens]; [cbn [length] in Hl; lia|].
    cbn [length] in *.
    replace (S (S (length tokens)) - 1)%nat with (S (length tokens)) by lia.
    cbn [seq map drop take join zip_with]. rewrite take_0. f_equal.
    rewrite <- seq_shift, map_map. cbn [drop].
    destruct tokens as [|t'' tokens]; [done|].
    apply IH. cbn [length]. lia.
Qed.
(** ** Normalised keywords *)

Lemma str_all_rev_app P s1 s2 :
  str_all P (String.rev_app s1 s2) = str_all P s1 && str_all P s2.
Proof.
  revert s2. induction s1 as [|c s1 IH]; intros s2; [done|].
  cbn [String.rev_app str_all]. rewrite IH. cbn [str_all].
  destruct (P c), (str_all P s1), (str_all P s2); done.
Qed.

Lemma str_all_rev P s : str_all P (String.rev s) = str_all P s.
Proof.
  unfold String.rev. rewrite str_all_rev_app. cbn [str_all].
  by rewrite andb_true_r.
Qed.

Lemma str_all_lstrip P s : str_all P s = true -> str_all P (lstrip s) = true.
Proof.
  induction s as [|c s IH]; [done|]. cbn [lstrip].
  destruct (is_space c); [|done]. cbn [str_all].
  rewrite andb_true_iff. intros [_ ?]. by apply IH.
Qed.

Lemma str_all_strip P s : str_all P s = true -> str_all P (strip s) = true.
Proof.
  intros Hs. unfold strip. rewrite str_all_rev. apply str_all_lstrip.
  rewrite str_all_rev. by apply str_all_lstrip.
Qed.

Lemma strip_special_upper s :
  no_upper s = true -> no_upper (strip_special s) = true.
Proof.
  unfold no_upper. induction s as [|c s IH]; [done|].
  cbn [strip_special str_all]. rewrite andb_true_iff. intros [Hc Hs].
  destruct (_ || _); [|by apply IH]. cbn [str_all]. by rewrite Hc, IH.
Qed.

Lemma strip_special_chars s : str_all keyword_char (strip_special s) = true.
Proof.
  induction s as [|c s IH]; [done|]. cbn [strip_special].
  destruct (is_word c || is_space c || bool_decide (c = "-"%char)) eqn:E;
    [|done].
  cbn [str_all]. unfold keyword_char at 1. by rewrite E, IH.
Qed.

Lemma mapping_values_clean :
  Forall (fun kv : string * string =>
            no_upper kv.2 = true /\ str_all keyword_char kv.2 = true)
         (phrase_mapping ++ stem_mapping).
Proof. apply (bool_decide_unpack _). vm_compute. exact I. Qed.

Lemma dict_get_clean (P : string -> Prop) (k : string) table :
  P k -> Forall (fun kv : string * string => P kv.2) table ->
  P (dict_get k k table).
Proof.
  intros Hk Htable. destruct (dict_get_cases k k table) as [->|Hin]; [done|].
  rewrite Forall_forall in Htable. apply (Htable _ Hin).
Qed.

(** X21.  A keyword kept by the loop of [_normalize_keywords] is neither
    a stopword nor an academic stopword, has at least 2 characters, holds
    no upper-case letter, and holds only word characters, whitespace and
    hyphens. *)
Theorem normalize_keyword_clean (kw k : string) :
  normalize_keyword kw = Some k ->
  (k ∉ stopwords) /\ (k ∉ academic_stopwords)
  /\ (2 <= String.length k)%nat
  /\ no_upper k = true
  /\ str_all keyword_char k = true.
Proof.
  unfold normalize_keyword. cbv zeta.
  set (s := strip_special (strip (lower kw))).
  assert (no_upper s = true /\ str_all keyword_char s = true) as Hs.
  { split; [|apply strip_special_chars].
    apply strip_special_upper, str_all_strip, no_upper_lower. }
  pose proof mapping_values_clean as Htables.
  apply Forall_app in Htables as [Hphrase Hstem].
  pose proof (dict_get_clean
                (fun x => no_upper x = true /\ str_all keyword_char x = true)
                s phrase_mapping Hs Hphrase) as Hs1.
  remember (dict_get s s phrase_mapping) as s1 eqn:E1.
  pose proof (dict_get_clean
                (fun x => no_upper x = true /\ str_all keyword_char x = true)
                s1 stem_mapping Hs1 Hstem) as Hs2.
  remember (dict_get s1 s1 stem_mapping) as s2 eqn:E2.
  destruct (decide (s2 ∈ stopwords \/ s2 ∈ academic_stopwords)) as [|Hstop];
    [done|].
  destruct (decide (2 <= String.length s2)%nat) as [Hlen|]; [|done].
  intros Hk. assert (k = s2) as -> by congruence.
  destruct Hs2. split_and!; (done || tauto).
Qed.

Lemma normalize_keyword_clean_witness :
  ("vr" ∉ stopwords) /\ ("vr" ∉ academic_stopwords)
  /\ (2 <= String.length "vr")%nat
  /\ no_upper "vr" = true
  /\ str_all keyword_char "vr" = true.
Proof.
  apply (normalize_keyword_clean " Virtual Reality! " "vr").
  vm_compute. reflexivity.
Defined.
(** ** The records returned by [process_papers] *)

Section Hoare.
Context `{SetOrder} `{TextFunctions}.

Lemma hoare_bind {A B} (P : heap -> Prop) (Q1 : A -> heap -> Prop)
    (Q : B -> heap -> Prop) (m : M A) (k : A -> M B) :
  hoare P m Q1 -> (forall a, hoare (Q1 a) (k a) Q) -> hoare P (m ≫= k) Q.
Proof.
  intros Hm Hk h HP b h'. unfold mbind, M_bind, bind.
  destruct (m h) as [[a|] h1] eqn:E; [|done].
  intros Hb. eapply Hk; [|exact Hb]. by eapply Hm.
Qed.

Lemma hoare_ret {A} (P : heap -> Prop) (a : A) :
  hoare P (mret a) (fun b h => b = a /\ P h).
Proof. intros h HP b h' [= <- <-]. done. Qed.

Lemma hoare_weaken {A} (P P' : heap -> Prop) (Q Q' : A -> heap -> Prop)
    (m : M A) :
  hoare P' m Q' -> (forall h, P h -> P' h) ->
  (forall a h, Q' a h -> Q a h) -> hoare P m Q.
Proof. intros Hm HP HQ h Hh a h' E. apply HQ. eapply Hm; [by apply HP|done]. Qed.

Lemma keeps_hoare {A} (I : heap -> Prop) (m : M A) :
  keeps I m -> hoare I m (fun _ => I).
Proof. intros Hk h HI a h' E. specialize (Hk h HI). by rewrite E in Hk. Qed.

Lemma keeps_bind {A B} (I : heap -> Prop) (m : M A) (k : A -> M B) :
  keeps I m -> (forall a, keeps I (k a)) -> keeps I (m ≫= k).
Proof.
  intros Hm Hk h HI. unfold mbind, M_bind, bind.
  specialize (Hm h HI). destruct (m h) as [[a|] h1]; [|done].
  by apply Hk.
Qed.

Lemma keeps_still {A} (I : heap -> Prop) (m : M A) :
  (forall h, (m h).2 = h) -> keeps I m.
Proof. intros Hm h HI. by rewrite Hm. Qed.

Lemma keeps_ret {A} (I : heap -> Prop) (a : A) : keeps I (mret a).
Proof. by apply keeps_still. Qed.

Lemma keeps_raise {A} (I : heap -> Prop) : keeps I (@raise A).
Proof. by apply keeps_still. Qed.

Lemma keeps_pass (I : heap -> Prop) : keeps I pass.
Proof. by apply keeps_still. Qed.

Lemma keeps_get_heap (I : heap -> Prop) : keeps I get_heap.
Proof. by apply keeps_still. Qed.

Lemma keeps_is_truthy (I : heap -> Prop) v : keeps I (is_truthy v).
Proof. by apply keeps_still. Qed.

Lemma keeps_as_str (I : heap -> Prop) v : keeps I (as_str v).
Proof. apply keeps_still. by destruct v. Qed.

Lemma keeps_of_option {A} (I : heap -> Prop) (o : option A) :
  keeps I (of_option o).
Proof. apply keeps_still. by destruct o. Qed.

Lemma keeps_dict_lookup (I : heap -> Prop) l k : keeps I (dict_lookup l k).
Proof.
  apply keeps_still. intros h. unfold dict_lookup.
  by destruct (h !! l) as [[]|].
Qed.

Lemma keeps_get (I : heap -> Prop) l k : keeps I (get l k).
Proof.
  unfold get. apply keeps_bind; [apply keeps_dict_lookup|].
  intros o. apply keeps_ret.
Qed.

Lemma keeps_set_items (I : heap -> Prop) v : keeps I (set_items v).
Proof.
  unfold set_items. apply keeps_bind; [apply keeps_get_heap|]. intros h.
  apply keeps_bind; [apply keeps_of_option|]. intros items.
  destruct (forallb hashable items); [apply keeps_ret|apply keeps_raise].
Qed.

Lemma keeps_py_int (I : heap -> Prop) v : keeps I (py_int v).
Proof.
  destruct v; cbn [py_int]; try apply keeps_raise; [apply keeps_ret|].
  apply keeps_bind; [apply keeps_of_option|]. intros z. apply keeps_ret.
Qed.

Lemma keeps_alloc (I : heap -> Prop) o : alloc_stable I -> keeps I (alloc o).
Proof. intros Hs h HI. unfold alloc. cbn. apply Hs; [done|apply is_fresh]. Qed.

Lemma keeps_new_list (I : heap -> Prop) l :
  alloc_stable I -> keeps I (new_list l).
Proof.
  intros Hs. unfold new_list. apply keeps_bind; [by apply keeps_alloc|].
  intros r. apply keeps_ret.
Qed.

Lemma keeps__normalize_keywords (I : heap -> Prop) v :
  alloc_stable I -> keeps I (_normalize_keywords v).
Proof.
  intros Hs. unfold _normalize_keywords.
  apply keeps_bind; [apply keeps_get_heap|]. intros h.
  apply keeps_bind; [apply keeps_of_option|]. intros kws.
  apply keeps_bind; [apply keeps_of_option|]. intros normalized.
  by apply keeps_new_list.
Qed.

Lemma copy_of_alloc_stable d out present : alloc_stable (copy_of d out present).
Proof.
  intros h l o (d' & Hout & Hsame & Hkeys) Hl. exists d'.
  split; [|done]. rewrite lookup_insert_ne; [done|].
  intros ->. apply Hl. by apply elem_of_dom.
Qed.

(** An assignment to a written key keeps what is known of the copy and
    makes the key present. *)
Lemma hoare_setitem_copy d out present k v :
  k ∈ written_keys ->
  hoare (copy_of d out present) (setitem out k v)
        (fun _ => copy_of d out (k :: present)).
Proof.
  intros Hk h (d' & Hout & Hsame & Hkeys) [] h'. unfold setitem.
  rewrite Hout. intros [= <-]. exists (<[k := v]> d'). split_and!.
  - by rewrite lookup_insert_eq.
  - intros k' Hk'. rewrite lookup_insert_ne; [by apply Hsame|].
    by intros ->.
  - constructor; [by rewrite lookup_insert_eq|].
    eapply Forall_impl; [exact Hkeys|]. intros k' Hk'. cbn in Hk'.
    destruct (decide (k = k')) as [->|Hne].
    + by rewrite lookup_insert_eq.
    + by rewrite lookup_insert_ne.
Qed.

Lemma copy_of_weaken d out present present' h :
  present' ⊆ present -> copy_of d out present h -> copy_of d out present' h.
Proof.
  intros Hsub (d' & Hout & Hsame & Hkeys). exists d'. split_and!; [done..|].
  apply Forall_forall. intros k Hk. rewrite Forall_forall in Hkeys.
  by apply Hkeys, Hsub.
Qed.

Lemma keeps_setitem_copy d out present k v :
  k ∈ written_keys -> keeps (copy_of d out present) (setitem out k v).
Proof.
  intros Hk h HI. pose proof (hoare_setitem_copy d out present k v Hk h HI tt)
    as Hh.
  destruct (setitem out k v h) as [[[]|] h'] eqn:E; cbn [snd].
  - eapply copy_of_weaken; [|by apply Hh]. set_solver.
  - unfold setitem in E. by destruct (h !! out) as [[]|]; simplify_eq.
Qed.
End Hoare.
Section SinglePaper.
Context `{SetOrder} `{TextFunctions}.

Lemma hoare_raise {A} (P : heap -> Prop) (Q : A -> heap -> Prop) :
  hoare P raise Q.
Proof. by intros h HP a h' E. Qed.

Lemma hoare_get_heap (P : heap -> Prop) :
  hoare P get_heap (fun a h => a = h /\ P h).
Proof. intros h HP a h' [= <- <-]. done. Qed.

Lemma hoare_assume {A} (phi : Prop) (P : heap -> Prop) (Q : A -> heap -> Prop)
    (m : M A) :
  (forall h, P h -> phi) -> (phi -> hoare P m Q) -> hoare P m Q.
Proof. intros Hphi Hm h HP. by apply (Hm (Hphi h HP)). Qed.

Lemma hoare_alloc_copy (h : heap) d :
  hoare (fun h0 => h0 = h) (alloc (ODict d))
        (fun p h1 => (p ∉ dom h) /\ copy_of d p [] h1).
Proof.
  intros h0 -> p h1. unfold alloc. intros [= <- <-].
  split; [apply is_fresh|]. exists d. by rewrite lookup_insert_eq.
Qed.

Lemma written_key k : bool_decide (k ∈ written_keys) = true -> k ∈ written_keys.
Proof. apply bool_decide_eq_true. Qed.

Ltac keeps_tac :=
  repeat first
    [ apply keeps_get | apply keeps_is_truthy | apply keeps_as_str
    | apply keeps_pass | apply keeps_ret | apply keeps_raise
    | apply keeps_dict_lookup | apply keeps_set_items | apply keeps_py_int
    | apply keeps_get_heap | apply keeps_of_option
    | apply keeps_new_list; apply copy_of_alloc_stable
    | apply keeps__normalize_keywords; apply copy_of_alloc_stable
    | apply keeps_alloc; apply copy_of_alloc_stable
    | apply keeps_setitem_copy; apply written_key; reflexivity
    | apply keeps_bind; [|intros ?]
    | match goal with
      | |- keeps _ (if ?b then _ else _) => destruct b
      | |- keeps _ (match ?o with Some _ => _ | None => _ end) => destruct o
      end ].

Ltac keep_step_as x :=
  eapply hoare_bind; [apply keeps_hoare; keeps_tac|intros x].

(** What [_process_single_paper] returns: a new dictionary that is a copy
    of the record, changed on written keys only, with the keys
    [keywords_normalized] and [all_keywords]. *)
Lemma process_single_paper_copy paper h p h' :
  _process_single_paper paper h = (Ok p, h') ->
  exists i d,
    paper = VRef i /\ h !! i = Some (ODict d) /\ (p ∉ dom h)
    /\ copy_of d p ["all_keywords"; "keywords_normalized"] h'.
Proof.
  assert (hoare (fun h0 => h0 = h) (_process_single_paper paper)
            (fun p h' => exists i d,
               paper = VRef i /\ h !! i = Some (ODict d) /\ (p ∉ dom h)
               /\ copy_of d p ["all_keywords"; "keywords_normalized"] h'))
    as Hspec; [|by apply Hspec].
  unfold _process_single_paper.
  destruct paper as [| | |i]; try apply hoare_raise.
  eapply hoare_bind; [apply hoare_get_heap|]. intros hh.
  apply (hoare_assume (hh = h)); [by intros h0 [-> ->]|]. intros ->.
  destruct (h !! i) as [[d|vs]|] eqn:Ei; try apply hoare_raise.
  eapply hoare_bind.
  { eapply hoare_weaken; [apply (hoare_alloc_copy h d)| |done].
    by intros h0 [_ ->]. }
  intros processed.
  apply (hoare_assume (processed ∉ dom h)); [by intros h0 [? _]|]. intros Hnew.
  eapply hoare_weaken with (P' := copy_of d processed [])
    (Q' := fun p h1 => p = processed
             /\ copy_of d processed ["all_keywords"; "keywords_normalized"] h1);
    [|by intros h0 [_ ?]
     |intros p0 h1 [-> Hc]; exists i, d; by split_and!].
  keep_step_as title_v. keep_step_as has_title. keep_step_as u1.
  keep_step_as abstract_v. keep_step_as has_abstract. keep_step_as u2.
  keep_step_as keywords_v. keep_step_as has_keywords.
  apply (hoare_bind _
           (fun _ => copy_of d processed ["keywords_normalized"])).
  { destruct has_keywords.
    - eapply hoare_bind; [apply keeps_hoare; keeps_tac|]. intros normalized.
      apply hoare_setitem_copy, written_key. reflexivity.
    - eapply hoare_bind; [apply keeps_hoare; keeps_tac|]. intros empty.
      apply hoare_setitem_copy, written_key. reflexivity. }
  intros _.
  keep_step_as normalized. keep_step_as merged_items.
  keep_step_as extracted. keep_step_as more. keep_step_as merged_list.
  apply (hoare_bind _
           (fun _ => copy_of d processed
                       ["all_keywords"; "keywords_normalized"])).
  { apply hoare_setitem_copy, written_key. reflexivity. }
  intros _.
  keep_step_as year_v. keep_step_as with_year. keep_step_as u3.
  apply hoare_ret.
Qed.
End SinglePaper.
Lemma dicts_kept_refl h : dicts_kept h h.
Proof. by intros l d. Qed.

Lemma dicts_kept_trans h1 h2 h3 :
  dicts_kept h1 h2 -> dicts_kept h2 h3 -> dicts_kept h1 h3.
Proof. intros H12 H23 l d Hl. by apply H23, H12. Qed.

Lemma dicts_kept_subseteq (h h' : heap) : h ⊆ h' -> dicts_kept h h'.
Proof. intros Hsub l d Hl. by eapply lookup_weaken. Qed.

Lemma dicts_kept_list (h : heap) (l : loc) vs vs' :
  h !! l = Some (OList vs) -> dicts_kept h (<[l := OList vs']> h).
Proof.
  intros Hl l' d Hd. rewrite lookup_insert_ne; [done|]. intros ->. congruence.
Qed.

Lemma processed_from_kept h h' inp out :
  dicts_kept h h' -> processed_from h inp out -> processed_from h' inp out.
Proof.
  intros Hk (i & o & d & -> & -> & Hi & d' & Ho & Hsame & Hkeys).
  exists i, o, d. split_and!; [done|done|by apply Hk|].
  exists d'. split_and!; [by apply Hk|done|done].
Qed.

Section ProcessRecords.
Context `{SetOrder} `{TextFunctions}.

(** The loop of [process_papers] returns, and appends to the list
    [processed] the copies of some of the records, in their order. *)
Lemma process_each_spec processed papers h records :
  h !! processed = Some (OList records) ->
  exists records' kept h',
    process_each processed papers h = (Ok tt, h')
    /\ h' !! processed = Some (OList (records ++ records'))
    /\ kept `sublist_of` papers
    /\ Forall2 (processed_from h') kept records'
    /\ dicts_kept h h'.
Proof.
  revert h records.
  induction papers as [|paper papers IH]; intros h records Hlist;
    cbn [process_each].
  - exists [], [], h. rewrite app_nil_r.
    split_and!; [done|done|done|constructor|apply dicts_kept_refl].
  - unfold mbind, M_bind, bind, try_except, is_truthy.
    destruct (frames__process_single_paper h paper h) as [Hsub _]; [done|].
    destruct (_process_single_paper paper h) as [[p|] h1] eqn:E;
      cbn [fst snd] in *.
    + destruct (process_single_paper_copy paper h p h1 E)
        as (i & d & -> & Hi & Hnew & Hcopy).
      assert (h1 !! processed = Some (OList records)) as Hlist1.
      { by eapply lookup_weaken. }
      assert (processed_from h1 (VRef i) (VRef p)) as Hfrom.
      { exists i, p, d. split_and!; [done|done| |done].
        by eapply lookup_weaken. }
      destruct (truthy h1 (VRef p)).
      * unfold append. rewrite Hlist1.
        destruct (IH (<[processed := OList (records ++ [VRef p])]> h1)
                    (records ++ [VRef p]))
          as (records' & kept & h' & Hrun & Hout & Hkept & Hall & Hd).
        { by rewrite lookup_insert_eq. }
        exists (VRef p :: records'), (VRef i :: kept), h'.
        split_and!; [done| |by apply sublist_skip| |].
        -- by rewrite Hout, <- app_assoc.
        -- constructor; [|done].
           eapply processed_from_kept; [exact Hd|].
           eapply processed_from_kept; [|exact Hfrom].
           by eapply dicts_kept_list.
        -- eapply dicts_kept_trans; [by apply dicts_kept_subseteq|].
           eapply dicts_kept_trans; [|exact Hd]. by eapply dicts_kept_list.
      * unfold pass, ret.
        destruct (IH h1 records Hlist1)
          as (records' & kept & h' & Hrun & Hout & Hkept & Hall & Hd).
        exists records', kept, h'.
        split_and!; [done|done|by apply sublist_cons|done|].
        eapply dicts_kept_trans; [by apply dicts_kept_subseteq|done].
    + unfold pass, ret.
      assert (h1 !! processed = Some (OList records)) as Hlist1.
      { by eapply lookup_weaken. }
      destruct (IH h1 records Hlist1)
        as (records' & kept & h' & Hrun & Hout & Hkept & Hall & Hd).
      exists records', kept, h'.
      split_and!; [done|done|by apply sublist_cons|done|].
      eapply dicts_kept_trans; [by apply dicts_kept_subseteq|done].
Qed.
End ProcessRecords.

(** X22.  Called on a list of records, [process_papers] returns, whatever
    the records are.  The new list that it returns holds, in the order of
    the input, a copy of each record of some sublist of the input: a
    dictionary that agrees with the record on every key that the function
    does not write and that has the keys [keywords_normalized] and
    [all_keywords]. *)
Theorem process_papers_records `{SetOrder} `{TextFunctions} (h : heap)
    (papers : loc) (items : list pyval) :
  h !! papers = Some (OList items) ->
  exists out records kept h',
    process_papers papers h = (Ok out, h')
    /\ h' !! out = Some (OList records)
    /\ kept `sublist_of` items
    /\ Forall2 (processed_from h') kept records.
Proof.
  intros Hpapers.
  unfold process_papers, mbind, M_bind, bind, alloc, get_heap, of_option.
  cbv beta iota zeta.
  assert (fresh (dom h) ∉ dom h) as Hnew by apply is_fresh.
  remember (fresh (dom h)) as processed eqn:Hp.
  assert (processed <> papers) as Hne.
  { intros ->. apply Hnew. by apply elem_of_dom. }
  assert ((<[processed := OList []]> h) !! processed = Some (OList []))
    as Hl1 by apply lookup_insert_eq.
  assert (py_iter (<[processed := OList []]> h) (VRef papers) = Some items)
    as ->.
  { cbn [py_iter]. by rewrite lookup_insert_ne, Hpapers. }
  remember (<[processed := OList []]> h) as h1 eqn:Hh.
  unfold mret, M_ret, ret. cbv beta iota.
  destruct (process_each_spec processed items h1 [] Hl1)
    as (records & kept & h' & Hrun & Hout & Hkept & Hall & _).
  rewrite Hrun. exists processed, records, kept, h'. by split_and!.
Qed.

Lemma process_papers_records_witness :
  exists out records kept h',
    @process_papers last_seen_order plain_functions 3%positive sample_heap
    = (Ok out, h')
    /\ h' !! out = Some (OList records)
    /\ kept `sublist_of` [VRef 1%positive; VInt 5]
    /\ Forall2 (processed_from h') kept records.
Proof.
  apply (@process_papers_records last_seen_order plain_functions sample_heap
           3%positive [VRef 1%positive; VInt 5]).
  vm_compute. reflexivity.
Defined.
Lemma normalize_all_elem h kws normalized k :
  normalize_all h kws = Some normalized ->
  k ∈ normalized
  <-> exists s, VStr s ∈ kws /\ s <> EmptyString
                /\ normalize_keyword s = Some k.
Proof.
  revert normalized. induction kws as [|kw kws IH]; intros normalized;
    cbn [normalize_all].
  - intros [= <-]. split; [by intros ?%elem_of_nil|].
    intros (s & Hs & _). by apply elem_of_nil in Hs.
  - destruct (truthy h kw) eqn:Et.
    + destruct kw as [| |s|]; try done.
      destruct (normalize_all h kws) as [rest|]; [|done].
      cbn [mbind option_bind]. intros [= <-].
      assert (s <> EmptyString) as Hs.
      { intros ->. cbn in Et. done. }
      specialize (IH rest eq_refl).
      destruct (normalize_keyword s) as [k0|] eqn:En.
      * rewrite elem_of_cons, IH. split.
        -- intros [->|(s' & Hin & Hne & Hk)].
           ++ exists s. split_and!; [left|done|done].
           ++ exists s'. split_and!; [by right|done|done].
        -- intros (s' & Hin & Hne & Hk).
           apply elem_of_cons in Hin as [Heq|Hin].
           ++ left. simplify_eq. congruence.
           ++ right. by exists s'.
      * rewrite IH. split.
        -- intros (s' & Hin & Hne & Hk). exists s'.
           split_and!; [by right|done|done].
        -- intros (s' & Hin & Hne & Hk).
           apply elem_of_cons in Hin as [Heq|Hin]; [simplify_eq; congruence|].
           by exists s'.
    + intros Hn. rewrite (IH normalized Hn). split.
      * intros (s' & Hin & Hne & Hk). exists s'.
        split_and!; [by right|done|done].
      * intros (s' & Hin & Hne & Hk).
        apply elem_of_cons in Hin as [Heq|Hin]; [|by exists s'].
        subst kw. cbn in Et. apply negb_false_iff, String.eqb_eq in Et.
        done.
Qed.

(** X23.  When [_normalize_keywords] returns, its result is a new list of
    distinct strings, the store is otherwise unchanged, and a string is in
    the list exactly when it is the normal form of a non-empty string of the
    input. *)
Theorem normalize_keywords_result `{SetOrder} (v r : pyval) (h h' : heap) :
  _normalize_keywords v h = (Ok r, h') ->
  exists l ks items,
    r = VRef l /\ (l ∉ dom h)
    /\ h' = <[l := OList (map VStr ks)]> h
    /\ py_iter h v = Some items
    /\ NoDup ks
    /\ forall k, k ∈ ks
                 <-> exists s, VStr s ∈ items /\ s <> EmptyString
                               /\ normalize_keyword s = Some k.
Proof.
  unfold _normalize_keywords, mbind, M_bind, bind, get_heap, of_option,
    new_list, alloc.
  cbv beta iota zeta.
  destruct (py_iter h v) as [items|] eqn:Ei; [|done].
  unfold mret, M_ret, ret. cbv beta iota.
  destruct (normalize_all h items) as [normalized|] eqn:En; [|done].
  cbv beta iota. intros [= <- <-].
  exists (fresh (dom h)), (set_iter normalized), items.
  split_and!; [done|apply is_fresh|done|done|apply set_iter_NoDup|].
  intros k. rewrite set_iter_elem. by apply normalize_all_elem with h.
Qed.

Lemma normalize_keywords_result_witness :
  exists l ks items,
    VRef 4%positive = VRef l /\ (l ∉ dom sample_heap)
    /\ <[4%positive := OList [VStr "tourist"; VStr "vr"]]> sample_heap
       = <[l := OList (map VStr ks)]> sample_heap
    /\ py_iter sample_heap (VRef 2%positive) = Some items
    /\ NoDup ks
    /\ forall k, k ∈ ks
                 <-> exists s, VStr s ∈ items /\ s <> EmptyString
                               /\ normalize_keyword s = Some k.
Proof.
  apply (@normalize_keywords_result last_seen_order (VRef 2%positive)).
  vm_compute. reflexivity.
Defined.
(** ** Text statistics *)

Lemma stats_step_fields st p :
  st_with_abstract (stats_step st p)
  = st_with_abstract st + (if truthy_str (abstract p) then 1 else 0)
  /\ st_with_keywords (stats_step st p)
     = st_with_keywords st
       + (if truthy_list (keywords (record p))
             || truthy_list (all_keywords (record p)) then 1 else 0)
  /\ st_total_tokens (stats_step st p)
     - Z.of_nat (length (st_unique_tokens (stats_step st p)))
     = st_total_tokens st - Z.of_nat (length (st_unique_tokens st))
  /\ Z.of_nat (length (st_abstract_lengths (stats_step st p)))
     - st_with_abstract (stats_step st p)
     = Z.of_nat (length (st_abstract_lengths st)) - st_with_abstract st
  /\ st_total_tokens (stats_step st p)
     = st_total_tokens st
       + (if truthy_str (abstract p)
          then Z.of_nat (length (default [] (abstract_tokens (record p))))
          else 0)
  /\ (NoDup (st_keyword_freq st).*1 ->
      NoDup (st_keyword_freq (stats_step st p)).*1).
Proof.
  unfold stats_step. cbv zeta.
  destruct (truthy_str (abstract p));
    destruct (truthy_list (keywords (record p)) ||
              truthy_list (all_keywords (record p)));
    cbn [st_with_abstract st_with_keywords st_total_tokens
         st_unique_tokens st_abstract_lengths st_keyword_freq];
    rewrite ?length_app; cbn [length];
    (split_and!; try lia; try done);
    intros Hnd; by apply counter_update_NoDup.
Qed.

Lemma stats_loop_from papers st :
  let st' := foldl stats_step st papers in
  st_with_abstract st'
  = st_with_abstract st
    + Z.of_nat (length (filter (fun p => truthy_str (abstract p) = true) papers))
  /\ st_with_keywords st'
     = st_with_keywords st
       + Z.of_nat (length (filter
           (fun p => truthy_list (keywords (record p)) = true
                     \/ truthy_list (all_keywords (record p)) = true) papers))
  /\ st_total_tokens st' - Z.of_nat (length (st_unique_tokens st'))
     = st_total_tokens st - Z.of_nat (length (st_unique_tokens st))
  /\ Z.of_nat (length (st_abstract_lengths st')) - st_with_abstract st'
     = Z.of_nat (length (st_abstract_lengths st)) - st_with_abstract st
  /\ st_total_tokens st'
     = st_total_tokens st
       + sum_Z (map (fun p => Z.of_nat (length (default []
                                 (abstract_tokens (record p)))))
                    (filter (fun p => truthy_str (abstract p) = true) papers))
  /\ (NoDup (st_keyword_freq st).*1 -> NoDup (st_keyword_freq st').*1).
Proof.
  revert st. induction papers as [|p papers IH]; intros st; cbn [foldl].
  - cbv zeta. rewrite !filter_nil. cbn [length map sum_Z foldr].
    split_and!; (done || lia).
  - destruct (IH (stats_step st p)) as (IH1 & IH2 & IH3 & IH4 & IH6 & IH5).
    destruct (stats_step_fields st p) as (S1 & S2 & S3 & S4 & S6 & S5).
    cbv zeta in *. rewrite !filter_cons.
    split_and!.
    + destruct (truthy_str (abstract p)) eqn:Ea.
      * rewrite decide_True by done. cbn [length]. lia.
      * rewrite decide_False by done. lia.
    + destruct (truthy_list (keywords (record p))) eqn:Ek;
        destruct (truthy_list (all_keywords (record p))) eqn:El;
        cbn [orb] in S2.
      * rewrite decide_True by (by left). cbn [length]. lia.
      * rewrite decide_True by (by left). cbn [length]. lia.
      * rewrite decide_True by (by right). cbn [length]. lia.
      * rewrite decide_False by (by intros [?|?]). lia.
    + lia.
    + lia.
    + destruct (truthy_str (abstract p)) eqn:Ea.
      * rewrite decide_True by done. cbn [map]. unfold sum_Z in *.
        cbn [foldr]. lia.
      * rewrite decide_False by done. lia.
    + intros Hnd. by apply IH5, S5.
Qed.

(** X24.  In the statistics of [get_text_stats], [papers_with_abstract]
    and [papers_with_keywords] are the numbers of records with an abstract
    and with keywords, neither above [total_papers]; [total_tokens] is the
    number of tokens of the records with an abstract and bounds
    [unique_tokens]; the average abstract length is 0 when no record has an
    abstract; and every keyword has one count. *)
Theorem text_stats_bounds (papers : list text_record) :
  let stats := get_text_stats papers in
  let with_abstract :=
    filter (fun p => truthy_str (abstract p) = true) papers in
  papers_with_abstract stats = Z.of_nat (length with_abstract)
  /\ papers_with_keywords stats
     = Z.of_nat (length (filter
         (fun p => truthy_list (keywords (record p)) = true
                   \/ truthy_list (all_keywords (record p)) = true) papers))
  /\ total_tokens stats
     = sum_Z (map (fun p => Z.of_nat (length (default []
                               (abstract_tokens (record p)))))
                  with_abstract)
  /\ papers_with_abstract stats <= total_papers stats
  /\ papers_with_keywords stats <= total_papers stats
  /\ 0 <= unique_tokens stats <= total_tokens stats
  /\ (with_abstract = [] -> avg_abstract_length stats = PyInt 0)
  /\ NoDup (keyword_freq stats).*1.
Proof.
  cbv zeta. unfold get_text_stats. cbv zeta.
  cbn [papers_with_abstract papers_with_keywords total_papers unique_tokens
       total_tokens avg_abstract_length keyword_freq].
  destruct (stats_loop_from papers stats_start)
    as (H1 & H2 & H3 & H4 & H6 & H5).
  cbv zeta in *. set (st := foldl stats_step stats_start papers) in *.
  cbn [stats_start st_with_abstract st_with_keywords st_total_tokens
       st_unique_tokens st_abstract_lengths st_keyword_freq length] in *.
  pose proof (length_filter (fun p => truthy_str (abstract p) = true) papers).
  pose proof (length_filter
                (fun p => truthy_list (keywords (record p)) = true
                          \/ truthy_list (all_keywords (record p)) = true)
                papers).
  assert (length (remove_dups (st_unique_tokens st))
          <= length (st_unique_tokens st))%nat as Hu.
  { apply submseteq_length, NoDup_submseteq; [apply NoDup_remove_dups|].
    intros x. by rewrite elem_of_remove_dups. }
  split_and!; try lia.
  - intros Hnone. rewrite Hnone in H1. cbn [length] in H1.
    destruct (st_abstract_lengths st); [done|]. cbn [length] in H4. lia.
  - apply H5. constructor.
Qed.
(** ** Cleaned text *)

Lemma str_app_assoc (a b c : string) : (a +:+ b) +:+ c = a +:+ (b +:+ c).
Proof.
  induction a as [|x a IH]; [done|].
  change (String x a +:+ b) with (String x (a +:+ b)).
  change (String x (a +:+ b) +:+ c) with (String x ((a +:+ b) +:+ c)).
  by rewrite IH.
Qed.

Lemma rev_app_spec s1 s2 : String.rev_app s1 s2 = String.rev s1 +:+ s2.
Proof.
  unfold String.rev. revert s2.
  induction s1 as [|c s1 IH]; intros s2; [done|].
  cbn [String.rev_app]. rewrite (IH (String c s2)), (IH (String c EmptyString)).
  by rewrite str_app_assoc.
Qed.

Lemma rev_cons c s : String.rev (String c s) = String.rev s +:+ String c EmptyString.
Proof. unfold String.rev at 1. cbn [String.rev_app]. apply rev_app_spec. Qed.

Lemma rev_app_distr a b : String.rev (a +:+ b) = String.rev b +:+ String.rev a.
Proof.
  induction a as [|c a IH].
  - change (EmptyString +:+ b) with b. by rewrite str_app_nil_r.
  - change (String c a +:+ b) with (String c (a +:+ b)).
    by rewrite !rev_cons, IH, str_app_assoc.
Qed.

Lemma rev_involutive s : String.rev (String.rev s) = s.
Proof.
  induction s as [|c s IH]; [done|].
  by rewrite rev_cons, rev_app_distr, IH.
Qed.

(** *** [strip] *)

Lemma lstrip_suffix s :
  exists pre, s = pre +:+ lstrip s /\ str_all is_space pre = true.
Proof.
  induction s as [|c s IH]; [by exists EmptyString|].
  cbn [lstrip]. destruct (is_space c) eqn:E.
  - destruct IH as (pre & Heq & Hpre). exists (String c pre).
    split; [|by cbn [str_all]; rewrite E].
    change (String c pre +:+ lstrip s) with (String c (pre +:+ lstrip s)).
    by rewrite <- Heq.
  - by exists EmptyString.
Qed.

Lemma lstrip_starts_clean s : starts_clean (lstrip s) = true.
Proof.
  induction s as [|c s IH]; [done|]. cbn [lstrip].
  destruct (is_space c) eqn:E; [done|]. cbn [starts_clean]. by rewrite E.
Qed.

Lemma lstrip_id s : starts_clean s = true -> lstrip s = s.
Proof.
  destruct s as [|c s]; [done|]. cbn [starts_clean lstrip].
  by intros ->%negb_true_iff.
Qed.

(** [strip s] is [s] without a prefix and a suffix. *)
Lemma strip_infix s :
  exists pre post, s = pre +:+ strip s +:+ post.
Proof.
  unfold strip.
  destruct (lstrip_suffix s) as (pre & Hs & _).
  destruct (lstrip_suffix (String.rev (lstrip s))) as (post & Hr & _).
  exists pre, (String.rev post). rewrite Hs at 1. f_equal.
  rewrite <- (rev_involutive (lstrip s)) at 1. rewrite Hr at 1.
  by rewrite rev_app_distr.
Qed.

Lemma starts_clean_app s post :
  starts_clean (s +:+ post) = true -> starts_clean s = true.
Proof. by destruct s. Qed.

Lemma strip_starts_clean s :
  starts_clean (strip s) = true /\ starts_clean (String.rev (strip s)) = true.
Proof.
  unfold strip. split.
  - destruct (lstrip_suffix (String.rev (lstrip s))) as (post & Hr & _).
    apply (starts_clean_app _ (String.rev post)).
    rewrite <- rev_app_distr, <- Hr, rev_involutive.
    apply lstrip_starts_clean.
  - rewrite rev_involutive. apply lstrip_starts_clean.
Qed.

Lemma strip_id s :
  starts_clean s = true -> starts_clean (String.rev s) = true -> strip s = s.
Proof.
  intros Hs Hr. unfold strip. rewrite (lstrip_id s Hs), (lstrip_id _ Hr).
  apply rev_involutive.
Qed.
(** *** The steps of [clean_text] *)

Lemma clean_char_space c :
  clean_char c = true -> is_space c = true -> c = " "%char.
Proof. all_chars c. Qed.

Lemma kept_not_space_clean c :
  is_word c || is_space c || is_basic_punctuation c = true ->
  is_space c = false -> clean_char c = true.
Proof. all_chars c. Qed.

Lemma clean_char_kept c :
  clean_char c = true ->
  is_word c || is_space c || is_basic_punctuation c = true.
Proof. all_chars c. Qed.

Lemma clean_char_not_tag c :
  clean_char c = true -> bool_decide (c = "<"%char) = false.
Proof. all_chars c. Qed.

Lemma space_not_blank c : is_space c = false -> bool_decide (c = " "%char) = false.
Proof. all_chars c. Qed.

Lemma blank_special_kept s :
  str_all (fun c => is_word c || is_space c || is_basic_punctuation c)
          (blank_special s) = true.
Proof.
  induction s as [|c s IH]; [done|]. cbn [blank_special str_all].
  rewrite IH, andb_true_r.
  by destruct (is_word c || is_space c || is_basic_punctuation c) eqn:E.
Qed.

Lemma collapse_spaces_clean b s :
  str_all (fun c => is_word c || is_space c || is_basic_punctuation c) s = true ->
  str_all clean_char (collapse_spaces b s) = true
  /\ single_spaced b (collapse_spaces b s) = true.
Proof.
  revert b. induction s as [|c s IH]; intros b; [done|].
  cbn [str_all collapse_spaces]. rewrite andb_true_iff. intros [Hc Hs].
  pose proof (kept_not_space_clean c Hc) as Hclean.
  pose proof (space_not_blank c) as Hblank.
  destruct (is_space c).
  - destruct b; [by apply IH|].
    destruct (IH true Hs) as [IH1 IH2].
    cbn [str_all single_spaced]. by rewrite IH1, IH2.
  - destruct (IH false Hs) as [IH1 IH2].
    cbn [str_all single_spaced].
    rewrite (Hclean eq_refl), (Hblank eq_refl). done.
Qed.

Lemma single_spaced_weaken b s :
  single_spaced b s = true -> single_spaced false s = true.
Proof.
  destruct s as [|c s]; [done|]. cbn [single_spaced].
  destruct (bool_decide (c = " "%char)); [|done].
  rewrite !andb_true_iff. by intros [_ ?].
Qed.

Lemma single_spaced_tail b c s :
  single_spaced b (String c s) = true -> single_spaced false s = true.
Proof.
  cbn [single_spaced]. destruct (bool_decide (c = " "%char)); [|done].
  rewrite andb_true_iff. intros [_ ?]. by eapply single_spaced_weaken.
Qed.

Lemma remove_copyright_chars P s deleting :
  str_all P s = true -> str_all P (remove_copyright deleting s) = true.
Proof.
  revert deleting. induction s as [|c s IH]; intros deleting; [done|].
  cbn [str_all]. rewrite andb_true_iff. intros [Hc Hs].
  cbn [remove_copyright]. destruct deleting.
  - case_bool_decide; [|by apply IH]. cbn [str_all]. by rewrite Hc, IH.
  - destruct (String.prefix _ _); [by apply IH|].
    cbn [str_all]. by rewrite Hc, IH.
Qed.

Lemma remove_copyright_spaced s :
  forall b, single_spaced b s = true ->
    single_spaced b (remove_copyright false s) = true
    /\ forall b', single_spaced b' (remove_copyright true s) = true.
Proof.
  induction s as [|c s IH]; intros b Hs; [done|].
  pose proof (single_spaced_tail b c s Hs) as Htail.
  destruct (IH false Htail) as [IH1 IH2].
  cbn [remove_copyright]. split.
  - destruct (String.prefix _ _); [apply IH2|].
    cbn [single_spaced] in *. destruct (bool_decide (c = " "%char)); [|done].
    apply andb_true_iff in Hs as [Hb Hs]. rewrite Hb. cbn [andb].
    by apply IH.
  - intros b'. case_bool_decide as Hdot; [|apply IH2].
    subst c. done.
Qed.

Lemma prefix_nil s : String.prefix EmptyString s = true.
Proof. by destruct s. Qed.

Lemma prefix_app w s post :
  String.prefix w s = true -> String.prefix w (s +:+ post) = true.
Proof.
  revert s. induction w as [|a w IH]; intros s; [by rewrite !prefix_nil|].
  destruct s as [|c s]; [done|].
  change (String c s +:+ post) with (String c (s +:+ post)).
  cbn [String.prefix]. destruct (Ascii.ascii_dec a c); [apply IH|done].
Qed.

Lemma contains_suffix w pre s :
  contains w (pre +:+ s) = false -> contains w s = false.
Proof.
  induction pre as [|c pre IH]; [done|].
  change (String c pre +:+ s) with (String c (pre +:+ s)).
  cbn [contains]. rewrite orb_false_iff. intros [_ ?]. by apply IH.
Qed.

Lemma contains_prefix w s post :
  contains w (s +:+ post) = false -> contains w s = false.
Proof.
  induction s as [|c s IH].
  - change (EmptyString +:+ post) with post.
    destruct post as [|c post]; [done|].
    cbn [contains]. rewrite !orb_false_iff. intros [Hp _]. split; [|done].
    by destruct w.
  - change (String c s +:+ post) with (String c (s +:+ post)).
    cbn [contains]. rewrite !orb_false_iff. intros [Hp Hc].
    split; [|by apply IH].
    destruct (String.prefix w (String c s)) eqn:E; [|done].
    apply (prefix_app _ _ post) in E.
    change (String c s +:+ post) with (String c (s +:+ post)) in E.
    congruence.
Qed.

(** A word without a full stop that starts the text after the removal
    started it before. *)
Lemma remove_copyright_prefix w s :
  str_all (fun c => negb (bool_decide (c = "."%char))) w = true ->
  String.prefix w (lower (remove_copyright false s)) = true ->
  String.prefix w (lower s) = true.
Proof.
  revert s. induction w as [|a w IH]; intros s Hw; [by rewrite !prefix_nil|].
  cbn [str_all] in Hw. apply andb_true_iff in Hw as [Ha Hw].
  apply negb_true_iff, bool_decide_eq_false in Ha.
  destruct s as [|c s]; [done|].
  cbn [remove_copyright].
  destruct (String.prefix "copyright" (lower (String c s))) eqn:E.
  - (* the removal leaves a full stop or nothing at the head *)
    assert (forall t, String.prefix (String a w)
                        (lower (remove_copyright true t)) = false) as Hdel.
    { induction t as [|x t IHt]; [done|]. cbn [remove_copyright].
      case_bool_decide as Hx; [|done]. subst x.
      cbn [lower String.prefix].
      change (lower_char ".") with "."%char.
      by destruct (Ascii.ascii_dec a "."). }
    by rewrite Hdel.
  - cbn [lower String.prefix].
    destruct (Ascii.ascii_dec a (lower_char c)); [|done]. by apply IH.
Qed.

Lemma remove_copyright_gone s :
  contains "copyright" (lower (remove_copyright false s)) = false
  /\ contains "copyright" (lower (remove_copyright true s)) = false.
Proof.
  induction s as [|c s [IH1 IH2]]; [done|].
  cbn [remove_copyright]. split.
  - destruct (String.prefix "copyright" (lower (String c s))) eqn:E; [done|].
    cbn [lower contains]. fold (lower (remove_copyright false s)).
    rewrite IH1, orb_false_r.
    destruct (String.prefix "copyright"
                (String (lower_char c) (lower (remove_copyright false s))))
      eqn:Ep; [|done].
    assert (String.prefix "copyright" (lower (String c s)) = true) as Hp;
      [|congruence].
    apply remove_copyright_prefix; [done|].
    cbn [remove_copyright]. by rewrite E.
  - case_bool_decide as Hdot; [|done]. subst c.
    cbn [lower]. change (lower_char ".") with "."%char.
    cbn [contains]. by rewrite IH1.
Qed.

Lemma remove_tags_id s :
  str_all (fun c => negb (bool_decide (c = "<"%char))) s = true ->
  remove_tags_from 0 s = s.
Proof.
  induction s as [|c s IH]; [done|]. cbn [str_all remove_tags_from].
  rewrite andb_true_iff, negb_true_iff. intros [-> Hs]. by rewrite IH.
Qed.

Lemma blank_special_id s :
  str_all (fun c => is_word c || is_space c || is_basic_punctuation c) s = true ->
  blank_special s = s.
Proof.
  induction s as [|c s IH]; [done|]. cbn [str_all blank_special].
  rewrite andb_true_iff. intros [-> Hs]. by rewrite IH.
Qed.

Lemma collapse_spaces_id b s :
  str_all clean_char s = true -> single_spaced b s = true ->
  collapse_spaces b s = s.
Proof.
  revert b. induction s as [|c s IH]; intros b; [done|].
  cbn [str_all single_spaced collapse_spaces]. rewrite andb_true_iff.
  intros [Hc Hs].
  pose proof (clean_char_space c Hc) as Hspace.
  pose proof (space_not_blank c) as Hblank.
  destruct (is_space c).
  - rewrite (Hspace eq_refl). rewrite bool_decide_eq_true_2 by done.
    rewrite andb_true_iff, negb_true_iff. intros [-> Hsp].
    by rewrite IH.
  - rewrite (Hblank eq_refl). intros Hsp. by rewrite IH.
Qed.

Lemma remove_copyright_id s :
  contains "copyright" (lower s) = false -> remove_copyright false s = s.
Proof.
  induction s as [|c s IH]; [done|].
  cbn [remove_copyright].
  change (lower (String c s)) with (String (lower_char c) (lower s)).
  cbn [contains]. rewrite orb_false_iff. intros [-> Hs]. by rewrite IH.
Qed.

(** The shape of cleaned text. *)
Lemma clean_text_shape text :
  let t := clean_text text in
  str_all clean_char t = true
  /\ single_spaced false t = true
  /\ starts_clean t = true
  /\ starts_clean (String.rev t) = true
  /\ contains "copyright" (lower t) = false.
Proof.
  cbv zeta. unfold clean_text. destruct text as [|c0 text0]; [done|].
  set (u := remove_copyright false
              (collapse_spaces false
                 (blank_special (remove_tags_from 0 (String c0 text0))))).
  destruct (collapse_spaces_clean false _
              (blank_special_kept (remove_tags_from 0 (String c0 text0))))
    as [Hchars Hspaced].
  assert (str_all clean_char u = true) as Hu1
    by (by apply remove_copyright_chars).
  assert (single_spaced false u = true) as Hu2
    by (by apply remove_copyright_spaced).
  assert (contains "copyright" (lower u) = false) as Hu3
    by apply remove_copyright_gone.
  destruct (strip_infix u) as (pre & post & Hinfix).
  destruct (strip_starts_clean u) as [Hs1 Hs2].
  split_and!; [by apply str_all_strip| |done|done|].
  - rewrite Hinfix in Hu2.
    clear -Hu2. revert Hu2. generalize (strip u) as m. intros m.
    assert (forall b, single_spaced b (m +:+ post) = true ->
                      single_spaced b m = true) as Hpre.
    { induction m as [|c m IH]; intros b; [done|].
      change (String c m +:+ post) with (String c (m +:+ post)).
      cbn [single_spaced]. destruct (bool_decide (c = " "%char)); [|apply IH].
      rewrite !andb_true_iff. intros [? ?]. split; [done|by apply IH]. }
    induction pre as [|c pre IH]; [apply Hpre|].
    change (String c pre +:+ m +:+ post) with (String c (pre +:+ m +:+ post)).
    intros H%single_spaced_tail. by apply IH.
  - rewrite Hinfix, !lower_app in Hu3.
    by apply contains_suffix, contains_prefix in Hu3.
Qed.

(** X25.  The text returned by [_clean_text] holds only word characters,
    single spaces and the kept punctuation; it has no two spaces in a row,
    no whitespace at either end, and no occurrence of the word copyright in
    any case. *)
Theorem clean_text_clean (text : string) :
  let t := clean_text text in
  str_all clean_char t = true
  /\ single_spaced false t = true
  /\ starts_clean t = true
  /\ starts_clean (String.rev t) = true
  /\ contains "copyright" (lower t) = false.
Proof. apply clean_text_shape. Qed.

(** X26.  [_clean_text] is idempotent: cleaning a cleaned text changes
    nothing. *)
Theorem clean_text_idempotent (text : string) :
  clean_text (clean_text text) = clean_text text.
Proof.
  destruct (clean_text_shape text) as (Hc & Hs & H1 & H2 & Hw).
  cbv zeta in *. set (t := clean_text text) in *.
  unfold clean_text at 1. destruct t as [|c t'] eqn:Et; [done|].
  rewrite <- Et in *. clear Et.
  rewrite remove_tags_id.
  2:{ eapply str_all_impl; [|exact Hc]. intros x Hx.
      by rewrite (clean_char_not_tag x Hx). }
  rewrite blank_special_id
    by (eapply str_all_impl; [apply clean_char_kept|exact Hc]).
  rewrite collapse_spaces_id, remove_copyright_id by done.
  by apply strip_id.
Qed.
